(** * OpenClaw structured memory: store, compaction engine, reconciler, backend

    A shallow embedding of
    - [src/memory/structured-store.ts]   (module [Store]),
    - [src/memory/compression-engine.ts] (module [Engine]),
    - [src/memory/markdown-sync.ts]      (module [Sync]),
    - [src/memory/structured-backend.ts] (module [Backend]),
    then the vocabulary of the properties ([Terms]), the concrete stores of
    the examples ([Fixture]), and the properties of the lifecycle pipeline,
    one module per subject.

    Conventions.
    - JavaScript numbers that hold integers (timestamps, counters, levels,
      lengths) are [Z]; numbers that hold fractions (scores, weights,
      similarities) are real numbers [R]: rounding, NaN and infinities are
      outside the model.  [Math.pow] is real exponentiation [Rpower] on a
      positive base, with its values at base 0 written out.
    - Strings are [string]s of ASCII characters; [toLowerCase] and the
      whitespace class of regular expressions are the ASCII ones.
    - The SQLite database is a record of tables (lists of rows in rowid
      order).  Rows that a query's [ORDER BY] leaves tied come out in table
      order, unless SQLite answers the query from an index that yields
      another order, which is then written out at the query.
      The connection's foreign-key pragma is a field of the database:
      node:sqlite opens connections with it on.
    - [Date.now()], [randomUUID()] and the time zone are read from the
      world; the clock moves only between operations.  Exceptions are an
      outcome of the monad [M] and keep the state reached when thrown. *)

From Stdlib Require Import ZArith List String Ascii Bool Lia.
From Stdlib Require Import Reals Lra.
From Stdlib Require Import DecimalString.
From Stdlib Require Import Sorted Permutation.
From Stdlib Require DecimalZ.
Import ListNotations.

Local Open Scope string_scope.
Local Open Scope Z_scope.

(* ================================================================== *)
(** ** JavaScript strings, arrays and dates *)

Module JS.

Definition LF : ascii := ascii_of_nat 10.
Definition nl : string := String LF EmptyString.

(** The class [\s] on ASCII: TAB, LF, VT, FF, CR and SPACE. *)
Definition is_space (c : ascii) : bool :=
  let n := nat_of_ascii c in
  (Nat.eqb n 32 || (Nat.leb 9 n && Nat.leb n 13))%bool.

(** The class [\w]: letters, digits and underscore. *)
Definition is_word (c : ascii) : bool :=
  let n := nat_of_ascii c in
  ((Nat.leb 48 n && Nat.leb n 57) || (Nat.leb 65 n && Nat.leb n 90)
   || (Nat.leb 97 n && Nat.leb n 122) || Nat.eqb n 95)%bool.

Definition lower (c : ascii) : ascii :=
  let n := nat_of_ascii c in
  if (Nat.leb 65 n && Nat.leb n 90)%bool then ascii_of_nat (n + 32) else c.

Fixpoint toLowerCase (s : string) : string :=
  match s with
  | EmptyString => EmptyString
  | String c s' => String (lower c) (toLowerCase s')
  end.

Definition startsWith (s p : string) : bool := String.prefix p s.

(** [hay.includes(needle)] *)
Fixpoint includes (hay needle : string) : bool :=
  (String.prefix needle hay
   || match hay with
      | EmptyString => false
      | String _ hay' => includes hay' needle
      end)%bool.

(** [hay.indexOf(needle)], [-1] when absent. *)
Fixpoint indexOf (hay needle : string) : Z :=
  if String.prefix needle hay then 0
  else match hay with
       | EmptyString => -1
       | String _ hay' =>
           let i := indexOf hay' needle in
           if i <? 0 then -1 else i + 1
       end.

(** [s.split(sep)] for a one-character separator. *)
Fixpoint split_char (sep : ascii) (s : string) : list string :=
  match s with
  | EmptyString => [EmptyString]
  | String c s' =>
      if Ascii.eqb c sep then EmptyString :: split_char sep s'
      else match split_char sep s' with
           | w :: ws => String c w :: ws
           | [] => [String c EmptyString]
           end
  end.

(** [s.split(/\s+/)]: [in_run] says that the previous character was part of
    the separator being skipped. *)
Fixpoint split_ws_from (in_run : bool) (s : string) : list string :=
  match s with
  | EmptyString => [EmptyString]
  | String c s' =>
      if is_space c then
        if in_run then split_ws_from true s'
        else EmptyString :: split_ws_from true s'
      else match split_ws_from false s' with
           | w :: ws => String c w :: ws
           | [] => [String c EmptyString]
           end
  end.

Definition split_ws (s : string) : list string := split_ws_from false s.

Fixpoint trimStart (s : string) : string :=
  match s with
  | String c s' => if is_space c then trimStart s' else s
  | EmptyString => EmptyString
  end.

Fixpoint trimEnd (s : string) : string :=
  match s with
  | EmptyString => EmptyString
  | String c s' =>
      match trimEnd s' with
      | EmptyString => if is_space c then EmptyString else String c EmptyString
      | t => String c t
      end
  end.

Definition trim (s : string) : string := trimEnd (trimStart s).

Fixpoint join (sep : string) (l : list string) : string :=
  match l with
  | [] => EmptyString
  | [x] => x
  | x :: rest => x ++ sep ++ join sep rest
  end.

Definition len (s : string) : Z := Z.of_nat (String.length s).

(** [s.slice(a, b)] for [0 <= a], [0 <= b]. *)
Definition slice (s : string) (a b : Z) : string :=
  String.substring (Z.to_nat a) (Z.to_nat (b - a)) s.

(** [String(n)] for an integer. *)
Definition of_int (n : Z) : string := NilZero.string_of_int (Z.to_int n).

(** [s.padStart(2, "0")] *)
Definition padStart2 (s : string) : string :=
  match String.length s with
  | O => "00"
  | S O => "0" ++ s
  | _ => s
  end.

(** [xs.slice(0, n)] on an array. *)
Definition take {A} (n : Z) (xs : list A) : list A :=
  if 0 <=? n then firstn (Z.to_nat n) xs
  else firstn (Z.to_nat (Z.of_nat (List.length xs) + n)) xs.

(** [Math.pow(x, y)] where it is a finite number: real exponentiation on a
    positive base; 0 to a positive power is 0, and to the power 0 it is 1. *)
Definition Math_pow (x y : R) : R :=
  if Req_dec_T x 0 then (if Rlt_dec 0 y then 0%R else 1%R) else Rpower x y.

(** [xs.slice(a, b)] on an array: a negative index counts from the end, and
    both ends are clamped to the array. *)
Definition array_slice {A} (a b : Z) (xs : list A) : list A :=
  let n := Z.of_nat (List.length xs) in
  let k := if a <? 0 then Z.max (n + a) 0 else Z.min a n in
  let final := if b <? 0 then Z.max (n + b) 0 else Z.min b n in
  firstn (Z.to_nat (final - k)) (skipn (Z.to_nat k) xs).

(** A [Set] keeps its members in insertion order, without repetition. *)
Fixpoint set_has (x : string) (s : list string) : bool :=
  match s with
  | [] => false
  | y :: s' => (String.eqb x y || set_has x s')%bool
  end.

Definition set_add (s : list string) (x : string) : list string :=
  if set_has x s then s else s ++ [x].

Definition new_Set (l : list string) : list string := fold_left set_add l [].

(** *** Dates (proleptic Gregorian calendar, days counted from 1970-01-01) *)

Definition msPerDay : Z := 86400000.

Definition days_from_civil (y m d : Z) : Z :=
  let y' := if m <=? 2 then y - 1 else y in
  let era := y' / 400 in
  let yoe := y' - era * 400 in
  let mp := (m + 9) mod 12 in
  let doy := (153 * mp + 2) / 5 + d - 1 in
  let doe := yoe * 365 + yoe / 4 - yoe / 100 + doy in
  era * 146097 + doe - 719468.

Definition civil_from_days (z : Z) : Z * Z * Z :=
  let z := z + 719468 in
  let era := z / 146097 in
  let doe := z - era * 146097 in
  let yoe := (doe - doe / 1460 + doe / 36524 - doe / 146096) / 365 in
  let y := yoe + era * 400 in
  let doy := doe - (365 * yoe + yoe / 4 - yoe / 100) in
  let mp := (5 * doy + 2) / 153 in
  let d := doy - (153 * mp + 2) / 5 + 1 in
  let m := if mp <? 10 then mp + 3 else mp - 9 in
  ((if m <=? 2 then y + 1 else y), m, d).

(** A [Date] is its time value in milliseconds.  [tz t] is the offset of
    local time from UTC at instant [t], in milliseconds. *)
Section LocalTime.
Variable tz : Z -> Z.

Definition local_day (t : Z) : Z := (t + tz t) / msPerDay.
Definition getFullYear (t : Z) : Z := fst (fst (civil_from_days (local_day t))).
(** [getMonth] is zero-based. *)
Definition getMonth (t : Z) : Z := snd (fst (civil_from_days (local_day t))) - 1.
Definition getDate (t : Z) : Z := snd (civil_from_days (local_day t)).
End LocalTime.

(** [Date.UTC(y, m, d)] with a zero-based month, in milliseconds (for years
    from 100 on: [Date.UTC] reads a year below 100 as 1900 + y). *)
Definition Date_UTC (y m d : Z) : Z := days_from_civil y (m + 1) d * msPerDay.
Definition getUTCDay (t : Z) : Z := (t / msPerDay + 4) mod 7.
Definition getUTCFullYear (t : Z) : Z := fst (fst (civil_from_days (t / msPerDay))).

End JS.

(* ================================================================== *)
(** ** The structured store ([structured-store.ts]) *)

Module Store.

Inductive MemoryType := Note | Summary | Archive | Decision | Preference | Todo.
Inductive ImportanceLevel := Low | Medium | High | Critical.
Inductive Action := ActSearch | ActRead | ActWrite | ActUpdate.

Definition MemoryType_eqb (a b : MemoryType) : bool :=
  match a, b with
  | Note, Note | Summary, Summary | Archive, Archive
  | Decision, Decision | Preference, Preference | Todo, Todo => true
  | _, _ => false
  end.

Definition ImportanceLevel_eqb (a b : ImportanceLevel) : bool :=
  match a, b with
  | Low, Low | Medium, Medium | High, High | Critical, Critical => true
  | _, _ => false
  end.

(** [interface StructuredMemory] *)
Record StructuredMemory := {
  id : string;
  content : string;
  summary : option string;
  sourcePath : string;
  memoryType : MemoryType;
  importanceLevel : ImportanceLevel;
  importanceScore : R;
  tags : list string;
  createdAt : Z;
  updatedAt : Z;
  accessedAt : option Z;
  accessCount : Z;
  compressedFrom : option (list string);
  compressionLevel : option Z;
  relatedMemories : option (list string);
  sourceSessionId : option string;
  sourceChannel : option string
}.

(** The argument of [createMemory]:
    [Omit<StructuredMemory, "id" | "createdAt" | "updatedAt" | "accessCount">]. *)
Module New.
Record t := {
    content : string;
    summary : option string;
    sourcePath : string;
    memoryType : MemoryType;
    importanceLevel : ImportanceLevel;
    importanceScore : R;
    tags : list string;
    accessedAt : option Z;
    compressedFrom : option (list string);
    compressionLevel : option Z;
    relatedMemories : option (list string);
    sourceSessionId : option string;
    sourceChannel : option string
  }.
End New.

(** The argument of [updateMemory]:
    [Partial<Omit<StructuredMemory, "id" | "createdAt">>]; [None] is
    [undefined]. *)
Module Upd.
Record t := {
    content : option string;
    summary : option string;
    sourcePath : option string;
    memoryType : option MemoryType;
    importanceLevel : option ImportanceLevel;
    importanceScore : option R;
    tags : option (list string);
    updatedAt : option Z;
    accessedAt : option Z;
    accessCount : option Z;
    compressedFrom : option (list string);
    compressionLevel : option Z;
    relatedMemories : option (list string);
    sourceSessionId : option string;
    sourceChannel : option string
  }.

Definition empty : t :=
    {| content := None; summary := None; sourcePath := None;
       memoryType := None; importanceLevel := None; importanceScore := None;
       tags := None; updatedAt := None; accessedAt := None;
       accessCount := None; compressedFrom := None; compressionLevel := None;
       relatedMemories := None; sourceSessionId := None;
       sourceChannel := None |}.
End Upd.

(** A row of table [structured_memories] ([interface StructuredMemoryRow]).
    The JSON columns [compressed_from] and [related_memories] hold the array
    they serialize. *)
Module Row.
Record t := {
    id : string;
    content : string;
    summary : option string;
    source_path : string;
    memory_type : MemoryType;
    importance_level : ImportanceLevel;
    importance_score : R;
    created_at : Z;
    updated_at : Z;
    accessed_at : option Z;
    access_count : Z;
    compressed_from : option (list string);
    compression_level : Z;
    related_memories : option (list string);
    source_session_id : option string;
    source_channel : option string
  }.
End Row.

(** Rows of tables [tags], [memory_access_log] and [memory_relations];
    a row of [memory_tags] is the pair [(memory_id, tag_id)]. *)
Record TagRow := {
  tag_id : Z;
  name : string;
  color : option string;
  description : option string;
  tag_created_at : Z;
  memory_count : Z
}.

Record AccessLogRow := {
  log_id : Z;
  memory_id : string;
  accessed_at : Z;
  query : option string;
  action : Action
}.

Record RelationRow := {
  source_id : string;
  target_id : string;
  relation_type : string;
  rel_created_at : Z
}.

(** The database created by [ensureStructuredMemorySchema].  The two
    [_seq] fields are the AUTOINCREMENT counters; [foreign_keys] is the
    connection's [PRAGMA foreign_keys], which decides whether the schema's
    [FOREIGN KEY ... ON DELETE CASCADE] clauses are enforced. *)
Record Database := {
  structured_memories : list Row.t;
  tags_table : list TagRow;
  tags_seq : Z;
  memory_tags : list (string * Z);
  memory_access_log : list AccessLogRow;
  access_log_seq : Z;
  memory_relations : list RelationRow;
  foreign_keys : bool
}.

Definition empty_db (fk : bool) : Database :=
  {| structured_memories := []; tags_table := []; tags_seq := 0;
     memory_tags := []; memory_access_log := []; access_log_seq := 0;
     memory_relations := []; foreign_keys := fk |}.

(** What the process reads from outside the store: the clock of
    [Date.now()], the stream of [randomUUID()] and the local time zone. *)
Record World := {
  db : Database;
  clock : Z;
  uuid_pool : nat -> string;
  uuid_next : nat;
  tz : Z -> Z
}.

Definition set_db (w : World) (d : Database) : World :=
  {| db := d; clock := clock w; uuid_pool := uuid_pool w;
     uuid_next := uuid_next w; tz := tz w |}.

Definition set_clock (t : Z) (w : World) : World :=
  {| db := db w; clock := t; uuid_pool := uuid_pool w;
     uuid_next := uuid_next w; tz := tz w |}.

(** *** The monad of store operations: state, and exceptions that keep the
    state reached when they were thrown (there is no transaction). *)

Inductive outcome (A : Type) := Ok (a : A) | Throw (e : string).
Arguments Ok {A} a.
Arguments Throw {A} e.

Definition M (A : Type) : Type := World -> outcome A * World.

Definition ret {A} (a : A) : M A := fun w => (Ok a, w).
Definition throw {A} (e : string) : M A := fun w => (Throw e, w).
Definition bind {A B} (m : M A) (k : A -> M B) : M B :=
  fun w => match m w with
           | (Ok a, w') => k a w'
           | (Throw e, w') => (Throw e, w')
           end.
(** [try { m } catch (err) { h err }] *)
Definition try_catch {A} (m : M A) (h : string -> M A) : M A :=
  fun w => match m w with
           | (Ok a, w') => (Ok a, w')
           | (Throw e, w') => h e w'
           end.

Declare Scope store_scope.
Delimit Scope store_scope with store.
Notation "x <- m ;; k" := (bind m (fun x => k))
  (at level 61, m at next level, right associativity) : store_scope.
Notation "m ;;; k" := (bind m (fun _ => k))
  (at level 61, right associativity) : store_scope.
Local Open Scope store_scope.

Definition get_db : M Database := fun w => (Ok (db w), w).
Definition put_db (d : Database) : M unit := fun w => (Ok tt, set_db w d).
Definition Date_now : M Z := fun w => (Ok (clock w), w).
Definition randomUUID : M string :=
  fun w => (Ok (uuid_pool w (uuid_next w)),
            {| db := db w; clock := clock w; uuid_pool := uuid_pool w;
               uuid_next := S (uuid_next w); tz := tz w |}).
Definition get_tz : M (Z -> Z) := fun w => (Ok (tz w), w).

(** [for (const x of xs) body(x)] *)
Fixpoint for_each {A} (xs : list A) (body : A -> M unit) : M unit :=
  match xs with
  | [] => ret tt
  | x :: xs' => body x ;;; for_each xs' body
  end.

(** The world an operation leaves, and its outcome. *)
Definition exec {A} (m : M A) (w : World) : World := snd (m w).
Definition eval {A} (m : M A) (w : World) : outcome A := fst (m w).

(** *** SQL statements against the schema *)

Definition has_memory (d : Database) (mid : string) : bool :=
  existsb (fun r => String.eqb (Row.id r) mid) (structured_memories d).

Definition has_tag (d : Database) (tid : Z) : bool :=
  existsb (fun t => tag_id t =? tid) (tags_table d).

Definition with_memories (d : Database) (ms : list Row.t) : Database :=
  {| structured_memories := ms; tags_table := tags_table d;
     tags_seq := tags_seq d; memory_tags := memory_tags d;
     memory_access_log := memory_access_log d;
     access_log_seq := access_log_seq d;
     memory_relations := memory_relations d;
     foreign_keys := foreign_keys d |}.

Definition with_tags (d : Database) (ts : list TagRow) (seq : Z) : Database :=
  {| structured_memories := structured_memories d; tags_table := ts;
     tags_seq := seq; memory_tags := memory_tags d;
     memory_access_log := memory_access_log d;
     access_log_seq := access_log_seq d;
     memory_relations := memory_relations d;
     foreign_keys := foreign_keys d |}.

Definition with_memory_tags (d : Database) (ls : list (string * Z)) : Database :=
  {| structured_memories := structured_memories d; tags_table := tags_table d;
     tags_seq := tags_seq d; memory_tags := ls;
     memory_access_log := memory_access_log d;
     access_log_seq := access_log_seq d;
     memory_relations := memory_relations d;
     foreign_keys := foreign_keys d |}.

Definition with_access_log (d : Database) (l : list AccessLogRow) (seq : Z)
  : Database :=
  {| structured_memories := structured_memories d; tags_table := tags_table d;
     tags_seq := tags_seq d; memory_tags := memory_tags d;
     memory_access_log := l; access_log_seq := seq;
     memory_relations := memory_relations d;
     foreign_keys := foreign_keys d |}.

(** [SELECT * FROM structured_memories WHERE id = ?] *)
Definition select_memory (d : Database) (mid : string) : option Row.t :=
  find (fun r => String.eqb (Row.id r) mid) (structured_memories d).

(** [INSERT INTO structured_memories ...]; [id] is the primary key. *)
Definition insert_memory (r : Row.t) : M unit :=
  d <- get_db ;;
  if has_memory d (Row.id r)
  then throw "UNIQUE constraint failed: structured_memories.id"
  else put_db (with_memories d (structured_memories d ++ [r])).

(** [UPDATE structured_memories SET ... WHERE id = ?] *)
Definition update_memory (mid : string) (f : Row.t -> Row.t) : M unit :=
  d <- get_db ;;
  put_db (with_memories d
            (map (fun r => if String.eqb (Row.id r) mid then f r else r)
                 (structured_memories d))).

Definition neqb_str (a b : string) : bool := negb (String.eqb a b).

(** What [ON DELETE CASCADE] removes with memory [mid]: its tag links, its
    access log rows, and the relation edges at either end. *)
Definition cascade_delete (d : Database) (mid : string) : Database :=
  {| structured_memories := structured_memories d;
     tags_table := tags_table d; tags_seq := tags_seq d;
     memory_tags := filter (fun l => neqb_str (fst l) mid) (memory_tags d);
     memory_access_log :=
       filter (fun e => neqb_str (memory_id e) mid) (memory_access_log d);
     access_log_seq := access_log_seq d;
     memory_relations :=
       filter (fun e => (neqb_str (source_id e) mid
                         && neqb_str (target_id e) mid)%bool)
              (memory_relations d);
     foreign_keys := foreign_keys d |}.

(** [DELETE FROM structured_memories WHERE id = ?], returning [changes]. *)
Definition delete_memory (mid : string) : M Z :=
  d <- get_db ;;
  let hit := filter (fun r => String.eqb (Row.id r) mid) (structured_memories d) in
  let d1 := with_memories d
              (filter (fun r => neqb_str (Row.id r) mid) (structured_memories d)) in
  let d2 := match hit with
            | [] => d1
            | _ :: _ => if foreign_keys d then cascade_delete d1 mid else d1
            end in
  put_db d2 ;;;
  ret (Z.of_nat (List.length hit)).

(** [SELECT id FROM tags WHERE name = ?] *)
Definition select_tag_by_name (d : Database) (n : string) : option TagRow :=
  find (fun t => String.eqb (name t) n) (tags_table d).

(** [INSERT INTO tags (name, created_at, memory_count) VALUES (?, ?, 0)],
    returning [lastInsertRowid]. *)
Definition insert_tag (n : string) (now : Z) : M Z :=
  d <- get_db ;;
  match select_tag_by_name d n with
  | Some _ => throw "UNIQUE constraint failed: tags.name"
  | None =>
      let tid := tags_seq d + 1 in
      put_db (with_tags d
                (tags_table d ++
                 [{| tag_id := tid; name := n; color := None;
                     description := None; tag_created_at := now;
                     memory_count := 0 |}])
                tid) ;;;
      ret tid
  end.

Definition has_link (d : Database) (mid : string) (tid : Z) : bool :=
  existsb (fun l => (String.eqb (fst l) mid && (snd l =? tid))%bool) (memory_tags d).

(** [INSERT OR IGNORE INTO memory_tags (memory_id, tag_id) VALUES (?, ?)]:
    a duplicate of the primary key is skipped; a dangling reference is an
    error when foreign keys are enforced. *)
Definition insert_or_ignore_memory_tag (mid : string) (tid : Z) : M unit :=
  d <- get_db ;;
  if has_link d mid tid then ret tt
  else if (foreign_keys d && negb (has_memory d mid && has_tag d tid))%bool
  then throw "FOREIGN KEY constraint failed"
  else put_db (with_memory_tags d (memory_tags d ++ [(mid, tid)])).

(** [DELETE FROM memory_tags WHERE memory_id = ?] *)
Definition delete_memory_tags (mid : string) : M unit :=
  d <- get_db ;;
  put_db (with_memory_tags d
            (filter (fun l => neqb_str (fst l) mid) (memory_tags d))).

(** [SELECT COUNT( * ) FROM memory_tags WHERE tag_id = ?] *)
Definition count_links (d : Database) (tid : Z) : Z :=
  Z.of_nat (List.length (filter (fun l => snd l =? tid) (memory_tags d))).

(** [UPDATE tags SET memory_count = (SELECT COUNT ...) WHERE id = ?] *)
Definition update_tag_count (tid : Z) : M unit :=
  d <- get_db ;;
  put_db (with_tags d
            (map (fun t =>
                    if tag_id t =? tid
                    then {| tag_id := tag_id t; name := name t;
                            color := color t; description := description t;
                            tag_created_at := tag_created_at t;
                            memory_count := count_links d tid |}
                    else t)
                 (tags_table d))
            (tags_seq d)).

(** [INSERT INTO memory_access_log (memory_id, accessed_at, query, action)] *)
Definition insert_access_log (mid : string) (now : Z) (q : option string)
           (a : Action) : M unit :=
  d <- get_db ;;
  if (foreign_keys d && negb (has_memory d mid))%bool
  then throw "FOREIGN KEY constraint failed"
  else
    let lid := access_log_seq d + 1 in
    put_db (with_access_log d
              (memory_access_log d ++
               [{| log_id := lid; memory_id := mid; accessed_at := now;
                   query := q; action := a |}])
              lid).

(** *** Configuration *)

Record SyncConfig := {
  markdown : bool;
  bidirectional : bool;
  debounceMs : Z;
  watchFiles : bool
}.

Record CompressionConfig := {
  compression_enabled : bool;
  dailyToWeekly : string;
  weeklyToMonthly : string;
  archiveAfter : string;
  minMemoriesForSummary : Z
}.

Record ImportanceConfig := {
  importance_enabled : bool;
  decayFactor : R;
  accessBoost : R;
  recencyBoost : R;
  manualBoost : R
}.

Record QueryConfig := {
  importanceWeight : R;
  recencyWeight : R;
  defaultLimit : Z
}.

Record StructuredMemoryConfig := {
  enabled : bool;
  sync : SyncConfig;
  compression : CompressionConfig;
  importance : ImportanceConfig;
  query_config : QueryConfig
}.

Definition DEFAULT_STRUCTURED_MEMORY_CONFIG : StructuredMemoryConfig :=
  {| enabled := false;
     sync := {| markdown := true; bidirectional := true; debounceMs := 1500;
                watchFiles := true |};
     compression := {| compression_enabled := true; dailyToWeekly := "7d";
                       weeklyToMonthly := "30d"; archiveAfter := "90d";
                       minMemoriesForSummary := 5 |};
     importance := {| importance_enabled := true; decayFactor := 0.95%R;
                      accessBoost := 0.05%R; recencyBoost := 0.1%R;
                      manualBoost := 1.5%R |};
     query_config := {| importanceWeight := 0.3%R; recencyWeight := 0.2%R;
                        defaultLimit := 10 |} |}.

(** *** [parseDuration]: the grammar [^(\d+)([dhm])$] *)

Definition is_digit (c : ascii) : bool :=
  let n := nat_of_ascii c in (Nat.leb 48 n && Nat.leb n 57)%bool.

(** [parseInt(s, 10)] on a string of digits, [None] on anything else. *)
Fixpoint parse_digits (acc : Z) (s : string) : option Z :=
  match s with
  | EmptyString => Some acc
  | String c s' =>
      if is_digit c
      then parse_digits (10 * acc + (Z.of_nat (nat_of_ascii c) - 48)) s'
      else None
  end.

Definition multiplier (u : ascii) : option Z :=
  if Ascii.eqb u "d" then Some (24 * 60 * 60 * 1000)
  else if Ascii.eqb u "h" then Some (60 * 60 * 1000)
  else if Ascii.eqb u "m" then Some (60 * 1000)
  else None.

Definition parseDuration (duration : string) : outcome Z :=
  let n := String.length duration in
  let digits := String.substring 0 (n - 1) duration in
  match digits, String.get (n - 1) duration with
  | String _ _, Some u =>
      match parse_digits 0 digits, multiplier u with
      | Some value, Some mult => Ok (value * mult)
      | _, _ =>
          Throw ("Invalid duration format: " ++ duration
                 ++ ". Expected format: 7d, 24h, 60m")
      end
  | _, _ =>
      Throw ("Invalid duration format: " ++ duration
             ++ ". Expected format: 7d, 24h, 60m")
  end.

(** [parseDuration] inside the monad: a malformed string throws. *)
Definition parseDurationM (duration : string) : M Z :=
  match parseDuration duration with
  | Ok v => ret v
  | Throw e => throw e
  end.

(** *** Reading rows *)

(** Stable insertion sort; [before x y] says that [x] may stand before [y]. *)
Fixpoint insert_by {A} (before : A -> A -> bool) (x : A) (l : list A) : list A :=
  match l with
  | [] => [x]
  | y :: l' => if before x y then x :: l else y :: insert_by before x l'
  end.

Definition sort_by {A} (before : A -> A -> bool) (l : list A) : list A :=
  fold_right (insert_by before) [] l.

(** [getTagsForMemory]: the names joined to the links of [memoryId].  The
    links of one memory are read from the primary-key index of
    [memory_tags], which yields them by ascending tag id. *)
Definition getTagsForMemory (d : Database) (memoryId : string) : list string :=
  flat_map (fun l =>
              map name (filter (fun t => tag_id t =? snd l) (tags_table d)))
           (sort_by (fun x y => snd x <=? snd y)
              (filter (fun l => String.eqb (fst l) memoryId) (memory_tags d))).

Definition rowToMemory (d : Database) (row : Row.t) : StructuredMemory :=
  {| id := Row.id row;
     content := Row.content row;
     summary := Row.summary row;
     sourcePath := Row.source_path row;
     memoryType := Row.memory_type row;
     importanceLevel := Row.importance_level row;
     importanceScore := Row.importance_score row;
     tags := getTagsForMemory d (Row.id row);
     createdAt := Row.created_at row;
     updatedAt := Row.updated_at row;
     accessedAt := Row.accessed_at row;
     accessCount := Row.access_count row;
     compressedFrom := Row.compressed_from row;
     compressionLevel := Some (Row.compression_level row);
     relatedMemories := Row.related_memories row;
     sourceSessionId := Row.source_session_id row;
     sourceChannel := Row.source_channel row |}.

Definition getMemory (mid : string) : M (option StructuredMemory) :=
  d <- get_db ;;
  match select_memory d mid with
  | None => ret None
  | Some row => ret (Some (rowToMemory d row))
  end.

(** *** Tags *)

(** The body of the loop of [setTagsForMemory]. *)
Definition link_tag (memoryId tagName : string) : M unit :=
  (* Get or create tag *)
  d <- get_db ;;
  tid <- match select_tag_by_name d tagName with
         | Some tagRow => ret (tag_id tagRow)
         | None => now <- Date_now ;; insert_tag tagName now
         end ;;
  (* Link tag to memory *)
  insert_or_ignore_memory_tag memoryId tid ;;;
  (* Update tag count *)
  update_tag_count tid.

Definition setTagsForMemory (memoryId : string) (tagNames : list string)
  : M unit :=
  (* Remove existing tags *)
  delete_memory_tags memoryId ;;;
  for_each tagNames (link_tag memoryId).

(** *** [createMemory] *)

Definition default {A} (o : option A) (a : A) : A :=
  match o with Some x => x | None => a end.

Definition createMemory (memory : New.t) : M StructuredMemory :=
  new_id <- randomUUID ;;
  now <- Date_now ;;
  let fullMemory :=
    {| id := new_id;
       content := New.content memory;
       summary := New.summary memory;
       sourcePath := New.sourcePath memory;
       memoryType := New.memoryType memory;
       importanceLevel := New.importanceLevel memory;
       importanceScore := New.importanceScore memory;
       tags := New.tags memory;
       createdAt := now;
       updatedAt := now;
       accessedAt := New.accessedAt memory;
       accessCount := 0;
       compressedFrom := New.compressedFrom memory;
       compressionLevel := New.compressionLevel memory;
       relatedMemories := New.relatedMemories memory;
       sourceSessionId := New.sourceSessionId memory;
       sourceChannel := New.sourceChannel memory |} in
  insert_memory
    {| Row.id := id fullMemory;
       Row.content := content fullMemory;
       Row.summary := summary fullMemory;
       Row.source_path := sourcePath fullMemory;
       Row.memory_type := memoryType fullMemory;
       Row.importance_level := importanceLevel fullMemory;
       Row.importance_score := importanceScore fullMemory;
       Row.created_at := createdAt fullMemory;
       Row.updated_at := updatedAt fullMemory;
       Row.accessed_at := None;
       Row.access_count := accessCount fullMemory;
       Row.compressed_from := compressedFrom fullMemory;
       Row.compression_level := default (compressionLevel fullMemory) 0;
       Row.related_memories := relatedMemories fullMemory;
       Row.source_session_id := sourceSessionId fullMemory;
       Row.source_channel := sourceChannel fullMemory |} ;;;
  (* Add tags if provided *)
  (match New.tags memory with
   | [] => ret tt
   | _ :: _ => setTagsForMemory new_id (New.tags memory)
   end) ;;;
  ret fullMemory.

(** *** [updateMemory] *)

(** One element of the [sets] array with its bound value. *)
Inductive assignment :=
| SetContent (v : string)
| SetSummary (v : string)
| SetMemoryType (v : MemoryType)
| SetImportanceLevel (v : ImportanceLevel)
| SetImportanceScore (v : R)
| SetUpdatedAt (v : Z).

Definition row_with (r : Row.t) (c : string) (s : option string)
           (mt : MemoryType) (il : ImportanceLevel) (sc : R) (ua : Z) : Row.t :=
  {| Row.id := Row.id r; Row.content := c; Row.summary := s;
     Row.source_path := Row.source_path r; Row.memory_type := mt;
     Row.importance_level := il; Row.importance_score := sc;
     Row.created_at := Row.created_at r; Row.updated_at := ua;
     Row.accessed_at := Row.accessed_at r;
     Row.access_count := Row.access_count r;
     Row.compressed_from := Row.compressed_from r;
     Row.compression_level := Row.compression_level r;
     Row.related_memories := Row.related_memories r;
     Row.source_session_id := Row.source_session_id r;
     Row.source_channel := Row.source_channel r |}.

Definition assign (r : Row.t) (a : assignment) : Row.t :=
  let c := Row.content r in
  let s := Row.summary r in
  let mt := Row.memory_type r in
  let il := Row.importance_level r in
  let sc := Row.importance_score r in
  let ua := Row.updated_at r in
  match a with
  | SetContent v => row_with r v s mt il sc ua
  | SetSummary v => row_with r c (Some v) mt il sc ua
  | SetMemoryType v => row_with r c s v il sc ua
  | SetImportanceLevel v => row_with r c s mt v sc ua
  | SetImportanceScore v => row_with r c s mt il v ua
  | SetUpdatedAt v => row_with r c s mt il sc v
  end.

Definition push_if {A B} (o : option A) (f : A -> B) : list B :=
  match o with Some v => [f v] | None => [] end.

Definition updateMemory (mid : string) (updates : Upd.t)
  : M (option StructuredMemory) :=
  existing <- getMemory mid ;;
  match existing with
  | None => ret None
  | Some _ =>
      let sets :=
        (push_if (Upd.content updates) SetContent
         ++ push_if (Upd.summary updates) SetSummary
         ++ push_if (Upd.memoryType updates) SetMemoryType
         ++ push_if (Upd.importanceLevel updates) SetImportanceLevel
         ++ push_if (Upd.importanceScore updates) SetImportanceScore)%list in
      (match Upd.tags updates with
       | Some ts => setTagsForMemory mid ts
       | None => ret tt
       end) ;;;
      now <- Date_now ;;
      let sets := (sets ++ [SetUpdatedAt now])%list in
      (if (1 <? List.length sets)%nat
       then update_memory mid (fun r => fold_left assign sets r)
       else ret tt) ;;;
      getMemory mid
  end.

(** *** [deleteMemory] *)

Definition deleteMemory (mid : string) : M bool :=
  changes <- delete_memory mid ;;
  ret (0 <? changes).

(** *** [searchMemories] *)

Inductive OrderBy := ByImportance | ByRecency | ByRelevance.

Record SearchParams := {
  sp_query : option string;
  sp_tags : option (list string);
  sp_memoryType : option MemoryType;
  sp_importanceLevel : option ImportanceLevel;
  sp_limit : option Z;
  sp_offset : option Z;
  sp_orderBy : option OrderBy
}.

(** SQLite's [LIKE]: [%] is any run, [_] any one character, letters compare
    without case. *)
Fixpoint like (pattern s : string) : bool :=
  match pattern with
  | EmptyString => match s with EmptyString => true | _ => false end
  | String p pattern' =>
      if Ascii.eqb p "%" then
        (fix any (s : string) : bool :=
           (like pattern' s
            || match s with
               | EmptyString => false
               | String _ s' => any s'
               end)%bool) s
      else match s with
           | EmptyString => false
           | String c s' =>
               ((Ascii.eqb p "_" || Ascii.eqb (JS.lower p) (JS.lower c))
                && like pattern' s')%bool
           end
  end.

Definition Rltb (a b : R) : bool := if Rlt_dec a b then true else false.

Definition order_before (o : OrderBy) (x y : Row.t) : bool :=
  match o with
  | ByImportance => negb (Rltb (Row.importance_score x) (Row.importance_score y))
  | ByRecency => Row.created_at y <=? Row.created_at x
  | ByRelevance =>
      if Rltb (Row.importance_score y) (Row.importance_score x) then true
      else if Rltb (Row.importance_score x) (Row.importance_score y) then false
      else Row.created_at y <=? Row.created_at x
  end.

(** [LIMIT ? OFFSET ?]: a negative limit is no limit, a negative offset none. *)
Definition limit_offset {A} (limit offset : Z) (l : list A) : list A :=
  let l' := skipn (Z.to_nat offset) l in
  if limit <? 0 then l' else firstn (Z.to_nat limit) l'.

Definition truthy (s : option string) : option string :=
  match s with
  | Some EmptyString => None
  | o => o
  end.

Definition searchMemories (params : SearchParams) : M (list StructuredMemory) :=
  d <- get_db ;;
  let limit := default (sp_limit params) 10 in
  let offset := default (sp_offset params) 0 in
  let orderBy := default (sp_orderBy params) ByRelevance in
  let tag_ok (r : Row.t) :=
    match sp_tags params with
    | Some (t :: ts) =>
        existsb (fun n => JS.set_has n (t :: ts)) (getTagsForMemory d (Row.id r))
    | _ => true
    end in
  let type_ok (r : Row.t) :=
    match sp_memoryType params with
    | Some mt => MemoryType_eqb (Row.memory_type r) mt
    | None => true
    end in
  let level_ok (r : Row.t) :=
    match sp_importanceLevel params with
    | Some il => ImportanceLevel_eqb (Row.importance_level r) il
    | None => true
    end in
  let query_ok (r : Row.t) :=
    match truthy (sp_query params) with
    | Some q =>
        let pat := "%" ++ q ++ "%" in
        (like pat (Row.content r)
         || match Row.summary r with
            | Some s => like pat s
            | None => false
            end)%bool
    | None => true
    end in
  let rows :=
    filter (fun r => (tag_ok r && type_ok r && level_ok r && query_ok r)%bool)
           (structured_memories d) in
  ret (map (rowToMemory d)
           (limit_offset limit offset (sort_by (order_before orderBy) rows))).

(** *** [recordAccess] *)

Definition bump_access (now : Z) (r : Row.t) : Row.t :=
  {| Row.id := Row.id r; Row.content := Row.content r;
     Row.summary := Row.summary r; Row.source_path := Row.source_path r;
     Row.memory_type := Row.memory_type r;
     Row.importance_level := Row.importance_level r;
     Row.importance_score := Row.importance_score r;
     Row.created_at := Row.created_at r; Row.updated_at := Row.updated_at r;
     Row.accessed_at := Some now;
     Row.access_count := Row.access_count r + 1;
     Row.compressed_from := Row.compressed_from r;
     Row.compression_level := Row.compression_level r;
     Row.related_memories := Row.related_memories r;
     Row.source_session_id := Row.source_session_id r;
     Row.source_channel := Row.source_channel r |}.

Definition recordAccess (memoryId : string) (a : Action) (q : option string)
  : M unit :=
  now <- Date_now ;;
  (* Add to access log *)
  insert_access_log memoryId now q a ;;;
  (* Update memory access stats *)
  update_memory memoryId (bump_access now).

(** *** [recalculateImportance] *)

Definition dayInMs : Z := 24 * 60 * 60 * 1000.

(** The body of the loop: the score written back for one selected row. *)
Definition newScore (cfg : ImportanceConfig) (now : Z) (mem : Row.t) : R :=
  let ageInDays := (IZR (now - Row.created_at mem) / IZR dayInMs)%R in
  let decayedScore :=
    (Row.importance_score mem * JS.Math_pow (decayFactor cfg) ageInDays)%R in
  let accessBoost := (IZR (Row.access_count mem) * accessBoost cfg)%R in
  let recencyBoost := (Rmax 0 (1 - ageInDays / 30) * recencyBoost cfg)%R in
  Rmin 1 (Rmax 0 (decayedScore + accessBoost + recencyBoost)).

Definition recalculateImportance (cfg : StructuredMemoryConfig) : M unit :=
  if negb (importance_enabled (importance cfg)) then ret tt
  else
    d <- get_db ;;
    let memories := structured_memories d in
    now <- Date_now ;;
    for_each memories (fun mem =>
      update_memory (Row.id mem)
        (fun r => assign r (SetImportanceScore (newScore (importance cfg) now mem)))).

(** *** [getMemoriesForCompression] *)

Definition getMemoriesForCompression (olderThan compressionLevel : Z)
           (limit : option Z) : M (list StructuredMemory) :=
  d <- get_db ;;
  let rows :=
    filter (fun r =>
              ((Row.created_at r <? olderThan)
               && (Row.compression_level r <=? compressionLevel)
               && negb (MemoryType_eqb (Row.memory_type r) Summary))%bool)
           (structured_memories d) in
  (* answered from the index on [created_at DESC], walked backwards: rows of
     one [created_at] come out last inserted first *)
  let ordered :=
    sort_by (fun x y => Row.created_at x <=? Row.created_at y) (rev rows) in
  ret (map (rowToMemory d) (limit_offset (default limit 100) 0 ordered)).

(** *** [getAllTags] *)

(** [interface Tag] *)
Module Tag.
Record t := {
    id : Z;
    name : string;
    color : option string;
    description : option string;
    createdAt : Z;
    memoryCount : Z
  }.
End Tag.

Definition rowToTag (row : TagRow) : Tag.t :=
  {| Tag.id := tag_id row;
     Tag.name := name row;
     Tag.color := color row;
     Tag.description := description row;
     Tag.createdAt := tag_created_at row;
     Tag.memoryCount := memory_count row |}.

(** [SELECT * FROM tags ORDER BY memory_count DESC] *)
Definition getAllTags : M (list Tag.t) :=
  d <- get_db ;;
  let rows :=
    sort_by (fun x y => memory_count y <=? memory_count x) (tags_table d) in
  ret (map rowToTag rows).

End Store.

(* ================================================================== *)
(** ** The compaction engine ([compression-engine.ts]) *)

Module Engine.
Import Store.
Local Open Scope store_scope.

Record CompressionResult := {
  created : Z;
  archived : Z;
  errors : Z
}.

(** [getWeekNumber]: the ISO week of the local calendar day of [date]. *)
Definition getWeekNumber (tz : Z -> Z) (date : Z) : Z :=
  let d := JS.Date_UTC (JS.getFullYear tz date) (JS.getMonth tz date)
                       (JS.getDate tz date) in
  let dayNum := if JS.getUTCDay d =? 0 then 7 else JS.getUTCDay d in
  let d := d + (4 - dayNum) * JS.msPerDay in
  let yearStart := JS.Date_UTC (JS.getUTCFullYear d) 0 1 in
  (* Math.ceil(((d - yearStart) / 86400000 + 1) / 7), on whole days *)
  ((d - yearStart) / 86400000 + 1 + 6) / 7.

(** A [Map] from keys to arrays, in insertion order of the keys. *)
Fixpoint group_push (groups : list (string * list StructuredMemory))
         (key : string) (m : StructuredMemory)
  : list (string * list StructuredMemory) :=
  match groups with
  | [] => [(key, [m])]
  | (k, ms) :: rest =>
      if String.eqb k key then (k, (ms ++ [m])%list) :: rest
      else (k, ms) :: group_push rest key m
  end.

Definition weekKey (tz : Z -> Z) (memory : StructuredMemory) : string :=
  let date := createdAt memory in
  let year := JS.getFullYear tz date in
  let week := getWeekNumber tz date in
  JS.of_int year ++ "-W" ++ JS.padStart2 (JS.of_int week).

Definition monthKey (tz : Z -> Z) (memory : StructuredMemory) : string :=
  let date := createdAt memory in
  let year := JS.getFullYear tz date in
  let month := JS.padStart2 (JS.of_int (JS.getMonth tz date + 1)) in
  JS.of_int year ++ "-" ++ month.

Definition groupByWeek (tz : Z -> Z) (memories : list StructuredMemory)
  : list (string * list StructuredMemory) :=
  fold_left (fun groups memory => group_push groups (weekKey tz memory) memory)
            memories [].

Definition groupByMonth (tz : Z -> Z) (memories : list StructuredMemory)
  : list (string * list StructuredMemory) :=
  fold_left (fun groups memory => group_push groups (monthKey tz memory) memory)
            memories [].

(** [calculateAverageImportance] *)
Definition calculateAverageImportance (memories : list StructuredMemory)
  : ImportanceLevel :=
  let avgScore :=
    (fold_left (fun sum m => sum + importanceScore m) memories 0
     / INR (List.length memories))%R in
  if Rltb 0.8 avgScore then Critical
  else if Rltb 0.6 avgScore then High
  else if Rltb 0.4 avgScore then Medium
  else Low.

(** [Math.max(...xs)] of a non-empty array. *)
Definition Math_max (xs : list R) : R :=
  match xs with
  | [] => 0%R
  | x :: rest => fold_left Rmax rest x
  end.

(** [generateSummary]: the heuristic placeholder.  It always returns text. *)
Definition strip_header (h : string) : string :=
  (* header.replace(/^#+\s*/, "") *)
  match h with
  | String "#" _ =>
      (fix hashes (s : string) : string :=
         match s with
         | String "#" s' => hashes s'
         | _ => JS.trimStart s
         end) h
  | _ => h
  end.

Definition generateSummary (memories : list StructuredMemory) (weekly : bool)
  : option string :=
  let contents :=
    JS.join (JS.nl ++ JS.nl ++ "---" ++ JS.nl ++ JS.nl) (map content memories) in
  let lines := JS.split_char JS.LF contents in
  let headers :=
    filter (fun l => (JS.startsWith l "##" || JS.startsWith l "###")%bool) lines in
  let summary :=
    "# " ++ (if weekly then "Weekly" else "Monthly") ++ " Summary"
    ++ JS.nl ++ JS.nl in
  let summary :=
    summary ++ "Generated from "
    ++ JS.of_int (Z.of_nat (List.length memories)) ++ " memories."
    ++ JS.nl ++ JS.nl in
  let summary :=
    match headers with
    | [] => summary
    | _ :: _ =>
        fold_left (fun acc header => acc ++ "- " ++ strip_header header ++ JS.nl)
                  (JS.take 10 headers)
                  (summary ++ "## Key Topics" ++ JS.nl ++ JS.nl)
    end in
  let importantLines :=
    filter (fun l =>
              let low := JS.toLowerCase l in
              (JS.includes low "important" || JS.includes low "decision"
               || JS.includes low "conclusion"
               || JS.includes low "action item")%bool)
           lines in
  let summary :=
    match importantLines with
    | [] => summary
    | _ :: _ =>
        fold_left (fun acc line => acc ++ "- " ++ JS.trim line ++ JS.nl)
                  (JS.take 5 importantLines)
                  (summary ++ JS.nl ++ "## Important Items" ++ JS.nl ++ JS.nl)
    end in
  Some summary.

(** [if (summary)]: neither [null] nor the empty string. *)
Definition if_text (s : option string) : option string :=
  match s with
  | Some EmptyString => None
  | o => o
  end.

Definition Upd_compressionLevel (l : Z) : Upd.t :=
  {| Upd.content := None; Upd.summary := None; Upd.sourcePath := None;
     Upd.memoryType := None; Upd.importanceLevel := None;
     Upd.importanceScore := None; Upd.tags := None; Upd.updatedAt := None;
     Upd.accessedAt := None; Upd.accessCount := None;
     Upd.compressedFrom := None; Upd.compressionLevel := Some l;
     Upd.relatedMemories := None; Upd.sourceSessionId := None;
     Upd.sourceChannel := None |}.

Definition Upd_memoryType (t : MemoryType) : Upd.t :=
  {| Upd.content := None; Upd.summary := None; Upd.sourcePath := None;
     Upd.memoryType := Some t; Upd.importanceLevel := None;
     Upd.importanceScore := None; Upd.tags := None; Upd.updatedAt := None;
     Upd.accessedAt := None; Upd.accessCount := None;
     Upd.compressedFrom := None; Upd.compressionLevel := None;
     Upd.relatedMemories := None; Upd.sourceSessionId := None;
     Upd.sourceChannel := None |}.

(** The record a compaction stage creates for one group. *)
Definition summary_record (text path : string) (level : ImportanceLevel)
           (tag : string) (group : list StructuredMemory) (clevel : Z) : New.t :=
  {| New.content := text;
     New.summary := None;
     New.sourcePath := path;
     New.memoryType := Summary;
     New.importanceLevel := level;
     New.importanceScore := Math_max (map importanceScore group);
     New.tags := [tag; "auto-generated"];
     New.accessedAt := None;
     New.compressedFrom := Some (map id group);
     New.compressionLevel := Some clevel;
     New.relatedMemories := None;
     New.sourceSessionId := None;
     New.sourceChannel := None |}.

(** The two counters of a stage, kept in the loop. *)
Definition Counts : Type := (Z * Z)%type.

(** A loop that threads the counters through the groups. *)
Fixpoint for_groups {A} (xs : list A) (body : A -> Counts -> M Counts)
         (c : Counts) : M Counts :=
  match xs with
  | [] => ret c
  | x :: xs' => c' <- body x c ;; for_groups xs' body c'
  end.

(** [compressToWeekly].  The counters are local variables of the method:
    an exception thrown after [created++] keeps the increment, so the [try]
    block is split at that point. *)
Definition weekly_group (g : string * list StructuredMemory) (c : Counts)
  : M Counts :=
  let '(weekKey, weekMemories) := g in
  let '(created, errors) := c in
  match if_text (generateSummary weekMemories true) with
  | Some text =>
      try_catch
        (_ <- createMemory
                (summary_record text
                   ("memory/summaries/week-" ++ weekKey ++ ".md")
                   (calculateAverageImportance weekMemories)
                   "weekly-summary" weekMemories 1) ;;
         try_catch
           ((* Mark originals as compressed *)
            for_each weekMemories (fun mem =>
              _ <- updateMemory (id mem) (Upd_compressionLevel 1) ;; ret tt) ;;;
            ret (created + 1, errors))
           (fun _ => ret (created + 1, errors + 1)))
        (fun _ => ret (created, errors + 1))
  | None => ret (created, errors)
  end.

Definition compressToWeekly (config : CompressionConfig) : M Counts :=
  minAge <- parseDurationM (dailyToWeekly config) ;;
  now <- Date_now ;;
  let cutoff := now - minAge in
  memories <- getMemoriesForCompression cutoff 0 (Some 1000) ;;
  tz <- get_tz ;;
  let weeklyGroups := groupByWeek tz memories in
  for_groups weeklyGroups
    (fun g c =>
       if Z.of_nat (List.length (snd g)) <? minMemoriesForSummary config
       then ret c
       else weekly_group g c)
    (0, 0).

(** [compressToMonthly] *)
Definition monthly_group (g : string * list StructuredMemory) (c : Counts)
  : M Counts :=
  let '(monthKey, monthMemories) := g in
  let '(created, errors) := c in
  match if_text (generateSummary monthMemories false) with
  | Some text =>
      try_catch
        (_ <- createMemory
                (summary_record text
                   ("memory/summaries/month-" ++ monthKey ++ ".md")
                   High "monthly-summary" monthMemories 2) ;;
         try_catch
           ((* Mark originals as compressed *)
            for_each monthMemories (fun mem =>
              _ <- updateMemory (id mem) (Upd_compressionLevel 2) ;; ret tt) ;;;
            ret (created + 1, errors))
           (fun _ => ret (created + 1, errors + 1)))
        (fun _ => ret (created, errors + 1))
  | None => ret (created, errors)
  end.

Definition compressToMonthly (config : CompressionConfig) : M Counts :=
  minAge <- parseDurationM (weeklyToMonthly config) ;;
  now <- Date_now ;;
  let cutoff := now - minAge in
  memories <- getMemoriesForCompression cutoff 1 (Some 1000) ;;
  tz <- get_tz ;;
  let monthlyGroups := groupByMonth tz memories in
  for_groups monthlyGroups
    (fun g c =>
       if Z.of_nat (List.length (snd g)) <? 2
       then ret c
       else monthly_group g c)
    (0, 0).

(** [archiveOldMemories] *)
Definition recently_accessed (cutoff : Z) (memory : StructuredMemory) : bool :=
  (* memory.accessedAt && memory.accessedAt > cutoff *)
  match accessedAt memory with
  | Some a => (negb (a =? 0) && (cutoff <? a))%bool
  | None => false
  end.

Definition archive_one (cutoff : Z) (memory : StructuredMemory) (c : Counts)
  : M Counts :=
  let '(archived, errors) := c in
  if recently_accessed cutoff memory then ret (archived, errors)
  else
    try_catch
      (_ <- updateMemory (id memory) (Upd_memoryType Archive) ;;
       ret (archived + 1, errors))
      (fun _ => ret (archived, errors + 1)).

Definition archiveOldMemories (config : CompressionConfig) : M Counts :=
  minAge <- parseDurationM (archiveAfter config) ;;
  now <- Date_now ;;
  let cutoff := now - minAge in
  memories <- getMemoriesForCompression cutoff 2 (Some 1000) ;;
  for_groups memories (archive_one cutoff) (0, 0).

(** [compress]: the three stages in order; an exception that escapes a stage
    ends the run with the counts reached so far and one more error. *)
Definition compress (config : CompressionConfig) : M CompressionResult :=
  if negb (compression_enabled config)
  then ret {| created := 0; archived := 0; errors := 0 |}
  else
    try_catch
      (w <- compressToWeekly config ;;
       try_catch
         (m <- compressToMonthly config ;;
          try_catch
            (a <- archiveOldMemories config ;;
             ret {| created := fst w + fst m; archived := fst a;
                    errors := snd w + snd m + snd a |})
            (fun _ => ret {| created := fst w + fst m; archived := 0;
                             errors := snd w + snd m + 1 |}))
         (fun _ => ret {| created := fst w; archived := 0;
                          errors := snd w + 1 |}))
      (fun _ => ret {| created := 0; archived := 0; errors := 1 |}).

End Engine.

(* ================================================================== *)
(** ** The Markdown reconciler ([markdown-sync.ts]) *)

Module Sync.
Import Store.
Local Open Scope store_scope.

Record SyncResult := {
  added : Z;
  updated : Z;
  removed : Z;
  unchanged : Z
}.

(** Modelled from the spec: the type [MemoryFileEntry] of [./internal.js],
    which is not among the sources.  A listed file has a path and a
    modification time; [text] is what [fs.readFile(entry.absPath)] returns
    for it. *)
Record MemoryFileEntry := {
  path : string;
  mtimeMs : R;
  text : string
}.

Record Section := {
  sec_content : string;
  sec_memoryType : MemoryType;
  sec_tags : list string
}.

(** [extractTagsFromHeader]: the matches of [/#(\w+)/g].  [cur] is the word
    being read after a [#], if any. *)
Fixpoint scan_tags (cur : option string) (s : string) : list string :=
  let emit (w : option string) : list string :=
    match w with
    | Some (String c w') => [String c w']
    | _ => []
    end in
  match s with
  | EmptyString => emit cur
  | String c s' =>
      match cur with
      | Some w =>
          if JS.is_word c then scan_tags (Some (w ++ String c EmptyString)) s'
          else (emit cur
                ++ scan_tags (if Ascii.eqb c "#" then Some EmptyString else None) s')%list
      | None =>
          scan_tags (if Ascii.eqb c "#" then Some EmptyString else None) s'
      end
  end.

Definition extractTagsFromHeader (header : string) : list string :=
  scan_tags None header.

(** [inferMemoryType] *)
Definition inferMemoryType (header sourcePath : string) : MemoryType :=
  let lower := JS.toLowerCase header in
  if (JS.includes lower "decision" || JS.includes lower "decided")%bool then Decision
  else if (JS.includes lower "todo" || JS.includes lower "task")%bool then Todo
  else if (JS.includes lower "preference" || JS.includes lower "like")%bool then Preference
  else if (JS.includes lower "summary" || JS.includes lower "overview")%bool then Summary
  else if JS.includes sourcePath "archive" then Archive
  else Note.

(** [parseMarkdownSections].  The state of the scan is the closure's
    variables: [sections], [currentSection], [currentTags], [currentType]. *)
Record ParseState := {
  sections : list Section;
  currentSection : list string;
  currentTags : list string;
  currentType : MemoryType
}.

Definition flushSection (st : ParseState) : ParseState :=
  let sectionContent := JS.trim (JS.join JS.nl (currentSection st)) in
  {| sections :=
       match currentSection st with
       | [] => sections st
       | _ :: _ =>
           if 50 <? JS.len sectionContent
           then (sections st ++
                 [{| sec_content := sectionContent;
                     sec_memoryType := currentType st;
                     sec_tags := currentTags st |}])%list
           else sections st
       end;
     currentSection := [];
     currentTags := currentTags st;
     currentType := currentType st |}.

Definition parse_line (sourcePath : string) (st : ParseState) (line : string)
  : ParseState :=
  let st :=
    if (JS.startsWith line "## " || JS.startsWith line "### ")%bool
    then let st := flushSection st in
         {| sections := sections st;
            currentSection := currentSection st;
            currentTags := extractTagsFromHeader line;
            currentType := inferMemoryType line sourcePath |}
    else st in
  {| sections := sections st;
     currentSection := (currentSection st ++ [line])%list;
     currentTags := currentTags st;
     currentType := currentType st |}.

Definition parseMarkdownSections (content sourcePath : string) : list Section :=
  let lines := JS.split_char JS.LF content in
  let st :=
    flushSection
      (fold_left (parse_line sourcePath) lines
         {| sections := []; currentSection := []; currentTags := [];
            currentType := Note |}) in
  match sections st with
  | [] =>
      if 50 <? JS.len (JS.trim content)
      then [{| sec_content := JS.trim content;
               sec_memoryType := inferMemoryType "" sourcePath;
               sec_tags := [] |}]
      else []
  | ss => ss
  end.

(** [calculateSimilarity] *)
Definition calculateSimilarity (a b : string) : R :=
  let aWords := JS.new_Set (JS.split_ws (JS.toLowerCase a)) in
  let bWords := JS.new_Set (JS.split_ws (JS.toLowerCase b)) in
  let intersection := JS.new_Set (filter (fun x => JS.set_has x bWords) aWords) in
  (INR (List.length intersection)
   / INR (Nat.max (List.length aWords) (List.length bWords)))%R.

(** [findSectionByContent] *)
Definition findSectionByContent (existing : StructuredMemory) (content : string)
  : option StructuredMemory :=
  let similarity := calculateSimilarity (Store.content existing) content in
  if Rltb 0.7 similarity then Some existing else None.

(** [getMemoryBySourcePath]: the first row of the path. *)
Definition getMemoryBySourcePath (sourcePath : string)
  : M (option StructuredMemory) :=
  d <- get_db ;;
  match find (fun r => String.eqb (Row.source_path r) sourcePath)
             (structured_memories d) with
  | None => ret None
  | Some row => getMemory (Row.id row)
  end.

Definition new_section (sourcePath : string) (section : Section) : New.t :=
  {| New.content := sec_content section;
     New.summary := None;
     New.sourcePath := sourcePath;
     New.memoryType := sec_memoryType section;
     New.importanceLevel := Medium;
     New.importanceScore := 0.5%R;
     New.tags := sec_tags section;
     New.accessedAt := None;
     New.compressedFrom := None;
     New.compressionLevel := None;
     New.relatedMemories := None;
     New.sourceSessionId := None;
     New.sourceChannel := None |}.

Definition Upd_section (section : Section) : Upd.t :=
  {| Upd.content := Some (sec_content section); Upd.summary := None;
     Upd.sourcePath := None; Upd.memoryType := Some (sec_memoryType section);
     Upd.importanceLevel := None; Upd.importanceScore := None;
     Upd.tags := None; Upd.updatedAt := None; Upd.accessedAt := None;
     Upd.accessCount := None; Upd.compressedFrom := None;
     Upd.compressionLevel := None; Upd.relatedMemories := None;
     Upd.sourceSessionId := None; Upd.sourceChannel := None |}.

(** The body of the loop of [syncFile] over the sections of a file that the
    store already knows. *)
Definition sync_section (existing : StructuredMemory) (sourcePath : string)
           (section : Section) : M unit :=
  match findSectionByContent existing (sec_content section) with
  | Some existingSection =>
      (* Update *)
      _ <- updateMemory (id existingSection) (Upd_section section) ;; ret tt
  | None =>
      (* New section *)
      _ <- createMemory (new_section sourcePath section) ;; ret tt
  end.

Inductive FileStatus := Added | Updated | Unchanged.

Definition Rleb (a b : R) : bool := if Rle_dec a b then true else false.

(** [syncFile] *)
Definition syncFile (entry : MemoryFileEntry) : M FileStatus :=
  existing <- getMemoryBySourcePath (path entry) ;;
  match existing with
  | Some e =>
      if Rleb (mtimeMs entry) (IZR (updatedAt e)) then ret Unchanged
      else
        let sections := parseMarkdownSections (text entry) (path entry) in
        for_each sections (sync_section e (path entry)) ;;;
        ret Updated
  | None =>
      let sections := parseMarkdownSections (text entry) (path entry) in
      for_each sections (fun section =>
        _ <- createMemory (new_section (path entry) section) ;; ret tt) ;;;
      ret Added
  end.

(** [getExistingSourcePaths]: [SELECT DISTINCT source_path], as a [Set]. *)
Definition getExistingSourcePaths : M (list string) :=
  d <- get_db ;;
  ret (JS.new_Set (map Row.source_path (structured_memories d))).

(** [removeMemoriesForPath]: [DELETE FROM structured_memories WHERE
    source_path = ?], with the cascade of every deleted row when foreign
    keys are enforced. *)
Definition removeMemoriesForPath (sourcePath : string) : M unit :=
  d <- get_db ;;
  let gone :=
    filter (fun r => String.eqb (Row.source_path r) sourcePath)
           (structured_memories d) in
  let d1 :=
    with_memories d
      (filter (fun r => neqb_str (Row.source_path r) sourcePath)
              (structured_memories d)) in
  put_db (if foreign_keys d
          then fold_left cascade_delete (map Row.id gone) d1
          else d1).

(** [result[syncResult]++] *)
Definition count_status (result : SyncResult) (s : FileStatus) : SyncResult :=
  match s with
  | Added =>
      {| added := added result + 1; updated := updated result;
         removed := removed result; unchanged := unchanged result |}
  | Updated =>
      {| added := added result; updated := updated result + 1;
         removed := removed result; unchanged := unchanged result |}
  | Unchanged =>
      {| added := added result; updated := updated result;
         removed := removed result; unchanged := unchanged result + 1 |}
  end.

(** The loop of [syncFromMarkdown] over the listed files; it threads the set
    [currentPaths] and the counters. *)
Fixpoint sync_files (fileEntries : list MemoryFileEntry)
         (currentPaths : list string) (result : SyncResult)
  : M (list string * SyncResult) :=
  match fileEntries with
  | [] => ret (currentPaths, result)
  | entry :: rest =>
      let currentPaths := JS.set_add currentPaths (path entry) in
      syncResult <- syncFile entry ;;
      sync_files rest currentPaths (count_status result syncResult)
  end.

(** The loop over the paths the store knew before: those of files that are
    no longer listed lose their records. *)
Fixpoint remove_deleted (existingPaths currentPaths : list string)
         (result : SyncResult) : M SyncResult :=
  match existingPaths with
  | [] => ret result
  | existingPath :: rest =>
      if negb (JS.set_has existingPath currentPaths)
      then
        removeMemoriesForPath existingPath ;;;
        remove_deleted rest currentPaths
          {| added := added result; updated := updated result;
             removed := removed result + 1; unchanged := unchanged result |}
      else remove_deleted rest currentPaths result
  end.

(** [syncFromMarkdown].  [config_enabled] is [this.config.enabled];
    [fileEntries] is the array that [listMemoryFiles] and [buildFileEntry]
    (of [./internal.js]) produce for the workspace. *)
Definition syncFromMarkdown (config_enabled : bool)
           (fileEntries : list MemoryFileEntry) : M SyncResult :=
  let zero := {| added := 0; updated := 0; removed := 0; unchanged := 0 |} in
  if negb config_enabled then ret zero
  else
    (* Get existing structured memories *)
    existingPaths <- getExistingSourcePaths ;;
    (* Process each file *)
    processed <- sync_files fileEntries [] zero ;;
    (* Remove memories for deleted files *)
    remove_deleted existingPaths (fst processed) (snd processed).

End Sync.

(* ================================================================== *)
(** ** The backend facade ([structured-backend.ts]) *)

Module Backend.
Import Store.
Local Open Scope store_scope.

(** The fields of [MemorySearchResult] that [search] fills in (the type
    itself is declared in [./types.js]); [source] is always ["memory"]. *)
Record MemorySearchResult := {
  path : string;
  startLine : Z;
  endLine : Z;
  score : R;
  snippet : string
}.

Record SearchOpts := {
  maxResults : option Z;
  minScore : option R;
  sessionKey : option string
}.

(** [calculateRelevanceScore] *)
Definition calculateRelevanceScore (cfg : QueryConfig) (now : Z)
           (memory : StructuredMemory) (q : string) : R :=
  let importanceWeight := importanceWeight cfg in
  let recencyWeight := recencyWeight cfg in
  (* Base score from importance *)
  let score := (importanceScore memory * importanceWeight)%R in
  (* Recency boost *)
  let ageInDays := (IZR (now - createdAt memory) / IZR (24 * 60 * 60 * 1000))%R in
  let recencyScore := (Rmax 0 (1 - ageInDays / 30) * recencyWeight)%R in
  let score := (score + recencyScore)%R in
  (* Text match score (simple) *)
  let queryWords := JS.split_ws (JS.toLowerCase q) in
  let contentLower := JS.toLowerCase (content memory) in
  let matchCount :=
    List.length (filter (fun word => JS.includes contentLower word) queryWords) in
  let textScore :=
    (INR matchCount / INR (List.length queryWords)
     * (1 - importanceWeight - recencyWeight))%R in
  let score := (score + textScore)%R in
  Rmin 1 (Rmax 0 score).

(** [extractSnippet] *)
Definition extractSnippet (content q : string) : string :=
  let maxSnippetLength := 700 in
  if JS.len content <=? maxSnippetLength then content
  else
    let queryLower := JS.toLowerCase q in
    let contentLower := JS.toLowerCase content in
    let matchIndex := JS.indexOf contentLower queryLower in
    if matchIndex =? -1
    then JS.slice content 0 maxSnippetLength ++ "..."
    else
      let contextBefore := 200 in
      let contextAfter := maxSnippetLength - contextBefore in
      let start := Z.max 0 (matchIndex - contextBefore) in
      let stop := Z.min (JS.len content) (matchIndex + JS.len q + contextAfter) in
      let snippet := JS.slice content start stop in
      let snippet := if 0 <? start then "..." ++ snippet else snippet in
      if stop <? JS.len content then snippet ++ "..." else snippet.

Definition to_result (cfg : QueryConfig) (now : Z) (q : string)
           (memory : StructuredMemory) : MemorySearchResult :=
  let lines := JS.split_char JS.LF (content memory) in
  {| path := sourcePath memory;
     startLine := 1;
     endLine := Z.min (Z.of_nat (List.length lines)) 20;
     score := calculateRelevanceScore cfg now memory q;
     snippet := extractSnippet (content memory) q |}.

(** [search] *)
Definition search (cfg : QueryConfig) (closed : bool) (q : string)
           (opts : SearchOpts) : M (list MemorySearchResult) :=
  if closed then ret []
  else
    let maxResults := default (maxResults opts) 10 in
    (* Record search in access log *)
    recordAccess "search-query" ActSearch (Some q) ;;;
    (* Search structured memories *)
    memories <- searchMemories
                  {| sp_query := Some q; sp_tags := None;
                     sp_memoryType := None; sp_importanceLevel := None;
                     sp_limit := Some maxResults; sp_offset := None;
                     sp_orderBy := Some ByRelevance |} ;;
    now <- Date_now ;;
    let results := map (to_result cfg now q) memories in
    (* Sort by score *)
    let results :=
      sort_by (fun a b => negb (Rltb (score a) (score b))) results in
    (* Take top results *)
    ret (JS.take maxResults results).

(** [readFile], for the paths the store knows; [fallback] is what
    [readFromFilesystem] returns for this request. *)
Definition readFile (closed : bool) (relPath : string) (from lines : option Z)
           (fallback : string) : M string :=
  if closed then ret EmptyString
  else
    memories <- searchMemories
                  {| sp_query := None; sp_tags := None; sp_memoryType := None;
                     sp_importanceLevel := None; sp_limit := Some 100;
                     sp_offset := None; sp_orderBy := None |} ;;
    let matchingMemories :=
      filter (fun m => String.eqb (sourcePath m) relPath) memories in
    match matchingMemories with
    | [] => ret fallback
    | _ :: _ =>
        (* Record access *)
        for_each matchingMemories (fun memory =>
          recordAccess (id memory) ActRead None) ;;;
        let text :=
          JS.join (JS.nl ++ JS.nl ++ "---" ++ JS.nl ++ JS.nl)
                  (map content matchingMemories) in
        match from, lines with
        | None, None => ret text
        | _, _ =>
            let ls := JS.split_char JS.LF text in
            let start := default from 1 - 1 in
            let stop :=
              match lines with
              | Some n => start + n
              | None => Z.of_nat (List.length ls)
              end in
            ret (JS.join JS.nl (JS.array_slice start stop ls))
        end
    end.

(** [getMemoryCount]: [SELECT COUNT( * ) FROM structured_memories] *)
Definition getMemoryCount : M Z :=
  d <- get_db ;;
  ret (Z.of_nat (List.length (structured_memories d))).

(** The fields of [MemoryProviderStatus] that [status] computes from the
    store; the others are constants. *)
Record MemoryProviderStatus := {
  files : Z;
  chunks : Z;
  tagCount : Z;
  topTags : list string
}.

(** [status], on an open connection. *)
Definition status : M MemoryProviderStatus :=
  tags <- getAllTags ;;
  files <- getMemoryCount ;;
  chunks <- getMemoryCount ;;
  ret {| files := files;
         chunks := chunks;
         tagCount := Z.of_nat (List.length tags);
         topTags := map Tag.name (JS.take 5 tags) |}.

(** [sync]: reconcile, then compact, then rescore.  [cfg] is the resolved
    configuration, whose parts the constructor hands to the reconciler, the
    engine and the store; the progress callback only reports. *)
Definition sync (cfg : StructuredMemoryConfig) (closed : bool)
           (fileEntries : list Sync.MemoryFileEntry) : M unit :=
  if closed then ret tt
  else
    _ <- Sync.syncFromMarkdown (markdown (Store.sync cfg)) fileEntries ;;
    (* Run compression after sync *)
    _ <- Engine.compress (compression cfg) ;;
    (* Recalculate importance scores *)
    recalculateImportance cfg.

End Backend.

(* ================================================================== *)
(** ** Vocabulary of the properties *)

Module Terms.
Import Store Engine Sync.
Local Open Scope store_scope.

(** The columns of a row that no [assignment] writes. *)
Definition same_frame (r r' : Row.t) : Prop :=
  Row.id r' = Row.id r
  /\ Row.source_path r' = Row.source_path r
  /\ Row.created_at r' = Row.created_at r
  /\ Row.accessed_at r' = Row.accessed_at r
  /\ Row.access_count r' = Row.access_count r
  /\ Row.compressed_from r' = Row.compressed_from r
  /\ Row.compression_level r' = Row.compression_level r
  /\ Row.related_memories r' = Row.related_memories r
  /\ Row.source_session_id r' = Row.source_session_id r
  /\ Row.source_channel r' = Row.source_channel r.

(** Two worlds with the same table [structured_memories]. *)
Definition same_memories (w w' : World) : Prop :=
  structured_memories (db w') = structured_memories (db w).

(** Two worlds with the same access log and the same relation edges. *)
Definition same_log_and_relations (w w' : World) : Prop :=
  memory_access_log (db w') = memory_access_log (db w)
  /\ memory_relations (db w') = memory_relations (db w).

(** What a call of [updateMemory] on [mid] may do to one row. *)
Definition row_step (mid : string) (r r' : Row.t) : Prop :=
  same_frame r r' /\ (Row.id r <> mid -> r' = r).

(** An update that supplies none of the written fields. *)
Definition unwritten (sp : option string) (ua aa ac : option Z)
           (cf : option (list string)) (cl : option Z)
           (rm : option (list string)) (ss sc : option string) : Upd.t :=
  {| Upd.content := None; Upd.summary := None; Upd.sourcePath := sp;
     Upd.memoryType := None; Upd.importanceLevel := None;
     Upd.importanceScore := None; Upd.tags := None; Upd.updatedAt := ua;
     Upd.accessedAt := aa; Upd.accessCount := ac; Upd.compressedFrom := cf;
     Upd.compressionLevel := cl; Upd.relatedMemories := rm;
     Upd.sourceSessionId := ss; Upd.sourceChannel := sc |}.

(** The update that [recalculateImportance] issues for the snapshot row
    [mem], as it acts on a row [r] of the table; and the table after the
    updates for all rows of the snapshot [l]. *)
Definition rescore_by (cfg : ImportanceConfig) (now : Z) (mem r : Row.t) : Row.t :=
  if String.eqb (Row.id r) (Row.id mem)
  then assign r (SetImportanceScore (newScore cfg now mem))
  else r.

Definition recalc_rows (cfg : ImportanceConfig) (now : Z)
           (l t : list Row.t) : list Row.t :=
  fold_left (fun t mem => map (rescore_by cfg now mem) t) l t.

(** One recalculation of one row from its own columns. *)
Definition rescore (cfg : ImportanceConfig) (now : Z) (r : Row.t) : Row.t :=
  assign r (SetImportanceScore (newScore cfg now r)).

Definition pick (cfg : ImportanceConfig) (now : Z) (l : list Row.t) (r : Row.t)
  : Row.t :=
  match find (fun m => String.eqb (Row.id r) (Row.id m)) l with
  | Some m => assign r (SetImportanceScore (newScore cfg now m))
  | None => r
  end.

Definition score_of (mid : string) (w : World) : option R :=
  option_map Row.importance_score (select_memory (db w) mid).

(** The row that [createMemory] inserts. *)
Definition new_row (n : New.t) (new_id : string) (now : Z) : Row.t :=
  {| Row.id := new_id;
     Row.content := New.content n;
     Row.summary := New.summary n;
     Row.source_path := New.sourcePath n;
     Row.memory_type := New.memoryType n;
     Row.importance_level := New.importanceLevel n;
     Row.importance_score := New.importanceScore n;
     Row.created_at := now;
     Row.updated_at := now;
     Row.accessed_at := None;
     Row.access_count := 0;
     Row.compressed_from := New.compressedFrom n;
     Row.compression_level := default (New.compressionLevel n) 0;
     Row.related_memories := New.relatedMemories n;
     Row.source_session_id := New.sourceSessionId n;
     Row.source_channel := New.sourceChannel n |}.

(** What a summary record of the monthly stage looks like, in a store that
    started the stage as [w0]: type summary, level 2, folded from at least
    two records of [w0]. *)
Definition monthly_summary_of (w0 : World) (r : Row.t) : Prop :=
  Row.memory_type r = Summary
  /\ Row.compression_level r = 2
  /\ exists ids, Row.compressed_from r = Some ids
                 /\ (2 <= List.length ids)%nat
                 /\ forall i, In i ids -> has_memory (db w0) i = true.

(** The same for the weekly stage: level 1, folded from at least the
    configured minimum of records. *)
Definition weekly_summary_of (config : CompressionConfig) (w0 : World)
           (r : Row.t) : Prop :=
  Row.memory_type r = Summary
  /\ Row.compression_level r = 1
  /\ exists ids, Row.compressed_from r = Some ids
                 /\ minMemoriesForSummary config <= Z.of_nat (List.length ids)
                 /\ forall i, In i ids -> has_memory (db w0) i = true.

(** The bodies of the loops over the groups, and the groups they process. *)
Definition weekly_body (config : CompressionConfig)
           (g : string * list StructuredMemory) (c : Counts) : M Counts :=
  if Z.of_nat (List.length (snd g)) <? minMemoriesForSummary config
  then ret c else weekly_group g c.

Definition weekly_eligible (config : CompressionConfig)
           (g : string * list StructuredMemory) : bool :=
  negb (Z.of_nat (List.length (snd g)) <? minMemoriesForSummary config).

Definition monthly_body (g : string * list StructuredMemory) (c : Counts)
  : M Counts :=
  if Z.of_nat (List.length (snd g)) <? 2 then ret c else monthly_group g c.

Definition eligible (g : string * list StructuredMemory) : bool :=
  negb (Z.of_nat (List.length (snd g)) <? 2).

(** The records that the monthly stage selects in the store [w] for a
    minimum age, and the groups that its loop then processes: the selection
    grouped by calendar month, the groups of fewer than two records left
    out.  A malformed duration leaves no group. *)
Definition monthly_selection (minAge : Z) (w : World) : list StructuredMemory :=
  match eval (getMemoriesForCompression (clock w - minAge) 1 (Some 1000)) w with
  | Ok ms => ms
  | Throw _ => []
  end.

Definition monthly_groups (config : CompressionConfig) (w : World)
  : list (string * list StructuredMemory) :=
  match parseDuration (weeklyToMonthly config) with
  | Ok minAge =>
      filter eligible (groupByMonth (tz w) (monthly_selection minAge w))
  | Throw _ => []
  end.

(** The row [r] is the monthly summary of the group [g]: a summary record
    of compression level 2 whose [compressed_from] lists the ids of the
    group in order, stored under the path of the month, with the generated
    text, importance level high and the highest score of the group. *)
Definition summarises (g : string * list StructuredMemory) (r : Row.t) : Prop :=
  Row.memory_type r = Summary
  /\ Row.compression_level r = 2
  /\ Row.compressed_from r = Some (map id (snd g))
  /\ Row.source_path r = "memory/summaries/month-" ++ fst g ++ ".md"
  /\ generateSummary (snd g) false = Some (Row.content r)
  /\ Row.importance_level r = High
  /\ Row.importance_score r = Math_max (map importanceScore (snd g)).

(** What the loop makes of one group: the summary row it appends, or
    nothing when the insert was refused and an error counted instead. *)
Definition group_outcome (g : string * list StructuredMemory)
           (o : option Row.t) : Prop :=
  match o with
  | Some r => summarises g r
  | None => True
  end.

Fixpoint somes {A} (os : list (option A)) : list A :=
  match os with
  | [] => []
  | Some a :: os' => a :: somes os'
  | None :: os' => somes os'
  end.

(** A source record as a stage keeps it: the row [r'] is the row [r] in
    every column but the update time, its compression level not lowered. *)
Definition retained (r r' : Row.t) : Prop :=
  Row.id r' = Row.id r
  /\ Row.content r' = Row.content r
  /\ Row.summary r' = Row.summary r
  /\ Row.source_path r' = Row.source_path r
  /\ Row.memory_type r' = Row.memory_type r
  /\ Row.importance_level r' = Row.importance_level r
  /\ Row.importance_score r' = Row.importance_score r
  /\ Row.created_at r' = Row.created_at r
  /\ Row.accessed_at r' = Row.accessed_at r
  /\ Row.access_count r' = Row.access_count r
  /\ Row.compressed_from r' = Row.compressed_from r
  /\ Row.related_memories r' = Row.related_memories r
  /\ Row.source_session_id r' = Row.source_session_id r
  /\ Row.source_channel r' = Row.source_channel r
  /\ Row.compression_level r <= Row.compression_level r'.

(** The world [w'] is the process of [w] after [k] calls of
    [randomUUID()]: the same clock, time zone and supply of ids. *)
Definition ids_drawn (k : nat) (w w' : World) : Prop :=
  clock w' = clock w
  /\ tz w' = tz w
  /\ uuid_pool w' = uuid_pool w
  /\ uuid_next w' = (uuid_next w + k)%nat.

(** The next [n] ids that [randomUUID()] yields in [w] differ from one
    another and from every id in the store. *)
Definition fresh_ids (w : World) (n : nat) : Prop :=
  let ids := map (fun k => uuid_pool w (uuid_next w + k)%nat) (seq 0 n) in
  NoDup ids /\ Forall (fun i => has_memory (db w) i = false) ids.

(** The words of a text: the lowercase, whitespace-split tokens. *)
Definition words (s : string) : list string := JS.split_ws (JS.toLowerCase s).

(** Following the spec's words: the word-set Jaccard similarity, the size
    of the intersection over the size of the union. *)
Definition jaccard (a b : string) : R :=
  let A := JS.new_Set (words a) in
  let B := JS.new_Set (words b) in
  (INR (List.length (filter (fun x => JS.set_has x B) A))
   / INR (List.length (JS.new_Set (A ++ B))))%R.

(** The row that the update of a matched section writes. *)
Definition section_row (section : Section) (now : Z) (r : Row.t) : Row.t :=
  row_with r (sec_content section) (Row.summary r) (sec_memoryType section)
           (Row.importance_level r) (Row.importance_score r) now.

(** A query text without the wildcards [%] and [_] of [LIKE]. *)
Fixpoint wildcard_free (q : string) : bool :=
  match q with
  | EmptyString => true
  | String c q' =>
      (negb (Ascii.eqb c "%") && negb (Ascii.eqb c "_") && wildcard_free q')%bool
  end.

(** [text] contains [q], ASCII letters compared without case. *)
Definition contains_nocase (text q : string) : bool :=
  JS.includes (JS.toLowerCase text) (JS.toLowerCase q).

(** The order of two results that each [orderBy] stands for: [a] may come
    before [b]. *)
Definition ordered_by (o : OrderBy) (a b : StructuredMemory) : Prop :=
  match o with
  | ByImportance => (importanceScore b <= importanceScore a)%R
  | ByRecency => createdAt b <= createdAt a
  | ByRelevance =>
      (importanceScore b < importanceScore a)%R
      \/ (importanceScore b = importanceScore a /\ createdAt b <= createdAt a)
  end.

(** An update that supplies one of the five fields that [updateMemory]
    writes to the row. *)
Definition writes_row (u : Upd.t) : bool :=
  match Upd.content u, Upd.summary u, Upd.memoryType u,
        Upd.importanceLevel u, Upd.importanceScore u with
  | None, None, None, None, None => false
  | _, _, _, _, _ => true
  end.

(** The row appended to the access log by [recordAccess]. *)
Definition log_row (d : Database) (mid : string) (now : Z) (q : option string)
           (a : Action) : AccessLogRow :=
  {| log_id := access_log_seq d + 1; memory_id := mid; accessed_at := now;
     query := q; action := a |}.

(** The constraints that the schema puts on table [tags]: the ids are
    distinct and were handed out by the AUTOINCREMENT counter, the names are
    distinct. *)
Definition tags_wf (d : Database) : Prop :=
  NoDup (map tag_id (tags_table d))
  /\ NoDup (map name (tags_table d))
  /\ forall t, In t (tags_table d) -> tag_id t <= tags_seq d.

(** Referential integrity of [memory_tags] towards [structured_memories]. *)
Definition links_wf (d : Database) : Prop :=
  forall l, In l (memory_tags d) -> has_memory d (fst l) = true.

(** A tag row as [update_tag_count] for [tid] leaves it. *)
Definition recount (d : Database) (tid : Z) (t : TagRow) : TagRow :=
  if tag_id t =? tid
  then {| tag_id := tag_id t; name := name t; color := color t;
          description := description t; tag_created_at := tag_created_at t;
          memory_count := count_links d tid |}
  else t.

(** The database after one round of the loop of [setTagsForMemory] in
    which every statement succeeds: the tag is found or inserted, the link
    is added unless present, the count of the tag is recomputed. *)
Definition link_tag_db (mid n : string) (now : Z) (d : Database) : Database :=
  let tid :=
    match select_tag_by_name d n with
    | Some t => tag_id t
    | None => tags_seq d + 1
    end in
  let d1 :=
    match select_tag_by_name d n with
    | Some _ => d
    | None =>
        with_tags d
          (tags_table d ++
           [{| tag_id := tid; name := n; color := None; description := None;
               tag_created_at := now; memory_count := 0 |}])%list
          tid
    end in
  let d2 :=
    if has_link d1 mid tid then d1
    else with_memory_tags d1 (memory_tags d1 ++ [(mid, tid)])%list in
  with_tags d2 (map (recount d2 tid) (tags_table d2)) (tags_seq d2).

(** The state of the loop of [setTagsForMemory] for memory [mid] once the
    names [done] are processed: the table constraints hold; every link of
    [mid] leads to a tag named in [done]; every name in [done] has its tag,
    linked to [mid], with a count equal to its number of links; no link of
    [mid] is repeated. *)
Definition tags_linked (mid : string) (done : list string) (d : Database)
  : Prop :=
  tags_wf d
  /\ (forall tid, In (mid, tid) (memory_tags d) ->
        exists t, In t (tags_table d) /\ tag_id t = tid /\ In (name t) done)
  /\ (forall n, In n done ->
        exists t, In t (tags_table d) /\ name t = n
                  /\ In (mid, tag_id t) (memory_tags d)
                  /\ memory_count t = count_links d (tag_id t))
  /\ NoDup (filter (fun l => String.eqb (fst l) mid) (memory_tags d)).

(** The rows that [getMemoriesForCompression] may return for a cut-off and
    a level bound. *)
Definition compressible (olderThan level : Z) (r : Row.t) : bool :=
  ((Row.created_at r <? olderThan)
   && (Row.compression_level r <=? level)
   && negb (MemoryType_eqb (Row.memory_type r) Summary))%bool.

(** A row as archival leaves it: type [archive], update time [now]. *)
Definition archive_row (now : Z) (r : Row.t) : Row.t :=
  row_with r (Row.content r) (Row.summary r) Archive
           (Row.importance_level r) (Row.importance_score r) now.

(** The rows that archival may retype for a cut-off: old enough, no summary,
    and not accessed after the cut-off. *)
Definition archivable (cutoff : Z) (r : Row.t) : bool :=
  (compressible cutoff 2 r
   && negb match Row.accessed_at r with
           | Some a => negb (a =? 0) && (cutoff <? a)
           | None => false
           end)%bool.

End Terms.

(* ================================================================== *)
(** ** Concrete worlds used by the examples *)

Module Fixture.
Import Store Engine Sync Terms.
Local Open Scope store_scope.

(** Midnight UTC of a calendar day, in milliseconds. *)
Definition day (y m d : Z) : Z := JS.days_from_civil y m d * JS.msPerDay.

(** An empty store in a process whose local time is UTC and whose
    [randomUUID()] yields [m1], [m2], ... *)
Definition fresh (fk : bool) : World :=
  {| db := empty_db fk; clock := 0;
     uuid_pool := fun n => "m" ++ JS.of_int (Z.of_nat n);
     uuid_next := 1; tz := fun _ => 0 |}.

Definition note (text : string) (tags : list string) (level : option Z) : New.t :=
  {| New.content := text; New.summary := None;
     New.sourcePath := "memory/notes.md"; New.memoryType := Note;
     New.importanceLevel := Medium; New.importanceScore := 0.5%R;
     New.tags := tags; New.accessedAt := None; New.compressedFrom := None;
     New.compressionLevel := level; New.relatedMemories := None;
     New.sourceSessionId := None; New.sourceChannel := None |}.

(** [createMemory] called when the clock shows [t]. *)
Definition create_at (t : Z) (n : New.t) (w : World) : World :=
  exec (createMemory n) (set_clock t w).

(** A store where memory [m1] has a tag, an access-log row and relation
    edges in both directions. *)
Definition linked : World :=
  let w := create_at 1000 (note "first" ["a"] None)
             (fresh true) in
  let w := create_at 2000 (note "second" ["a"] None) w in
  let w := exec (recordAccess "m1" ActRead None) w in
  set_db w
    {| structured_memories := structured_memories (db w);
       tags_table := tags_table (db w); tags_seq := tags_seq (db w);
       memory_tags := memory_tags (db w);
       memory_access_log := memory_access_log (db w);
       access_log_seq := access_log_seq (db w);
       memory_relations :=
         [{| source_id := "m1"; target_id := "m2";
             relation_type := "related"; rel_created_at := 3000 |};
          {| source_id := "m2"; target_id := "m1";
             relation_type := "related"; rel_created_at := 3000 |}];
       foreign_keys := true |}.

(** A note written on 2024-01-01 and never compacted or read; the clock
    shows 2024-06-01, more than 90 days later. *)
Definition stale_note : World :=
  set_clock (day 2024 6 1)
    (create_at (day 2024 1 1)
       (note "old note" [] None) (fresh true)).

Definition config : CompressionConfig :=
  compression DEFAULT_STRUCTURED_MEMORY_CONFIG.

Definition selected (o : outcome (list StructuredMemory))
  : list (string * option Z) :=
  match o with
  | Ok ms => map (fun m => (id m, compressionLevel m)) ms
  | Throw _ => []
  end.

(** Six notes written Monday 2024-01-01 to Saturday 2024-01-06 (ISO week 1
    of 2024); the clock shows Sunday 2024-01-14, eight days after the last. *)
Definition six_notes : World :=
  let add d text w :=
    create_at (day 2024 1 d) (note text [] None) w in
  set_clock (day 2024 1 14)
    (add 6 "sat" (add 5 "fri" (add 4 "thu" (add 3 "wed" (add 2 "tue"
       (add 1 "mon" (fresh true))))))).

Definition after : World := exec (compressToWeekly config) six_notes.

Definition reported_level (mid : string) (w : World) : option Z :=
  match eval (getMemory mid) w with
  | Ok (Some m) => compressionLevel m
  | _ => None
  end.

(** For every tag: its name, its stored [memory_count], and the number of
    rows of [memory_tags] that carry it. *)
Definition counts (w : World) : list (string * Z * Z) :=
  map (fun t => (name t, memory_count t, count_links (db w) (tag_id t)))
      (tags_table (db w)).

Definition retag (ts : list string) : Upd.t :=
  {| Upd.content := None; Upd.summary := None; Upd.sourcePath := None;
     Upd.memoryType := None; Upd.importanceLevel := None;
     Upd.importanceScore := None; Upd.tags := Some ts; Upd.updatedAt := None;
     Upd.accessedAt := None; Upd.accessCount := None;
     Upd.compressedFrom := None; Upd.compressionLevel := None;
     Upd.relatedMemories := None; Upd.sourceSessionId := None;
     Upd.sourceChannel := None |}.

(** One memory created with the tag [a]. *)
Definition tagged : World :=
  create_at 1000 (note "first" ["a"] None) (fresh true).

Definition query_cfg : QueryConfig := query_config DEFAULT_STRUCTURED_MEMORY_CONFIG.

Definition no_opts : Backend.SearchOpts :=
  {| Backend.maxResults := None; Backend.minScore := None;
     Backend.sessionKey := None |}.

(** One note whose text contains the query; [fk] is the foreign-key
    pragma of the connection. *)
Definition one_note (fk : bool) : World :=
  set_clock 5000
    (create_at 1000 (note "hello world" [] None)
       (fresh fk)).

Definition found (o : outcome (list Backend.MemorySearchResult))
  : outcome (list (string * string)) :=
  match o with
  | Ok rs => Ok (map (fun r => (Backend.path r, Backend.snippet r)) rs)
  | Throw e => Throw e
  end.

Definition search_hello (fk : bool)
  : outcome (list Backend.MemorySearchResult) * World :=
  Backend.search query_cfg false "hello" no_opts (one_note fk).


(** A note with score [s], written when the clock showed 0. *)
Definition scored (s : R) : World :=
  create_at 0
    {| New.content := "x"; New.summary := None; New.sourcePath := "p";
       New.memoryType := Note; New.importanceLevel := Medium;
       New.importanceScore := s; New.tags := []; New.accessedAt := None;
       New.compressedFrom := None; New.compressionLevel := None;
       New.relatedMemories := None; New.sourceSessionId := None;
       New.sourceChannel := None |}
    (fresh true).

Definition scored_row (s : R) : Row.t :=
  {| Row.id := "m1"; Row.content := "x"; Row.summary := None;
     Row.source_path := "p"; Row.memory_type := Note;
     Row.importance_level := Medium; Row.importance_score := s;
     Row.created_at := 0; Row.updated_at := 0; Row.accessed_at := None;
     Row.access_count := 0; Row.compressed_from := None;
     Row.compression_level := 0; Row.related_memories := None;
     Row.source_session_id := None; Row.source_channel := None |}.

(** Two level-1 records written on 2024-01-01 and 2024-01-02; the clock
    shows 2024-03-01, more than 30 days later. *)
Definition two_weeklies : World :=
  set_clock (day 2024 3 1)
    (create_at (day 2024 1 2) (note "w2" [] (Some 1))
       (create_at (day 2024 1 1) (note "w1" [] (Some 1))
          (fresh true))).

Definition listing (w : World)
  : list (string * MemoryType * Z * option (list string)) :=
  map (fun r => (Row.id r, Row.memory_type r, Row.compression_level r,
                 Row.compressed_from r))
      (structured_memories (db w)).

(** A store that holds one record of ten words for [memory/notes.md]; the
    clock shows a later time, when the file is reconciled. *)
Definition ten_words : string :=
  "monday tuesday wednesday thursday friday saturday sunday january february march".

Definition stored : World :=
  set_clock 2000
    (create_at 1000 (note ten_words [] None)
       (fresh true)).

Definition existing : StructuredMemory :=
  {| id := "m1"; content := ten_words; summary := None;
     sourcePath := "memory/notes.md"; memoryType := Note;
     importanceLevel := Medium; importanceScore := 0.5%R; tags := [];
     createdAt := 1000; updatedAt := 1000; accessedAt := None;
     accessCount := 0; compressedFrom := None; compressionLevel := Some 0;
     relatedMemories := None; sourceSessionId := None;
     sourceChannel := None |}.

Definition section_of (text : string) : Section :=
  {| sec_content := text; sec_memoryType := Note; sec_tags := [] |}.

(** Eight of the ten words kept and two replaced; seven of the ten kept and
    none added. *)
Definition edited : string :=
  "monday tuesday wednesday thursday friday saturday sunday january april may".

Definition shortened : string :=
  "monday tuesday wednesday thursday friday saturday sunday".

Definition contents (w : World) : list (string * string) :=
  map (fun r => (Row.id r, Row.content r)) (structured_memories (db w)).

(** A listed file of one section, more than 50 characters long, last
    modified at time 500. *)
Definition plan_text : string :=
  "## Plan #work" ++ JS.nl
  ++ "monday tuesday wednesday thursday friday saturday sunday".

Definition plan_file : MemoryFileEntry :=
  {| path := "memory/plan.md"; mtimeMs := 500%R; text := plan_text |}.

End Fixture.

(* ================================================================== *)
(** ** Frame lemmas of the store *)

Module StoreFacts.
Import Store Terms Fixture.
Local Open Scope store_scope.

Lemma same_frame_refl r : same_frame r r.
Proof. repeat split. Qed.

Lemma same_frame_trans r1 r2 r3 :
  same_frame r1 r2 -> same_frame r2 r3 -> same_frame r1 r3.
Proof.
  unfold same_frame; intros H1 H2.
  repeat match goal with H : _ /\ _ |- _ => destruct H end.
  repeat split; congruence.
Qed.

Lemma assign_frame r a : same_frame r (assign r a).
Proof. destruct a; repeat split. Qed.

Lemma fold_assign_frame sets : forall r, same_frame r (fold_left assign sets r).
Proof.
  induction sets as [|a sets IH]; intro r; simpl.
  - apply same_frame_refl.
  - eapply same_frame_trans; [apply assign_frame | apply IH].
Qed.

Lemma bind_ok {A B} (m : M A) (k : A -> M B) w a w1 :
  m w = (Ok a, w1) -> bind m k w = k a w1.
Proof. unfold bind; intros ->; reflexivity. Qed.

Lemma bind_throw {A B} (m : M A) (k : A -> M B) w e w1 :
  m w = (Throw e, w1) -> bind m k w = (Throw e, w1).
Proof. unfold bind; intros ->; reflexivity. Qed.

Lemma insert_memory_fresh r w :
  has_memory (db w) (Row.id r) = false ->
  insert_memory r w
  = (Ok tt, set_db w (with_memories (db w)
                        (structured_memories (db w) ++ [r])%list)).
Proof.
  intro H. unfold insert_memory, bind, get_db, put_db; simpl.
  rewrite H; reflexivity.
Qed.

Lemma insert_memory_taken r w :
  has_memory (db w) (Row.id r) = true ->
  insert_memory r w
  = (Throw "UNIQUE constraint failed: structured_memories.id", w).
Proof.
  intro H. unfold insert_memory, bind, get_db; simpl.
  rewrite H; reflexivity.
Qed.

Lemma for_each_invariant {A} (P : World -> Prop) (body : A -> M unit) xs :
  (forall x w, P w -> P (exec (body x) w)) ->
  forall w, P w -> P (exec (for_each xs body) w).
Proof.
  intros Hbody; induction xs as [|x xs IH]; intros w Hw; simpl.
  - exact Hw.
  - unfold exec, bind in *; simpl.
    specialize (Hbody x w Hw).
    destruct (body x w) as [[[]|e] w1]; simpl in *; auto.
Qed.

Ltac split_if :=
  match goal with |- context [if ?c then _ else _] => destruct c end.

(** Tag maintenance touches neither table [structured_memories] nor the
    access log nor the relation edges. *)
Lemma link_tag_frame memoryId tagName w :
  same_memories w (exec (link_tag memoryId tagName) w)
  /\ same_log_and_relations w (exec (link_tag memoryId tagName) w).
Proof.
  unfold same_memories, same_log_and_relations, exec, link_tag, bind, get_db;
    simpl.
  destruct (select_tag_by_name (db w) tagName) eqn:Hsel; simpl.
  - unfold insert_or_ignore_memory_tag, bind, get_db; simpl.
    split_if; simpl; [repeat split|].
    split_if; simpl; repeat split.
  - unfold Date_now, insert_tag, bind, get_db; simpl. rewrite Hsel; simpl.
    unfold insert_or_ignore_memory_tag, bind, get_db; simpl.
    split_if; simpl; [repeat split|].
    split_if; simpl; repeat split.
Qed.

Lemma setTagsForMemory_frame memoryId tagNames w :
  same_memories w (exec (setTagsForMemory memoryId tagNames) w)
  /\ same_log_and_relations w (exec (setTagsForMemory memoryId tagNames) w).
Proof.
  unfold setTagsForMemory.
  unfold exec at 1 2, bind; simpl.
  apply (for_each_invariant
           (fun w' => same_memories w w' /\ same_log_and_relations w w')).
  - intros x w1 [H1 [H2 H3]].
    destruct (link_tag_frame memoryId x w1) as [H4 [H5 H6]].
    unfold same_memories, same_log_and_relations in *.
    repeat split; congruence.
  - repeat split.
Qed.

Lemma setTagsForMemory_memories memoryId tagNames w :
  same_memories w (exec (setTagsForMemory memoryId tagNames) w).
Proof. apply setTagsForMemory_frame. Qed.

Lemma setTagsForMemory_log memoryId tagNames w :
  same_log_and_relations w (exec (setTagsForMemory memoryId tagNames) w).
Proof. apply setTagsForMemory_frame. Qed.

End StoreFacts.

(* ================================================================== *)
(** ** [updateMemory]: which columns it can write *)

Module UpdateFrame.
Import Store StoreFacts Terms Fixture.
Local Open Scope store_scope.

Lemma Forall2_map_self {A} (P : A -> A -> Prop) (f : A -> A) (l : list A) :
  (forall x, P x (f x)) -> Forall2 P l (map f l).
Proof. intro H; induction l; simpl; constructor; auto. Qed.

Lemma Forall2_self {A} (P : A -> A -> Prop) (l : list A) :
  (forall x, P x x) -> Forall2 P l l.
Proof. intro H; induction l; constructor; auto. Qed.

Lemma row_step_refl mid r : row_step mid r r.
Proof. split; [apply same_frame_refl | reflexivity]. Qed.

Lemma update_memory_step mid sets (l : list Row.t) :
  Forall2 (row_step mid) l
    (map (fun r => if String.eqb (Row.id r) mid
                   then fold_left assign sets r else r) l).
Proof.
  apply Forall2_map_self; intro r.
  destruct (String.eqb (Row.id r) mid) eqn:E.
  - split; [apply fold_assign_frame|].
    apply String.eqb_eq in E; congruence.
  - apply row_step_refl.
Qed.

Lemma getMemory_world mid w : snd (getMemory mid w) = w.
Proof.
  unfold getMemory, bind, get_db; simpl.
  destruct (select_memory (db w) mid); reflexivity.
Qed.

Lemma updateMemory_rows mid updates w :
  Forall2 (row_step mid)
    (structured_memories (db w))
    (structured_memories (db (exec (updateMemory mid updates) w))).
Proof.
  unfold exec, updateMemory.
  unfold bind at 1.
  destruct (getMemory mid w) as [[[e|]|err] w0] eqn:Hget;
    pose proof (getMemory_world mid w) as Hw0; rewrite Hget in Hw0;
    simpl in Hw0; subst w0; simpl;
    try (apply Forall2_self; apply row_step_refl).
  set (tagstep := match Upd.tags updates with
                  | Some ts => setTagsForMemory mid ts
                  | None => ret tt
                  end).
  assert (Htag : same_memories w (exec tagstep w)).
  { subst tagstep; destruct (Upd.tags updates).
    - apply setTagsForMemory_memories.
    - reflexivity. }
  unfold exec in Htag. unfold bind at 1.
  destruct (tagstep w) as [[[]|err] w1]; simpl in Htag |- *.
  2:{ unfold same_memories in Htag. rewrite Htag.
      apply Forall2_self; apply row_step_refl. }
  unfold bind at 1, Date_now at 1; simpl.
  unfold bind at 1.
  split_if.
  - unfold update_memory, bind, get_db, put_db; simpl.
    rewrite getMemory_world; simpl.
    unfold same_memories in Htag. rewrite Htag.
    apply update_memory_step.
  - simpl. rewrite getMemory_world.
    unfold same_memories in Htag. rewrite Htag.
    apply Forall2_self; apply row_step_refl.
Qed.

Lemma updateMemory_unwritten mid sp ua aa ac cf cl rm ss sc w :
  exec (updateMemory mid (unwritten sp ua aa ac cf cl rm ss sc)) w = w.
Proof.
  unfold exec, updateMemory. unfold bind at 1.
  destruct (getMemory mid w) as [[[e|]|err] w0] eqn:Hget;
    pose proof (getMemory_world mid w) as Hw0; rewrite Hget in Hw0;
    simpl in Hw0; subst w0; simpl; try reflexivity.
  unfold bind, ret, Date_now; simpl. apply getMemory_world.
Qed.

Lemma getMemory_run mid w : exists o, getMemory mid w = (Ok o, w).
Proof.
  unfold getMemory, bind, get_db; simpl.
  destruct (select_memory (db w) mid); eexists; reflexivity.
Qed.

Lemma updateMemory_unwritten_run mid sp ua aa ac cf cl rm ss sc w :
  exists o,
    updateMemory mid (unwritten sp ua aa ac cf cl rm ss sc) w = (Ok o, w).
Proof.
  unfold updateMemory.
  destruct (getMemory_run mid w) as [o Ho].
  rewrite (bind_ok _ _ _ _ _ Ho).
  destruct o as [m|]; [|eexists; reflexivity].
  simpl. unfold bind at 1, ret at 1. unfold bind at 1, Date_now at 1.
  unfold bind at 1, ret at 1. apply getMemory_run.
Qed.

Lemma updateMemory_log_relations mid updates w :
  same_log_and_relations w (exec (updateMemory mid updates) w).
Proof.
  unfold exec, updateMemory.
  unfold bind at 1.
  destruct (getMemory mid w) as [[[e|]|err] w0] eqn:Hget;
    pose proof (getMemory_world mid w) as Hw0; rewrite Hget in Hw0;
    simpl in Hw0; subst w0; simpl;
    try (split; reflexivity).
  set (tagstep := match Upd.tags updates with
                  | Some ts => setTagsForMemory mid ts
                  | None => ret tt
                  end).
  assert (Htag : same_log_and_relations w (exec tagstep w)).
  { subst tagstep; destruct (Upd.tags updates).
    - apply setTagsForMemory_log.
    - split; reflexivity. }
  unfold exec in Htag. unfold bind at 1.
  destruct (tagstep w) as [[[]|err] w1]; simpl in Htag |- *; [|exact Htag].
  unfold bind at 1, Date_now at 1; simpl.
  unfold bind at 1.
  split_if.
  - unfold update_memory, bind, get_db, put_db; simpl.
    rewrite getMemory_world; simpl. exact Htag.
  - simpl. rewrite getMemory_world. exact Htag.
Qed.

(** C10.  [updateMemory] can change only the columns content, summary,
    memory_type, importance_level, importance_score and updated_at, and the
    tag links: on every row the other ten columns keep their value, rows of
    other ids are untouched, the access log and the relation edges are as
    they were, and an update that supplies only compressionLevel,
    compressedFrom, accessedAt, accessCount, sourcePath (or any other field
    outside the written ones) leaves the whole store as it was. *)
Theorem updateMemory_writes_only_listed_columns :
  forall (mid : string) (updates : Upd.t) (w : World),
    Forall2 (fun r r' => same_frame r r' /\ (Row.id r <> mid -> r' = r))
      (structured_memories (db w))
      (structured_memories (db (exec (updateMemory mid updates) w)))
    /\ memory_access_log (db (exec (updateMemory mid updates) w))
       = memory_access_log (db w)
    /\ memory_relations (db (exec (updateMemory mid updates) w))
       = memory_relations (db w)
    /\ forall sp ua aa ac cf cl rm ss sc,
         exec (updateMemory mid (unwritten sp ua aa ac cf cl rm ss sc)) w = w.
Proof.
  intros mid updates w.
  destruct (updateMemory_log_relations mid updates w) as [Hlog Hrel].
  split; [apply updateMemory_rows|].
  split; [exact Hlog|]. split; [exact Hrel|].
  intros; apply updateMemory_unwritten.
Qed.

End UpdateFrame.

(* ================================================================== *)
(** ** [deleteMemory] and the cascade *)

Module DeleteCascade.
Import Store Terms Fixture.
Local Open Scope store_scope.

Lemma existsb_filter_nonempty {A} (f : A -> bool) (l : list A) :
  existsb f l = true -> filter f l <> [].
Proof.
  induction l as [|x l IH]; simpl; [discriminate|].
  destruct (f x); simpl; [discriminate | exact IH].
Qed.

Lemma neqb_str_neq a b : neqb_str a b = true -> a <> b.
Proof.
  unfold neqb_str; intros H E; subst.
  rewrite String.eqb_refl in H; discriminate.
Qed.

Lemma deleteMemory_run mid w :
  foreign_keys (db w) = true ->
  has_memory (db w) mid = true ->
  deleteMemory mid w =
    (Ok true,
     set_db w (cascade_delete
                 (with_memories (db w)
                    (filter (fun r => neqb_str (Row.id r) mid)
                            (structured_memories (db w))))
                 mid)).
Proof.
  intros Hfk Hin.
  unfold deleteMemory, delete_memory, bind, get_db, put_db, ret; simpl.
  apply existsb_filter_nonempty in Hin.
  destruct (filter (fun r => String.eqb (Row.id r) mid)
                   (structured_memories (db w))) as [|r hit] eqn:Hhit;
    [contradiction|].
  rewrite Hfk; simpl.
  reflexivity.
Qed.

(** C8.  With the schema's foreign keys enforced, deleting a memory that is
    in the store succeeds and leaves no row that refers to its id: no memory
    row, no tag link, no access-log row, and no relation edge at either
    end. *)
Theorem deleteMemory_leaves_no_reference :
  forall (mid : string) (w : World),
    foreign_keys (db w) = true ->
    has_memory (db w) mid = true ->
    let w' := exec (deleteMemory mid) w in
    eval (deleteMemory mid) w = Ok true
    /\ (forall r, In r (structured_memories (db w')) -> Row.id r <> mid)
    /\ (forall l, In l (memory_tags (db w')) -> fst l <> mid)
    /\ (forall e, In e (memory_access_log (db w')) -> memory_id e <> mid)
    /\ (forall e, In e (memory_relations (db w')) ->
                  source_id e <> mid /\ target_id e <> mid).
Proof.
  intros mid w Hfk Hin w'. subst w'.
  unfold exec, eval. rewrite (deleteMemory_run mid w Hfk Hin); simpl.
  split; [reflexivity|].
  split; [|split; [|split]]; intros x H; apply filter_In in H as [_ H].
  - now apply neqb_str_neq.
  - now apply neqb_str_neq.
  - now apply neqb_str_neq.
  - apply andb_true_iff in H as [H1 H2]. split; now apply neqb_str_neq.
Qed.

Lemma deleteMemory_leaves_no_reference_witness :
  let w' := exec (deleteMemory "m1") linked in
  eval (deleteMemory "m1") linked = Ok true
  /\ (forall r, In r (structured_memories (db w')) -> Row.id r <> "m1")
  /\ (forall l, In l (memory_tags (db w')) -> fst l <> "m1")
  /\ (forall e, In e (memory_access_log (db w')) -> memory_id e <> "m1")
  /\ (forall e, In e (memory_relations (db w')) ->
                source_id e <> "m1" /\ target_id e <> "m1").
Proof.
  apply (deleteMemory_leaves_no_reference "m1" linked); vm_compute; reflexivity.
Defined.

End DeleteCascade.

(* ================================================================== *)
(** ** Which records the compaction stages select *)

Module Selection.
Import Store Engine Terms Fixture.
Local Open Scope store_scope.

Lemma In_insert_by {A} (before : A -> A -> bool) x y (l : list A) :
  In y (insert_by before x l) -> y = x \/ In y l.
Proof.
  induction l as [|z l IH]; simpl.
  - intros [H|[]]; auto.
  - destruct (before x z); simpl.
    + intros [H|[H|H]]; auto.
    + intros [H|H]; auto. destruct (IH H); auto.
Qed.

Lemma In_sort_by {A} (before : A -> A -> bool) y (l : list A) :
  In y (sort_by before l) -> In y l.
Proof.
  induction l as [|x l IH]; simpl; [tauto|].
  intro H. apply In_insert_by in H as [H|H]; auto.
Qed.

Lemma In_limit_offset {A} (limit offset : Z) y (l : list A) :
  In y (limit_offset limit offset l) -> In y l.
Proof.
  unfold limit_offset. intro H.
  assert (In y (skipn (Z.to_nat offset) l)) as H'.
  { destruct (limit <? 0); [exact H|].
    rewrite <- (firstn_skipn (Z.to_nat limit)). apply in_or_app; left; exact H. }
  rewrite <- (firstn_skipn (Z.to_nat offset) l). apply in_or_app; right; exact H'.
Qed.

(** [getMemoriesForCompression] always answers, changes nothing, and every
    record it returns is older than the cut-off, is not a summary, and has a
    compression level at most the level asked for. *)
Lemma getMemoriesForCompression_selects olderThan level limit w :
  exists ms,
    getMemoriesForCompression olderThan level limit w = (Ok ms, w)
    /\ forall m, In m ms ->
         exists l, compressionLevel m = Some l /\ l <= level
                   /\ createdAt m < olderThan /\ memoryType m <> Summary
                   /\ has_memory (db w) (id m) = true.
Proof.
  eexists; split; [reflexivity|].
  intros m Hm.
  apply in_map_iff in Hm as [r [Hr Hin]]; subst m.
  apply In_limit_offset, In_sort_by, in_rev, filter_In in Hin as [Hin Hf].
  apply andb_true_iff in Hf as [Hf Hty].
  apply andb_true_iff in Hf as [Hage Hlv].
  exists (Row.compression_level r); simpl.
  split; [reflexivity|]. split; [lia|]. split; [lia|]. split.
  - intro E; rewrite E in Hty; discriminate.
  - unfold has_memory. apply existsb_exists. exists r; split; [exact Hin|].
    apply String.eqb_refl.
Qed.

Lemma getMemoriesForCompression_selects' olderThan level w :
  exists ms,
    getMemoriesForCompression olderThan level (Some 1000) w = (Ok ms, w)
    /\ forall m, In m ms -> has_memory (db w) (id m) = true.
Proof.
  destruct (getMemoriesForCompression_selects olderThan level (Some 1000) w)
    as [ms [Hrun H]].
  exists ms; split; [exact Hrun|].
  intros m Hm. destruct (H m Hm) as [l [_ [_ [_ [_ Hh]]]]]. exact Hh.
Qed.

(** C3.  Archival selects a record whose compression level is 0: the
    90-day-old note that no stage ever compacted is returned by the
    selection that [archiveOldMemories] runs (level bound 2) and is turned
    into an archive record, its level still 0.  What does hold of every
    selection is the upper bound: a record returned for level bound [l] has
    a level of at most [l], so the weekly stage (bound 0) takes no record
    above level 0 and the monthly stage (bound 1) none above level 1. *)
Theorem archival_selects_uncompacted_record :
  (selected (eval (getMemoriesForCompression
                     (day 2024 6 1 - 90 * dayInMs) 2 (Some 1000))
                  stale_note)
   = [("m1", Some 0)]
   /\ eval (archiveOldMemories config) stale_note = Ok (1, 0)
   /\ map (fun r => (Row.id r, Row.memory_type r, Row.compression_level r))
          (structured_memories (db (exec (archiveOldMemories config) stale_note)))
      = [("m1", Archive, 0)])
  /\ forall (olderThan bound : Z) (limit : option Z) (w : World),
     exists ms,
       eval (getMemoriesForCompression olderThan bound limit) w = Ok ms
       /\ forall m, In m ms ->
            exists l, compressionLevel m = Some l /\ l <= bound.
Proof.
  split; [vm_compute; repeat split|].
  intros olderThan bound limit w.
  destruct (getMemoriesForCompression_selects olderThan bound limit w)
    as [ms [Hrun H]].
  exists ms. unfold eval. rewrite Hrun. split; [reflexivity|].
  intros m Hm. destruct (H m Hm) as [l [Hl [Hle _]]].
  exists l; split; assumption.
Qed.

End Selection.

(* ================================================================== *)
(** ** The shape shared by the weekly and the monthly stage *)

Module Stage.
Import Store Engine StoreFacts Terms Fixture.
Local Open Scope store_scope.

Lemma has_memory_same w w' mid :
  same_memories w w' -> has_memory (db w') mid = has_memory (db w) mid.
Proof. unfold same_memories, has_memory; intros ->; reflexivity. Qed.

Lemma select_tag_has_tag d n t :
  select_tag_by_name d n = Some t -> has_tag d (tag_id t) = true.
Proof.
  unfold select_tag_by_name, has_tag; intro H.
  apply find_some in H as [Hin _].
  apply existsb_exists. exists t; split; [exact Hin | apply Z.eqb_refl].
Qed.

(** Linking a tag to a memory that exists never throws. *)
Lemma link_tag_ok mid n w :
  has_memory (db w) mid = true ->
  exists w', link_tag mid n w = (Ok tt, w') /\ same_memories w w'.
Proof.
  intro Hm. unfold link_tag, bind, get_db; simpl.
  destruct (select_tag_by_name (db w) n) as [t|] eqn:Hsel; simpl.
  - pose proof (select_tag_has_tag _ _ _ Hsel) as Ht.
    unfold insert_or_ignore_memory_tag, bind, get_db; simpl.
    destruct (has_link (db w) mid (tag_id t)); simpl.
    + eexists; split; reflexivity.
    + rewrite Hm, Ht; simpl. rewrite andb_false_r; simpl.
      eexists; split; reflexivity.
  - unfold Date_now, insert_tag, bind, get_db; simpl. rewrite Hsel; simpl.
    unfold insert_or_ignore_memory_tag, bind, get_db; simpl.
    split_if; simpl.
    + eexists; split; reflexivity.
    + unfold has_memory in *; simpl. rewrite Hm.
      unfold has_tag; simpl. rewrite existsb_app; simpl.
      rewrite Z.eqb_refl, orb_true_r; simpl. rewrite andb_false_r; simpl.
      eexists; split; reflexivity.
Qed.

Lemma for_each_ok {A} (P : World -> Prop) (body : A -> M unit) xs :
  (forall x w, P w -> exists w', body x w = (Ok tt, w') /\ P w') ->
  forall w, P w -> exists w', for_each xs body w = (Ok tt, w') /\ P w'.
Proof.
  intro Hbody. induction xs as [|x xs IH]; intros w Hw; simpl.
  - exists w; split; [reflexivity | exact Hw].
  - destruct (Hbody x w Hw) as [w1 [Hrun Hw1]].
    destruct (IH w1 Hw1) as [w2 [Hrun2 Hw2]].
    exists w2. unfold bind. rewrite Hrun. split; assumption.
Qed.

Lemma setTagsForMemory_ok mid ts w :
  has_memory (db w) mid = true ->
  exists w', setTagsForMemory mid ts w = (Ok tt, w') /\ same_memories w w'.
Proof.
  intro Hm. unfold setTagsForMemory, bind at 1.
  unfold delete_memory_tags, bind, get_db, put_db; simpl.
  set (w0 := set_db w _).
  destruct (for_each_ok
              (fun w' => same_memories w w' /\ has_memory (db w') mid = true)
              (link_tag mid) ts) with (w := w0) as [w' [Hrun [Hs _]]].
  - intros x w1 [Hs1 Hm1].
    destruct (link_tag_ok mid x w1 Hm1) as [w2 [Hrun Hs2]].
    exists w2; split; [exact Hrun|]. split.
    + unfold same_memories in *. congruence.
    + rewrite (has_memory_same _ _ _ Hs2). exact Hm1.
  - split; [reflexivity | exact Hm].
  - exists w'; split; assumption.
Qed.

(** [createMemory] either finds the generated id taken and throws, the
    table as it was, or returns with exactly one row appended. *)
Lemma createMemory_cases n w :
  let new_id := uuid_pool w (uuid_next w) in
  (has_memory (db w) new_id = true
   /\ exists e w', createMemory n w = (Throw e, w') /\ same_memories w w')
  \/ (has_memory (db w) new_id = false
      /\ exists m w', createMemory n w = (Ok m, w')
                      /\ structured_memories (db w')
                         = (structured_memories (db w)
                            ++ [new_row n new_id (clock w)])%list).
Proof.
  intro new_id.
  assert (Hrun : createMemory n w
    = bind (insert_memory (new_row n new_id (clock w)))
           (fun _ =>
              bind (match New.tags n with
                    | [] => ret tt
                    | _ :: _ => setTagsForMemory new_id (New.tags n)
                    end)
                   (fun _ =>
                      ret {| id := new_id;
                             content := New.content n;
                             summary := New.summary n;
                             sourcePath := New.sourcePath n;
                             memoryType := New.memoryType n;
                             importanceLevel := New.importanceLevel n;
                             importanceScore := New.importanceScore n;
                             tags := New.tags n;
                             createdAt := clock w;
                             updatedAt := clock w;
                             accessedAt := New.accessedAt n;
                             accessCount := 0;
                             compressedFrom := New.compressedFrom n;
                             compressionLevel := New.compressionLevel n;
                             relatedMemories := New.relatedMemories n;
                             sourceSessionId := New.sourceSessionId n;
                             sourceChannel := New.sourceChannel n |}))
           {| db := db w; clock := clock w; uuid_pool := uuid_pool w;
              uuid_next := S (uuid_next w); tz := tz w |}) by reflexivity.
  rewrite Hrun; clear Hrun.
  set (w0 := {| db := db w; clock := clock w; uuid_pool := uuid_pool w;
                uuid_next := S (uuid_next w); tz := tz w |}).
  destruct (has_memory (db w) new_id) eqn:Hhas.
  - left. split; [reflexivity|]. eexists; eexists; split.
    + apply bind_throw. apply insert_memory_taken. exact Hhas.
    + reflexivity.
  - right. split; [reflexivity|].
    rewrite (bind_ok _ _ _ _ _
               (insert_memory_fresh (new_row n new_id (clock w)) w0 Hhas)).
    set (w1 := set_db w0 _).
    assert (Hm1 : has_memory (db w1) new_id = true).
    { subst w1; unfold has_memory; simpl. rewrite existsb_app; simpl.
      rewrite String.eqb_refl. apply orb_true_r. }
    destruct (New.tags n) as [|t ts] eqn:Htags.
    + unfold bind, ret; simpl. eexists; eexists; split; reflexivity.
    + destruct (setTagsForMemory_ok new_id (t :: ts) w1 Hm1) as [w2 [Hrun Hs]].
      rewrite (bind_ok _ _ _ _ _ Hrun).
      eexists; eexists; split; [reflexivity|].
      unfold same_memories in Hs. rewrite Hs. reflexivity.
Qed.

(** Marking the sources changes nothing and never throws. *)
Lemma marks_void level ms : forall w,
  for_each ms (fun mem =>
    _ <- updateMemory (id mem) (Upd_compressionLevel level) ;; ret tt) w
  = (Ok tt, w).
Proof.
  induction ms as [|m ms IH]; intro w; simpl; [reflexivity|].
  destruct (UpdateFrame.updateMemory_unwritten_run (id m) None None None None
              None (Some level) None None None w) as [o Ho].
  unfold bind at 1. unfold bind at 1.
  change (unwritten None None None None None (Some level)
            None None None) with (Upd_compressionLevel level) in Ho.
  rewrite Ho. simpl. apply IH.
Qed.

(** [generateSummary] always yields text. *)
Lemma app_nonempty (s t : string) : s <> EmptyString -> (s ++ t) <> EmptyString.
Proof. destruct s; simpl; [tauto | discriminate]. Qed.

Lemma fold_app_nonempty {A} (f : A -> string) (l : list A) : forall init,
  init <> EmptyString ->
  fold_left (fun acc x => acc ++ f x) l init <> EmptyString.
Proof.
  induction l as [|x l IH]; intros init H; simpl; [exact H|].
  apply IH. apply app_nonempty. exact H.
Qed.

Lemma generateSummary_text ms weekly :
  exists t, if_text (generateSummary ms weekly) = Some t.
Proof.
  assert (H : forall s, s <> EmptyString -> exists t, if_text (Some s) = Some t).
  { intros [|c s] Hs; [contradiction | eexists; reflexivity]. }
  unfold generateSummary. cbv zeta. apply H.
  match goal with
  | |- match ?l with [] => ?a | _ :: _ => fold_left ?f ?xs ?i end <> _ =>
      assert (Ha : a <> EmptyString);
      [| destruct l;
         [exact Ha
         | apply (fold_app_nonempty (fun line => "- " ++ JS.trim line ++ JS.nl));
           apply app_nonempty; exact Ha]]
  end.
  match goal with
  | |- match ?l with [] => ?a | _ :: _ => fold_left ?f ?xs ?i end <> _ =>
      assert (Hb : a <> EmptyString);
      [| destruct l;
         [exact Hb
         | apply (fold_app_nonempty
                    (fun header => "- " ++ strip_header header ++ JS.nl));
           apply app_nonempty; exact Hb]]
  end.
  destruct weekly; discriminate.
Qed.

(** Every member of a group is one of the grouped records. *)
Lemma group_push_members gs k m g x :
  In g (group_push gs k m) -> In x (snd g) ->
  x = m \/ exists g0, In g0 gs /\ In x (snd g0).
Proof.
  induction gs as [|[k0 ms0] gs IH]; simpl.
  - intros [<-|[]] Hx; simpl in Hx. destruct Hx as [->|[]]. left; reflexivity.
  - destruct (String.eqb k0 k).
    + intros [<-|Hg] Hx; simpl in *.
      * apply in_app_or in Hx as [Hx|[->|[]]]; [|left; reflexivity].
        right. exists (k0, ms0); split; [left; reflexivity | exact Hx].
      * right. exists g; split; [right; exact Hg | exact Hx].
    + intros [<-|Hg] Hx.
      * right. exists (k0, ms0); split; [left; reflexivity | exact Hx].
      * destruct (IH Hg Hx) as [->|[g0 [Hg0 Hx0]]]; [left; reflexivity|].
        right. exists g0; split; [right; exact Hg0 | exact Hx0].
Qed.

Lemma group_by_members (key : StructuredMemory -> string) ms : forall gs g x,
  In g (fold_left (fun groups m => group_push groups (key m) m) ms gs) ->
  In x (snd g) ->
  In x ms \/ exists g0, In g0 gs /\ In x (snd g0).
Proof.
  induction ms as [|m ms IH]; intros gs g x Hg Hx; simpl in *.
  - right. exists g; split; assumption.
  - destruct (IH _ _ _ Hg Hx) as [H|[g0 [Hg0 Hx0]]]; [left; right; exact H|].
    destruct (group_push_members _ _ _ _ _ Hg0 Hx0) as [->|H].
    + left; left; reflexivity.
    + right; exact H.
Qed.

Lemma parseDurationM_run s w :
  parseDurationM s w
  = match parseDuration s with
    | Ok v => (Ok v, w)
    | Throw e => (Throw e, w)
    end.
Proof. unfold parseDurationM. destruct (parseDuration s); reflexivity. Qed.

(** One group of a stage, after its summary text is known: either one
    summary row is appended and [created] grows by one, or the table is
    unchanged and [errors] grows by one.  The marking loop changes
    nothing. *)
Lemma stage_group_run (n : New.t) (level : Z) (ms : list StructuredMemory)
      c e w :
  exists c' e' w' new,
    try_catch
      (_ <- createMemory n ;;
       try_catch
         (for_each ms (fun mem =>
            _ <- updateMemory (id mem) (Upd_compressionLevel level) ;; ret tt) ;;;
          ret (c + 1, e))
         (fun _ => ret (c + 1, e + 1)))
      (fun _ => ret (c, e + 1)) w
    = (Ok (c', e'), w')
    /\ structured_memories (db w') = (structured_memories (db w) ++ new)%list
    /\ (new = [] \/ new = [new_row n (uuid_pool w (uuid_next w)) (clock w)])
    /\ Z.of_nat (List.length new) = c' - c
    /\ (c' - c) + (e' - e) = 1.
Proof.
  unfold try_catch at 1.
  destruct (createMemory_cases n w)
    as [[_ [err [w1 [Hrun Hs]]]]|[_ [m [w1 [Hrun Hrows]]]]].
  - rewrite (bind_throw _ _ _ _ _ Hrun). simpl.
    exists c, (e + 1), w1, []. repeat split.
    + unfold same_memories in Hs. rewrite Hs, app_nil_r. reflexivity.
    + left; reflexivity.
    + simpl; lia.
    + lia.
  - rewrite (bind_ok _ _ _ _ _ Hrun).
    unfold try_catch at 1. rewrite (bind_ok _ _ _ _ _ (marks_void level ms w1)).
    simpl.
    exists (c + 1), e, w1, [new_row n (uuid_pool w (uuid_next w)) (clock w)].
    repeat split.
    + exact Hrows.
    + right; reflexivity.
    + simpl; lia.
    + lia.
Qed.

(** The loop of a stage over its groups, for a body that appends rows
    satisfying [P] and counts each eligible group once. *)
Lemma stage_loop (P : Row.t -> Prop)
      (body : string * list StructuredMemory -> Counts -> M Counts)
      (elig : string * list StructuredMemory -> bool) gs :
  (forall g c e w, In g gs ->
     exists c' e' w' new,
       body g (c, e) w = (Ok (c', e'), w')
       /\ structured_memories (db w') = (structured_memories (db w) ++ new)%list
       /\ Forall P new
       /\ Z.of_nat (List.length new) = c' - c
       /\ (c' - c) + (e' - e) = Z.of_nat (List.length (filter elig [g]))) ->
  forall c e w,
  exists c' e' w' new,
    for_groups gs body (c, e) w = (Ok (c', e'), w')
    /\ structured_memories (db w') = (structured_memories (db w) ++ new)%list
    /\ Forall P new
    /\ Z.of_nat (List.length new) = c' - c
    /\ (c' - c) + (e' - e) = Z.of_nat (List.length (filter elig gs)).
Proof.
  induction gs as [|g gs IH]; intros Hgs c e w.
  - exists c, e, w, []; simpl. rewrite app_nil_r.
    repeat split; try lia. constructor.
  - destruct (Hgs g c e w (or_introl eq_refl))
      as [c1 [e1 [w1 [new1 [Hrun [Hrows [Hall [Hlen Hsum]]]]]]]].
    destruct (IH (fun g' c' e' w' Hg' => Hgs g' c' e' w' (or_intror Hg'))
                 c1 e1 w1)
      as [c2 [e2 [w2 [new2 [Hrun2 [Hrows2 [Hall2 [Hlen2 Hsum2]]]]]]]].
    exists c2, e2, w2, (new1 ++ new2)%list.
    split; [|split; [|split; [|split]]].
    + cbn [for_groups]. rewrite (bind_ok _ _ _ _ _ Hrun). exact Hrun2.
    + rewrite Hrows2, Hrows, app_assoc. reflexivity.
    + apply Forall_app; split; assumption.
    + rewrite length_app, Nat2Z.inj_add. lia.
    + change (g :: gs) with ([g] ++ gs)%list.
      rewrite filter_app, length_app, Nat2Z.inj_add. lia.
Qed.

End Stage.

(* ================================================================== *)
(** ** Weekly compaction *)

Module Weekly.
Import Store Engine StoreFacts Selection Stage Terms Fixture.
Local Open Scope store_scope.

Lemma weekly_step config w0 g c e w :
  (forall m, In m (snd g) -> has_memory (db w0) (id m) = true) ->
  exists c' e' w' new,
    weekly_body config g (c, e) w = (Ok (c', e'), w')
    /\ structured_memories (db w') = (structured_memories (db w) ++ new)%list
    /\ Forall (weekly_summary_of config w0) new
    /\ Z.of_nat (List.length new) = c' - c
    /\ (c' - c) + (e' - e)
       = Z.of_nat (List.length (filter (weekly_eligible config) [g])).
Proof.
  intro Hin. unfold weekly_body, weekly_eligible; cbn [filter].
  destruct (Z.of_nat (List.length (snd g)) <? minMemoriesForSummary config)
    eqn:Hsz; cbn [negb].
  - exists c, e, w, []; simpl. rewrite app_nil_r.
    repeat split; try lia. constructor.
  - apply Z.ltb_ge in Hsz. destruct g as [key ms]; cbn [snd] in *.
    unfold weekly_group; cbv beta iota.
    destruct (generateSummary_text ms true) as [text ->].
    destruct (stage_group_run
                (summary_record text ("memory/summaries/week-" ++ key ++ ".md")
                   (calculateAverageImportance ms) "weekly-summary" ms 1)
                1 ms c e w)
      as [c1 [e1 [w1 [new1 [Hrun [Hrows [Hnew [Hlen Hsum]]]]]]]].
    exists c1, e1, w1, new1.
    split; [exact Hrun|]. split; [exact Hrows|]. split; [|split; [exact Hlen|]].
    + destruct Hnew as [-> | ->]; constructor; [|constructor].
      repeat split. exists (map id ms). repeat split.
      * rewrite length_map. exact Hsz.
      * intros i Hi. apply in_map_iff in Hi as [x [<- Hx]]. apply Hin; exact Hx.
    + simpl. lia.
Qed.

(** The weekly stage as a whole. *)
Lemma compressToWeekly_run config w :
  (exists e, compressToWeekly config w = (Throw e, w)
             /\ exists e', parseDuration (dailyToWeekly config) = Throw e')
  \/ (exists c e w' new,
        compressToWeekly config w = (Ok (c, e), w')
        /\ structured_memories (db w')
           = (structured_memories (db w) ++ new)%list
        /\ Forall (weekly_summary_of config w) new
        /\ Z.of_nat (List.length new) = c).
Proof.
  unfold compressToWeekly.
  pose proof (parseDurationM_run (dailyToWeekly config) w) as Hparse.
  destruct (parseDuration (dailyToWeekly config)) as [minAge|err].
  2:{ left. exists err; split; [|exists err; reflexivity].
      apply bind_throw. exact Hparse. }
  right. rewrite (bind_ok _ _ _ _ _ Hparse).
  rewrite (bind_ok Date_now _ w (clock w) w eq_refl).
  destruct (getMemoriesForCompression_selects' (clock w - minAge) 0 w)
    as [ms [Hsel Hms]].
  rewrite (bind_ok _ _ _ _ _ Hsel).
  rewrite (bind_ok get_tz _ w (tz w) w eq_refl).
  fold (weekly_body config).
  destruct (stage_loop (weekly_summary_of config w) (weekly_body config)
              (weekly_eligible config) (groupByWeek (tz w) ms))
    with (c := 0) (e := 0) (w := w)
    as [c [e [w' [new [Hrun [Hrows [Hall [Hlen _]]]]]]]].
  - intros g c e w1 Hg. apply weekly_step.
    intros m Hm. apply Hms.
    destruct (group_by_members (weekKey (tz w)) ms [] g m Hg Hm)
      as [H|[g0 [[] _]]]. exact H.
  - exists c, e, w', new.
    split; [exact Hrun|]. split; [exact Hrows|]. split; [exact Hall|]. lia.
Qed.

(** What marking a source does: nothing, whatever the store holds. *)
Lemma marking_is_void mid level w :
  exec (updateMemory mid (Upd_compressionLevel level)) w = w.
Proof.
  exact (UpdateFrame.updateMemory_unwritten mid None None None None None
           (Some level) None None None w).
Qed.

(** C1.  On the six notes weekly compaction creates one summary record of
    level 1 whose [compressedFrom] lists the six ids, and the six originals
    still exist; but each of them still reports compression level 0, not 1:
    the update that should mark them writes no column.  A second run
    therefore selects the same six notes again and adds a second summary.
    Nor is this particular to the six notes: on every store the stage
    leaves every row it found as it was, and only appends summaries. *)
Theorem weekly_compaction_leaves_sources_at_level_0 :
  (eval (compressToWeekly config) six_notes = Ok (1, 0)
   /\ listing after
      = [("m1", Note, 0, None); ("m2", Note, 0, None); ("m3", Note, 0, None);
         ("m4", Note, 0, None); ("m5", Note, 0, None); ("m6", Note, 0, None);
         ("m7", Summary, 1, Some ["m1"; "m2"; "m3"; "m4"; "m5"; "m6"])]
   /\ map (fun mid => reported_level mid after)
          ["m1"; "m2"; "m3"; "m4"; "m5"; "m6"]
      = [Some 0; Some 0; Some 0; Some 0; Some 0; Some 0]
   /\ eval (compressToWeekly config) after = Ok (1, 0)
   /\ map (fun r => (Row.id r, Row.compressed_from r))
          (filter (fun r => MemoryType_eqb (Row.memory_type r) Summary)
                  (structured_memories
                     (db (exec (compressToWeekly config) after))))
      = [("m7", Some ["m1"; "m2"; "m3"; "m4"; "m5"; "m6"]);
         ("m8", Some ["m1"; "m2"; "m3"; "m4"; "m5"; "m6"])])
  /\ forall (cfg : CompressionConfig) (w : World),
     exists new : list Row.t,
       structured_memories (db (exec (compressToWeekly cfg) w))
       = (structured_memories (db w) ++ new)%list
       /\ Forall (weekly_summary_of cfg w) new.
Proof.
  split; [vm_compute; repeat split|].
  intros cfg w. unfold exec.
  destruct (compressToWeekly_run cfg w)
    as [[err [Hrun _]] | [c [e [w' [new [Hrun [Hrows [Hall _]]]]]]]];
    rewrite Hrun; simpl.
  - exists []. rewrite app_nil_r. split; [reflexivity | constructor].
  - exists new. split; assumption.
Qed.

End Weekly.

(* ================================================================== *)
(** ** Tag counts under [setTagsForMemory] *)

Module TagCounts.
Import Store Terms Fixture.
Local Open Scope store_scope.

(** C7.  After the memory is created with tag [a] the count of [a] is 1, as
    is its number of links; after its tag set is replaced by [b] (or by
    nothing) the link of [a] is gone but the count of [a] is still 1: the
    count of a removed tag is not recomputed. *)
Theorem removed_tag_keeps_stale_count :
  counts tagged = [("a", 1, 1)]
  /\ counts (exec (updateMemory "m1" (retag ["b"])) tagged)
     = [("a", 1, 0); ("b", 1, 1)]
  /\ counts (exec (updateMemory "m1" (retag [])) tagged) = [("a", 1, 0)].
Proof. vm_compute. repeat split. Qed.

End TagCounts.

(* ================================================================== *)
(** ** What a search writes to the access log *)

Module SearchLog.
Import Store Terms Fixture.
Local Open Scope store_scope.

(** Whatever the store holds: a search that returns adds exactly one row to
    the access log, the row of the pseudo id [search-query]. *)
Lemma search_adds_one_pseudo_row cfg q opts w rs w' :
  Backend.search cfg false q opts w = (Ok rs, w') ->
  memory_access_log (db w')
  = (memory_access_log (db w)
     ++ [{| log_id := access_log_seq (db w) + 1; memory_id := "search-query";
            accessed_at := clock w; query := Some q;
            action := ActSearch |}])%list.
Proof.
  unfold Backend.search, recordAccess.
  unfold bind at 1. unfold bind at 1, Date_now at 1.
  unfold bind at 1. unfold insert_access_log at 1, bind at 1, get_db at 1.
  destruct (foreign_keys (db w) && negb (has_memory (db w) "search-query"))%bool;
    [discriminate|].
  unfold put_db, update_memory, searchMemories, bind, get_db, put_db, Date_now,
    ret; simpl.
  intro H; inversion H; subst; reflexivity.
Qed.

(** C9.  A search that returns the note records no access for it: the one
    row added to the access log names the pseudo id [search-query], and the
    note's access count and access time stay as they were.  With foreign
    keys enforced the same search throws before it reads anything, because
    that pseudo id is no memory.  On every store, a search that returns has
    added that one row to the log and no other. *)
Theorem search_logs_no_access_for_its_results :
  (found (fst (search_hello false)) = Ok [("memory/notes.md", "hello world")]
   /\ map (fun e => (memory_id e, action e, query e))
          (memory_access_log (db (snd (search_hello false))))
      = [("search-query", ActSearch, Some "hello")]
   /\ map (fun r => (Row.id r, Row.access_count r, Row.accessed_at r))
          (structured_memories (db (snd (search_hello false))))
      = [("m1", 0, None)]
   /\ found (fst (search_hello true)) = Throw "FOREIGN KEY constraint failed"
   /\ memory_access_log (db (snd (search_hello true))) = [])
  /\ forall (cfg : QueryConfig) (q : string) (opts : Backend.SearchOpts)
            (w : World) rs w',
     Backend.search cfg false q opts w = (Ok rs, w') ->
     memory_access_log (db w')
     = (memory_access_log (db w)
        ++ [{| log_id := access_log_seq (db w) + 1;
               memory_id := "search-query"; accessed_at := clock w;
               query := Some q; action := ActSearch |}])%list.
Proof.
  split; [vm_compute; repeat split|].
  apply search_adds_one_pseudo_row.
Qed.

(** The sibling operation [readFile] does record an access for each record
    it returns. *)
Lemma readFile_logs_its_records :
  let w := exec (Backend.readFile false "memory/notes.md" None None "")
                (one_note true) in
  map (fun e => (memory_id e, action e)) (memory_access_log (db w))
  = [("m1", ActRead)]
  /\ map (fun r => (Row.id r, Row.access_count r, Row.accessed_at r))
         (structured_memories (db w))
     = [("m1", 1, Some 5000)].
Proof. vm_compute. repeat split. Qed.

End SearchLog.

(* ================================================================== *)
(** ** Importance scores *)

Module Scoring.
Import Store Terms Fixture.
Local Open Scope store_scope.

(** [Math.min(1, Math.max(0, x))]: the two comparisons, then arithmetic. *)
Ltac clamp :=
  unfold Rmin, Rmax;
  repeat match goal with
         | |- context [Rle_dec 0 ?b] => destruct (Rle_dec 0 b)
         | |- context [Rle_dec ?a ?b] => destruct (Rle_dec a b)
         end;
  lra.

Lemma clamp_bounds (x : R) : (0 <= Rmin 1 (Rmax 0 x) <= 1)%R.
Proof. clamp. Qed.

Lemma clamp_le (x y : R) : (0 <= y <= 1)%R -> (x <= y)%R ->
  (Rmin 1 (Rmax 0 x) <= y)%R.
Proof. intros Hy Hxy. clamp. Qed.

Lemma newScore_bounds cfg now mem : (0 <= newScore cfg now mem <= 1)%R.
Proof. apply clamp_bounds. Qed.

Lemma Math_pow_pos (d a : R) : (0 < d)%R -> JS.Math_pow d a = Rpower d a.
Proof.
  intro H. unfold JS.Math_pow. destruct (Req_dec_T d 0); [lra | reflexivity].
Qed.

Lemma Rpower_le_1 (d a : R) : (0 < d <= 1)%R -> (0 <= a)%R ->
  (0 < Rpower d a <= 1)%R.
Proof.
  intros [Hd0 Hd1] Ha. unfold Rpower. split; [apply exp_pos|].
  assert (Hln : (ln d <= 0)%R).
  { destruct Hd1 as [Hlt|Heq].
    - left. rewrite <- ln_1. apply ln_increasing; assumption.
    - right. rewrite Heq. apply ln_1. }
  assert (Hm : (a * ln d <= 0)%R) by nra.
  rewrite <- exp_0.
  destruct Hm as [Hlt|Heq].
  - left. apply exp_increasing; exact Hlt.
  - right. rewrite Heq. reflexivity.
Qed.

Lemma Rpower_lt_1 (d a : R) : (0 < d < 1)%R -> (0 < a)%R -> (Rpower d a < 1)%R.
Proof.
  intros [Hd0 Hd1] Ha. unfold Rpower.
  assert (Hln : (ln d < 0)%R).
  { rewrite <- ln_1. apply ln_increasing; assumption. }
  rewrite <- exp_0. apply exp_increasing. nra.
Qed.

Lemma for_each_recalc cfg now l : forall w,
  for_each l (fun mem =>
    update_memory (Row.id mem)
      (fun r => assign r (SetImportanceScore (newScore cfg now mem)))) w
  = (Ok tt,
     set_db w (with_memories (db w)
                 (recalc_rows cfg now l (structured_memories (db w))))).
Proof.
  induction l as [|mem l IH]; intro w; simpl.
  - unfold ret, set_db, with_memories. destruct w as [d c p n z]; destruct d;
      reflexivity.
  - unfold bind at 1. unfold update_memory at 1, bind, get_db, put_db; simpl.
    rewrite IH; simpl. reflexivity.
Qed.

Lemma recalculateImportance_run cfg w :
  importance_enabled (importance cfg) = true ->
  recalculateImportance cfg w
  = (Ok tt,
     set_db w (with_memories (db w)
                 (recalc_rows (importance cfg) (clock w)
                    (structured_memories (db w))
                    (structured_memories (db w))))).
Proof.
  intro Hen. unfold recalculateImportance. rewrite Hen; simpl.
  unfold bind, get_db, Date_now; simpl.
  apply for_each_recalc.
Qed.

Lemma recalc_rows_clamped cfg now l : forall t r',
  In r' (recalc_rows cfg now l t) ->
  (0 <= Row.importance_score r' <= 1)%R
  \/ (In r' t /\ ~ In (Row.id r') (map Row.id l)).
Proof.
  induction l as [|mem l IH]; intros t r' Hin; simpl in *.
  - right; split; [exact Hin | tauto].
  - apply IH in Hin as [Hc | [Hin Hnot]]; [left; exact Hc|].
    apply in_map_iff in Hin as [r [Hr Hin]]. unfold rescore_by in Hr.
    destruct (String.eqb (Row.id r) (Row.id mem)) eqn:E.
    + left. subst r'. destruct r; simpl. apply newScore_bounds.
    + right. subst r'. split; [exact Hin|].
      intros [H|H]; [|tauto].
      rewrite H, String.eqb_refl in E; discriminate.
Qed.






(** *** Successive recalculations *)

Lemma find_id_notin (x : string) (l : list Row.t) :
  ~ In x (map Row.id l) ->
  find (fun m => String.eqb x (Row.id m)) l = None.
Proof.
  induction l as [|m l IH]; simpl; intro H; [reflexivity|].
  destruct (String.eqb x (Row.id m)) eqn:E.
  - apply String.eqb_eq in E. exfalso; apply H; left; congruence.
  - apply IH. tauto.
Qed.

Lemma recalc_rows_pick cfg now l :
  NoDup (map Row.id l) ->
  forall t, recalc_rows cfg now l t = map (pick cfg now l) t.
Proof.
  induction l as [|mem l IH]; intros Hnd t; simpl.
  - unfold pick; simpl. symmetry; apply map_id.
  - inversion Hnd as [|x xs Hnotin Hnd']; subst.
    rewrite (IH Hnd'). rewrite map_map. apply map_ext. intro r.
    unfold rescore_by, pick; cbn [find].
    destruct (String.eqb (Row.id r) (Row.id mem)) eqn:E.
    + apply String.eqb_eq in E.
      rewrite find_id_notin; [reflexivity|].
      simpl. rewrite E. exact Hnotin.
    + reflexivity.
Qed.

Lemma find_self (t : list Row.t) r :
  NoDup (map Row.id t) -> In r t ->
  find (fun m => String.eqb (Row.id r) (Row.id m)) t = Some r.
Proof.
  induction t as [|m t IH]; simpl; intros Hnd Hin; [contradiction|].
  inversion Hnd as [|x xs Hnotin Hnd']; subst.
  destruct Hin as [->|Hin].
  - rewrite String.eqb_refl; reflexivity.
  - destruct (String.eqb (Row.id r) (Row.id m)) eqn:E.
    + apply String.eqb_eq in E. exfalso; apply Hnotin.
      rewrite <- E. apply in_map; exact Hin.
    + apply IH; assumption.
Qed.

Lemma recalc_rows_self cfg now t :
  NoDup (map Row.id t) -> recalc_rows cfg now t t = map (rescore cfg now) t.
Proof.
  intro Hnd. rewrite (recalc_rows_pick cfg now t Hnd).
  apply map_ext_in. intros r Hr. unfold pick.
  rewrite (find_self t r Hnd Hr). reflexivity.
Qed.

Lemma rescore_id cfg now r : Row.id (rescore cfg now r) = Row.id r.
Proof. destruct r; reflexivity. Qed.

Lemma map_rescore_ids cfg now t :
  map Row.id (map (rescore cfg now) t) = map Row.id t.
Proof. rewrite map_map. apply map_ext. intro; apply rescore_id. Qed.

Lemma find_rescore cfg now mid t :
  find (fun r => String.eqb (Row.id r) mid) (map (rescore cfg now) t)
  = option_map (rescore cfg now) (find (fun r => String.eqb (Row.id r) mid) t).
Proof.
  induction t as [|r t IH]; cbn [map find option_map]; [reflexivity|].
  rewrite rescore_id. destruct (String.eqb (Row.id r) mid); [reflexivity|exact IH].
Qed.

Lemma select_self (t : list Row.t) r :
  NoDup (map Row.id t) -> In r t ->
  find (fun m => String.eqb (Row.id m) (Row.id r)) t = Some r.
Proof.
  intros Hnd Hin. rewrite <- (find_self t r Hnd Hin).
  clear. induction t as [|m t IH]; simpl; [reflexivity|].
  rewrite (String.eqb_sym (Row.id m) (Row.id r)), IH. reflexivity.
Qed.

(** The world after a recalculation at clock [t], when ids are unique. *)
Lemma recalc_at cfg t w :
  importance_enabled (importance cfg) = true ->
  NoDup (map Row.id (structured_memories (db w))) ->
  structured_memories
    (db (exec (recalculateImportance cfg) (set_clock t w)))
  = map (rescore (importance cfg) t) (structured_memories (db w)).
Proof.
  intros Hen Hnd. unfold exec.
  rewrite (recalculateImportance_run cfg (set_clock t w) Hen); simpl.
  apply recalc_rows_self; exact Hnd.
Qed.

Lemma dayInMs_val : IZR dayInMs = 86400000%R.
Proof. reflexivity. Qed.

(** The score written for a never-accessed row that gets no recency boost
    is at most the score it had. *)
Lemma newScore_decays cfg now r :
  (0 < decayFactor cfg <= 1)%R ->
  (0 <= Row.importance_score r <= 1)%R ->
  Row.access_count r = 0 ->
  Row.created_at r <= now ->
  (30 * dayInMs <= now - Row.created_at r \/ (recencyBoost cfg <= 0)%R) ->
  (newScore cfg now r <= Row.importance_score r)%R.
Proof.
  intros Hd Hs Hac Hage Hboost. unfold newScore. rewrite Hac.
  set (a := (IZR (now - Row.created_at r) / IZR dayInMs)%R).
  assert (Ha : (0 <= a)%R).
  { unfold a. rewrite dayInMs_val. apply Rmult_le_pos; [|lra].
    apply IZR_le. lia. }
  rewrite Math_pow_pos by lra.
  pose proof (Rpower_le_1 _ _ Hd Ha) as Hp.
  assert (Hb : (Rmax 0 (1 - a / 30) * recencyBoost cfg <= 0)%R).
  { destruct Hboost as [Hold | Hrb].
    - assert (30 <= a)%R.
      { unfold a. rewrite dayInMs_val. apply IZR_le in Hold.
        rewrite mult_IZR in Hold. rewrite dayInMs_val in Hold. lra. }
      rewrite Rmax_left by lra. lra.
    - pose proof (Rmax_l 0 (1 - a / 30)). nra. }
  apply clamp_le; [exact Hs | nra].
Qed.

Lemma recalc_now cfg w :
  importance_enabled (importance cfg) = true ->
  NoDup (map Row.id (structured_memories (db w))) ->
  structured_memories (db (exec (recalculateImportance cfg) w))
  = map (rescore (importance cfg) (clock w)) (structured_memories (db w)).
Proof.
  intros Hen Hnd. unfold exec.
  rewrite (recalculateImportance_run cfg w Hen); simpl.
  apply recalc_rows_self; exact Hnd.
Qed.

Lemma score_after_recalc cfg w r :
  importance_enabled (importance cfg) = true ->
  NoDup (map Row.id (structured_memories (db w))) ->
  In r (structured_memories (db w)) ->
  score_of (Row.id r) (exec (recalculateImportance cfg) w)
  = Some (newScore (importance cfg) (clock w) r).
Proof.
  intros Hen Hnd Hin. unfold score_of, select_memory.
  rewrite (recalc_now cfg w Hen Hnd), find_rescore.
  rewrite (select_self _ r Hnd Hin). destruct r; reflexivity.
Qed.

(** The score written for the record of the example. *)
Lemma newScore_example cfg now r :
  decayFactor cfg = 0.95%R ->
  Row.importance_score r = 0.9%R ->
  Row.access_count r = 0 ->
  now - Row.created_at r = 40 * dayInMs ->
  (newScore cfg now r < 0.9)%R.
Proof.
  intros Hd Hs Hac Hage. unfold newScore. rewrite Hd, Hs, Hac, Hage.
  replace (IZR (40 * dayInMs) / IZR dayInMs)%R with 40%R
    by (rewrite mult_IZR, dayInMs_val; lra).
  rewrite Math_pow_pos by lra.
  assert (Hp : (0 < Rpower 0.95 40 < 1)%R).
  { split; [apply exp_pos | apply Rpower_lt_1; lra]. }
  rewrite (Rmax_left 0 (1 - 40 / 30)) by lra.
  clamp.
Qed.

(** C6 (amended).  For a record that was never accessed, with a decay
    factor in (0,1], two successive recalculations give a score after the
    second that is at most the score after the first, provided the record
    gets no recency boost at the second one: it is then at least 30 days
    old, or the configured recency boost is not positive.  And a record
    with score 0.9, created 40 days ago, never accessed, recalculates with
    decay factor 0.95 to a score strictly below 0.9. *)
Theorem recalculation_decays_without_recency_boost :
  (forall (cfg : StructuredMemoryConfig) (w : World) (r : Row.t) (t1 t2 : Z),
      importance_enabled (importance cfg) = true ->
      (0 < decayFactor (importance cfg) <= 1)%R ->
      NoDup (map Row.id (structured_memories (db w))) ->
      In r (structured_memories (db w)) ->
      Row.access_count r = 0 ->
      Row.created_at r <= t2 ->
      (30 * dayInMs <= t2 - Row.created_at r
       \/ (recencyBoost (importance cfg) <= 0)%R) ->
      let w1 := exec (recalculateImportance cfg) (set_clock t1 w) in
      let w2 := exec (recalculateImportance cfg) (set_clock t2 w1) in
      exists s1 s2,
        score_of (Row.id r) w1 = Some s1
        /\ score_of (Row.id r) w2 = Some s2
        /\ (s2 <= s1)%R)
  /\ (forall (cfg : StructuredMemoryConfig) (w : World) (r : Row.t),
        importance_enabled (importance cfg) = true ->
        decayFactor (importance cfg) = 0.95%R ->
        NoDup (map Row.id (structured_memories (db w))) ->
        In r (structured_memories (db w)) ->
        Row.importance_score r = 0.9%R ->
        Row.access_count r = 0 ->
        clock w - Row.created_at r = 40 * dayInMs ->
        exists s,
          score_of (Row.id r) (exec (recalculateImportance cfg) w) = Some s
          /\ (s < 0.9)%R).
Proof.
  split.
  - intros cfg w r t1 t2 Hen Hd Hnd Hin Hac Hage Hboost w1 w2.
    set (r1 := rescore (importance cfg) t1 r).
    assert (Hrows1 : structured_memories (db w1)
                     = map (rescore (importance cfg) t1)
                           (structured_memories (db w))).
    { subst w1. rewrite (recalc_now cfg (set_clock t1 w) Hen Hnd). reflexivity. }
    assert (Hnd1 : NoDup (map Row.id (structured_memories (db w1)))).
    { rewrite Hrows1, map_rescore_ids. exact Hnd. }
    assert (Hin1 : In r1 (structured_memories (db w1))).
    { rewrite Hrows1. apply in_map. exact Hin. }
    exists (newScore (importance cfg) t1 r), (newScore (importance cfg) t2 r1).
    split; [|split].
    + subst w1. apply (score_after_recalc cfg (set_clock t1 w) r Hen Hnd Hin).
    + subst w2.
      replace (Row.id r) with (Row.id r1) by apply rescore_id.
      apply (score_after_recalc cfg (set_clock t2 w1) r1 Hen Hnd1 Hin1).
    + replace (newScore (importance cfg) t1 r) with (Row.importance_score r1)
        by (destruct r; reflexivity).
      apply newScore_decays; try assumption.
      subst r1. destruct r; simpl. apply newScore_bounds.
  - intros cfg w r Hen Hd Hnd Hin Hs Hac Hage.
    exists (newScore (importance cfg) (clock w) r). split.
    + apply score_after_recalc; assumption.
    + apply newScore_example; assumption.
Qed.

Lemma scored_rows s : structured_memories (db (scored s)) = [scored_row s].
Proof. reflexivity. Qed.

Lemma scored_NoDup s : NoDup (map Row.id (structured_memories (db (scored s)))).
Proof.
  rewrite scored_rows; simpl. constructor; [simpl; tauto | constructor].
Qed.

Lemma recalculation_decays_without_recency_boost_witness :
  (let cfg := DEFAULT_STRUCTURED_MEMORY_CONFIG in
   let w1 := exec (recalculateImportance cfg)
                  (set_clock (40 * dayInMs) (scored 0.5)) in
   let w2 := exec (recalculateImportance cfg) (set_clock (41 * dayInMs) w1) in
   exists s1 s2,
     score_of "m1" w1 = Some s1 /\ score_of "m1" w2 = Some s2 /\ (s2 <= s1)%R)
  /\ exists s,
       score_of "m1"
         (exec (recalculateImportance DEFAULT_STRUCTURED_MEMORY_CONFIG)
               (set_clock (40 * dayInMs) (scored 0.9))) = Some s
       /\ (s < 0.9)%R.
Proof.
  split.
  - apply (proj1 recalculation_decays_without_recency_boost
                 DEFAULT_STRUCTURED_MEMORY_CONFIG (scored 0.5) (scored_row 0.5)
                 (40 * dayInMs) (41 * dayInMs)).
    + reflexivity.
    + simpl; lra.
    + apply scored_NoDup.
    + rewrite scored_rows; left; reflexivity.
    + reflexivity.
    + vm_compute; discriminate.
    + left; vm_compute; discriminate.
  - apply (proj2 recalculation_decays_without_recency_boost
                 DEFAULT_STRUCTURED_MEMORY_CONFIG
                 (set_clock (40 * dayInMs) (scored 0.9)) (scored_row 0.9)).
    + reflexivity.
    + reflexivity.
    + apply (scored_NoDup 0.9).
    + change (structured_memories (db (set_clock (40 * dayInMs) (scored 0.9))))
        with (structured_memories (db (scored 0.9))).
      rewrite scored_rows; left; reflexivity.
    + reflexivity.
    + reflexivity.
    + reflexivity.
Defined.

Lemma newScore_at_creation cfg now r :
  recencyBoost cfg = 0.1%R ->
  Row.importance_score r = 0%R ->
  Row.access_count r = 0 ->
  Row.created_at r = now ->
  newScore cfg now r = 0.1%R.
Proof.
  intros Hrb Hs Hac Hc. unfold newScore. rewrite Hrb, Hs, Hac, Hc, Z.sub_diag.
  replace (IZR 0 / IZR dayInMs)%R with 0%R by (rewrite dayInMs_val; lra).
  rewrite (Rmax_right 0 (1 - 0 / 30)) by lra.
  clamp.
Qed.

Lemma newScore_third_day cfg now r :
  decayFactor cfg = 0.95%R ->
  recencyBoost cfg = 0.1%R ->
  Row.importance_score r = 0.1%R ->
  Row.access_count r = 0 ->
  now - Row.created_at r = 3 * dayInMs ->
  (0.1 < newScore cfg now r)%R.
Proof.
  intros Hd Hrb Hs Hac Hage. unfold newScore. rewrite Hd, Hrb, Hs, Hac, Hage.
  replace (IZR (3 * dayInMs) / IZR dayInMs)%R with (INR 3)
    by (rewrite mult_IZR, dayInMs_val; simpl; lra).
  rewrite Math_pow_pos, Rpower_pow by lra.
  replace (INR 3) with 3%R by (simpl; lra).
  rewrite (Rmax_right 0 (1 - 3 / 30)) by lra.
  simpl pow. clamp.
Qed.

(** A note that starts at score 0 and is never accessed: recalculated on
    the day it is written it scores 0.1; recalculated again three days
    later it scores more, against the claim as stated. *)
Lemma young_record_score_rises :
  let cfg := DEFAULT_STRUCTURED_MEMORY_CONFIG in
  let w1 := exec (recalculateImportance cfg) (set_clock 0 (scored 0)) in
  let w2 := exec (recalculateImportance cfg) (set_clock (3 * dayInMs) w1) in
  map (fun r => (Row.id r, Row.access_count r, Row.created_at r))
      (structured_memories (db w2)) = [("m1", 0, 0)]
  /\ exists s1 s2,
       score_of "m1" w1 = Some s1 /\ score_of "m1" w2 = Some s2
       /\ (s1 < s2)%R.
Proof.
  intros cfg w1 w2.
  assert (Hen : importance_enabled (importance cfg) = true) by reflexivity.
  assert (Hrows1 : structured_memories (db w1)
                   = [rescore (importance cfg) 0 (scored_row 0)]).
  { subst w1. rewrite (recalc_now cfg (set_clock 0 (scored 0)) Hen (scored_NoDup 0)).
    reflexivity. }
  assert (Hnd1 : NoDup (map Row.id (structured_memories (db w1)))).
  { rewrite Hrows1. constructor; [simpl; tauto | constructor]. }
  assert (Hs1 : newScore (importance cfg) 0 (scored_row 0) = 0.1%R).
  { apply newScore_at_creation; reflexivity. }
  split.
  - subst w2. rewrite (recalc_now cfg (set_clock (3 * dayInMs) w1) Hen Hnd1).
    change (structured_memories (db (set_clock (3 * dayInMs) w1)))
      with (structured_memories (db w1)).
    rewrite Hrows1. reflexivity.
  - exists (newScore (importance cfg) 0 (scored_row 0)),
           (newScore (importance cfg) (3 * dayInMs)
                     (rescore (importance cfg) 0 (scored_row 0))).
    split; [|split].
    + subst w1.
      apply (score_after_recalc cfg (set_clock 0 (scored 0)) (scored_row 0) Hen
               (scored_NoDup 0)).
      left; reflexivity.
    + subst w2.
      apply (score_after_recalc cfg (set_clock (3 * dayInMs) w1)
               (rescore (importance cfg) 0 (scored_row 0)) Hen Hnd1).
      change (structured_memories (db (set_clock (3 * dayInMs) w1)))
        with (structured_memories (db w1)).
      rewrite Hrows1. left; reflexivity.
    + rewrite Hs1. apply newScore_third_day; try reflexivity.
      exact Hs1.
Qed.

End Scoring.

(* ================================================================== *)
(** ** Monthly compaction *)

Module Monthly.
Import Store Engine StoreFacts Selection Stage Terms Fixture.
Local Open Scope store_scope.

(** *** The process around the store: clock, time zone, supply of ids *)

Lemma ids_drawn_trans j k w1 w2 w3 :
  ids_drawn j w1 w2 -> ids_drawn k w2 w3 -> ids_drawn (j + k) w1 w3.
Proof.
  intros [H1 [H2 [H3 H4]]] [K1 [K2 [K3 K4]]].
  repeat split; try congruence. rewrite K4, H4. apply eq_sym, Nat.add_assoc.
Qed.

Lemma ids_drawn_set_db w d : ids_drawn 0 w (set_db w d).
Proof. repeat split. apply eq_sym, Nat.add_0_r. Qed.

Lemma link_tag_process memoryId tagName w :
  ids_drawn 0 w (exec (link_tag memoryId tagName) w).
Proof.
  unfold exec, link_tag, bind, get_db; simpl.
  destruct (select_tag_by_name (db w) tagName) eqn:Hsel; simpl.
  - unfold insert_or_ignore_memory_tag, bind, get_db; simpl.
    split_if; simpl; [repeat split; apply eq_sym, Nat.add_0_r|].
    split_if; simpl; repeat split; apply eq_sym, Nat.add_0_r.
  - unfold Date_now, insert_tag, bind, get_db; simpl. rewrite Hsel; simpl.
    unfold insert_or_ignore_memory_tag, bind, get_db; simpl.
    split_if; simpl; [repeat split; apply eq_sym, Nat.add_0_r|].
    split_if; simpl; repeat split; apply eq_sym, Nat.add_0_r.
Qed.

Lemma setTagsForMemory_process memoryId tagNames w :
  ids_drawn 0 w (exec (setTagsForMemory memoryId tagNames) w).
Proof.
  unfold setTagsForMemory. unfold exec at 1, bind; simpl.
  apply (for_each_invariant (fun w' => ids_drawn 0 w w')).
  - intros x w1 H.
    apply (ids_drawn_trans 0 0 _ _ _ H), link_tag_process.
  - repeat split. apply eq_sym, Nat.add_0_r.
Qed.

(** [createMemory] draws one id, whether the insert succeeds or not. *)
Lemma createMemory_process n w : ids_drawn 1 w (exec (createMemory n) w).
Proof.
  unfold exec, createMemory. unfold bind at 1, randomUUID. cbn [fst snd].
  unfold bind at 1, Date_now. cbn [fst snd clock].
  set (w0 := {| db := db w; clock := clock w; uuid_pool := uuid_pool w;
                uuid_next := S (uuid_next w); tz := tz w |}).
  assert (H0 : ids_drawn 1 w w0).
  { repeat split. simpl. rewrite Nat.add_1_r. reflexivity. }
  unfold bind at 1.
  match goal with
  | |- context [insert_memory ?r w0] =>
      destruct (has_memory (db w0) (Row.id r)) eqn:Hhas;
      [rewrite (insert_memory_taken r w0 Hhas)
      |rewrite (insert_memory_fresh r w0 Hhas)]
  end; cbn [fst snd].
  - exact H0.
  - match goal with |- context [set_db w0 ?d] => set (w1 := set_db w0 d) end.
    assert (H1 : ids_drawn 1 w w1).
    { apply (ids_drawn_trans 1 0 _ _ _ H0), ids_drawn_set_db. }
    unfold bind at 1.
    destruct (New.tags n) as [|t ts].
    + cbn. exact H1.
    + pose proof (setTagsForMemory_process
                    (uuid_pool w (uuid_next w)) (t :: ts) w1) as H2.
      unfold exec in H2.
      destruct (setTagsForMemory (uuid_pool w (uuid_next w)) (t :: ts) w1)
        as [[[]|e] w2]; cbn [fst snd] in *;
        apply (ids_drawn_trans 1 0 _ _ _ H1 H2).
Qed.

(** *** One group *)

Lemma if_text_some o t : if_text o = Some t -> o = Some t.
Proof. destruct o as [[|c s]|]; simpl; intro H; congruence. Qed.

(** One group of a stage, after its summary text is known.  When the id
    drawn is already in the store the insert is refused, the table stays as
    it is and an error is counted; otherwise the summary row is appended
    and counted, and the marking that follows changes nothing. *)
Lemma stage_group_step (n : New.t) (level : Z) (ms : list StructuredMemory)
      c e w :
  exists w',
    ids_drawn 1 w w'
    /\ if has_memory (db w) (uuid_pool w (uuid_next w))
       then
         try_catch
           (_ <- createMemory n ;;
            try_catch
              (for_each ms (fun mem =>
                 _ <- updateMemory (id mem) (Upd_compressionLevel level) ;;
                 ret tt) ;;;
               ret (c + 1, e))
              (fun _ => ret (c + 1, e + 1)))
           (fun _ => ret (c, e + 1)) w
         = (Ok (c, e + 1), w')
         /\ structured_memories (db w') = structured_memories (db w)
       else
         try_catch
           (_ <- createMemory n ;;
            try_catch
              (for_each ms (fun mem =>
                 _ <- updateMemory (id mem) (Upd_compressionLevel level) ;;
                 ret tt) ;;;
               ret (c + 1, e))
              (fun _ => ret (c + 1, e + 1)))
           (fun _ => ret (c, e + 1)) w
         = (Ok (c + 1, e), w')
         /\ structured_memories (db w')
            = (structured_memories (db w)
               ++ [new_row n (uuid_pool w (uuid_next w)) (clock w)])%list.
Proof.
  pose proof (createMemory_process n w) as Hp. unfold exec in Hp.
  destruct (createMemory_cases n w)
    as [[Hhas [err [w1 [Hrun Hs]]]]|[Hhas [m [w1 [Hrun Hrows]]]]];
    cbv zeta in Hhas; rewrite Hhas; rewrite Hrun in Hp; cbn [snd] in Hp;
    exists w1; (split; [exact Hp|]); cbv iota; unfold try_catch at 1.
  - rewrite (bind_throw _ _ _ _ _ Hrun). simpl. split; [reflexivity|exact Hs].
  - rewrite (bind_ok _ _ _ _ _ Hrun).
    unfold try_catch at 1. rewrite (bind_ok _ _ _ _ _ (marks_void level ms w1)).
    simpl. split; [reflexivity | exact Hrows].
Qed.

(** *** The loop over the groups *)

Lemma fresh_ids_head w n :
  fresh_ids w (S n) -> has_memory (db w) (uuid_pool w (uuid_next w)) = false.
Proof.
  intros [_ H]. cbn [seq map] in H. inversion H as [|? ? H0 _]; subst.
  rewrite Nat.add_0_r in H0. exact H0.
Qed.

Lemma has_memory_app d rows r i :
  structured_memories d = (rows ++ [r])%list ->
  has_memory d i = (existsb (fun x => String.eqb (Row.id x) i) rows
                    || String.eqb (Row.id r) i)%bool.
Proof.
  intro H. unfold has_memory. rewrite H, existsb_app. simpl.
  rewrite orb_false_r. reflexivity.
Qed.

Lemma fresh_ids_tail w w' n r :
  fresh_ids w (S n) ->
  ids_drawn 1 w w' ->
  structured_memories (db w') = (structured_memories (db w) ++ [r])%list ->
  Row.id r = uuid_pool w (uuid_next w) ->
  fresh_ids w' n.
Proof.
  intros [Hnd Hall] [_ [_ [Hpool Hnext]]] Hrows Hid.
  unfold fresh_ids in *. cbv zeta in *.
  cbn [seq map] in Hnd, Hall. rewrite Nat.add_0_r in Hnd, Hall.
  rewrite <- seq_shift, map_map in Hnd, Hall.
  assert (E : map (fun k => uuid_pool w' (uuid_next w' + k)%nat) (seq 0 n)
              = map (fun k => uuid_pool w (uuid_next w + S k)%nat) (seq 0 n)).
  { apply map_ext. intro k. rewrite Hpool, Hnext. f_equal. lia. }
  rewrite E. inversion Hnd as [|? ? Hout Hnd']; subst.
  inversion Hall as [|? ? _ Hall']; subst.
  split; [exact Hnd'|].
  apply Forall_forall. intros i Hi.
  rewrite (has_memory_app _ _ _ i Hrows).
  rewrite Forall_forall in Hall'. specialize (Hall' i Hi).
  unfold has_memory in Hall'. rewrite Hall'. simpl.
  rewrite Hid. apply String.eqb_neq. intro E'. apply Hout. rewrite E'. exact Hi.
Qed.

(** The loop of the monthly stage over its groups: for each group of at
    least two records, in order, either the summary of the group is appended
    and [created] grows by one, or [errors] grows by one; and no error
    occurs when the ids drawn are fresh. *)
Lemma monthly_loop gs : forall c e w,
  exists c' e' w' outcomes,
    for_groups gs monthly_body (c, e) w = (Ok (c', e'), w')
    /\ ids_drawn (List.length (filter eligible gs)) w w'
    /\ structured_memories (db w')
       = (structured_memories (db w) ++ somes outcomes)%list
    /\ Forall2 group_outcome (filter eligible gs) outcomes
    /\ c' - c = Z.of_nat (List.length (somes outcomes))
    /\ (c' - c) + (e' - e) = Z.of_nat (List.length (filter eligible gs))
    /\ (fresh_ids w (List.length (filter eligible gs)) ->
        e' = e /\ Forall2 summarises (filter eligible gs) (somes outcomes)).
Proof.
  induction gs as [|g gs IH]; intros c e w.
  - exists c, e, w, []. cbn. rewrite app_nil_r.
    repeat split; try lia; constructor.
  - cbn [for_groups filter].
    assert (Hel : eligible g = negb (Z.of_nat (List.length (snd g)) <? 2))
      by reflexivity.
    unfold monthly_body at 1.
    destruct (Z.of_nat (List.length (snd g)) <? 2) eqn:Hsz;
      cbn [negb] in Hel; rewrite Hel; clear Hel.
    + rewrite (bind_ok (ret (c, e)) _ w (c, e) w eq_refl). apply IH.
    + destruct g as [key ms]; cbn [snd] in *.
      unfold monthly_group; cbv beta iota.
      destruct (generateSummary_text ms false) as [text Htext].
      rewrite Htext. apply if_text_some in Htext.
      set (n := summary_record text ("memory/summaries/month-" ++ key ++ ".md")
                  High "monthly-summary" ms 2).
      destruct (stage_group_step n 2 ms c e w) as [w1 [Hp1 Hstep]].
      assert (Hsum : summarises (key, ms)
                       (new_row n (uuid_pool w (uuid_next w)) (clock w))).
      { repeat split. exact Htext. }
      destruct (has_memory (db w) (uuid_pool w (uuid_next w))) eqn:Hhas;
        destruct Hstep as [Hrun Hrows].
      * destruct (IH c (e + 1) w1)
          as [c2 [e2 [w2 [outs [Hrun2 [Hp2 [Hrows2 [Hout [Hc [Hce Hfresh]]]]]]]]]].
        exists c2, e2, w2, (None :: outs).
        split; [rewrite (bind_ok _ _ _ _ _ Hrun); exact Hrun2|].
        split; [exact (ids_drawn_trans 1 _ _ _ _ Hp1 Hp2)|].
        split; [cbn [somes]; rewrite Hrows2, Hrows; reflexivity|].
        split; [constructor; [exact I | exact Hout]|].
        split; [exact Hc|].
        split; [cbn [List.length]; lia|].
        intro Hf. apply fresh_ids_head in Hf. congruence.
      * destruct (IH (c + 1) e w1)
          as [c2 [e2 [w2 [outs [Hrun2 [Hp2 [Hrows2 [Hout [Hc [Hce Hfresh]]]]]]]]]].
        exists c2, e2, w2,
          (Some (new_row n (uuid_pool w (uuid_next w)) (clock w)) :: outs).
        split; [rewrite (bind_ok _ _ _ _ _ Hrun); exact Hrun2|].
        split; [exact (ids_drawn_trans 1 _ _ _ _ Hp1 Hp2)|].
        split; [cbn [somes]; rewrite Hrows2, Hrows, <- app_assoc; reflexivity|].
        split; [constructor; [exact Hsum | exact Hout]|].
        split; [cbn [somes List.length]; lia|].
        split; [cbn [List.length]; lia|].
        intro Hf.
        destruct (Hfresh (fresh_ids_tail _ _ _ _ Hf Hp1 Hrows eq_refl))
          as [He Hall].
        split; [exact He|]. cbn [somes]. constructor; [exact Hsum | exact Hall].
Qed.

Lemma retained_refl r : retained r r.
Proof. repeat split. apply Z.le_refl. Qed.

Lemma Forall2_refl {A} (R : A -> A -> Prop) (l : list A) :
  (forall x, R x x) -> Forall2 R l l.
Proof. intro H. induction l; constructor; auto. Qed.

Lemma somes_outcomes gs (outcomes : list (option Row.t)) (P : Row.t -> Prop) :
  Forall2 group_outcome gs outcomes ->
  (forall g r, In g gs -> summarises g r -> P r) ->
  Forall P (somes outcomes).
Proof.
  induction 1 as [|g o gs os Hgo _ IH]; intro HP; cbn [somes]; [constructor|].
  destruct o as [r|].
  - constructor.
    + apply (HP g r); [left; reflexivity | exact Hgo].
    + apply IH. intros g' r' Hg'. apply HP. right; exact Hg'.
  - apply IH. intros g' r' Hg'. apply HP. right; exact Hg'.
Qed.

(** The monthly stage as a whole, for a well-formed duration. *)
Lemma compressToMonthly_run config w minAge :
  parseDuration (weeklyToMonthly config) = Ok minAge ->
  exists c e w' outcomes,
    compressToMonthly config w = (Ok (c, e), w')
    /\ structured_memories (db w')
       = (structured_memories (db w) ++ somes outcomes)%list
    /\ Forall2 group_outcome (monthly_groups config w) outcomes
    /\ Forall (monthly_summary_of w) (somes outcomes)
    /\ c = Z.of_nat (List.length (somes outcomes))
    /\ c + e = Z.of_nat (List.length (monthly_groups config w))
    /\ (fresh_ids w (List.length (monthly_groups config w)) ->
        e = 0 /\ Forall2 summarises (monthly_groups config w) (somes outcomes)).
Proof.
  intro Hparse. unfold compressToMonthly, monthly_groups. rewrite Hparse.
  assert (Hp : parseDurationM (weeklyToMonthly config) w = (Ok minAge, w)).
  { rewrite parseDurationM_run, Hparse. reflexivity. }
  rewrite (bind_ok _ _ _ _ _ Hp).
  rewrite (bind_ok Date_now _ w (clock w) w eq_refl).
  destruct (getMemoriesForCompression_selects' (clock w - minAge) 1 w)
    as [ms [Hsel Hms]].
  rewrite (bind_ok _ _ _ _ _ Hsel).
  rewrite (bind_ok get_tz _ w (tz w) w eq_refl).
  fold monthly_body.
  assert (E : monthly_selection minAge w = ms).
  { unfold monthly_selection, eval. rewrite Hsel. reflexivity. }
  rewrite E.
  destruct (monthly_loop (groupByMonth (tz w) ms) 0 0 w)
    as [c [e [w' [outs [Hrun [_ [Hrows [Hout [Hc [Hce Hfresh]]]]]]]]]].
  exists c, e, w', outs.
  split; [exact Hrun|]. split; [exact Hrows|]. split; [exact Hout|].
  split; [|split; [lia|split; [lia|]]].
  - apply (somes_outcomes _ _ _ Hout).
    intros g r Hg [Hty [Hlv [Hfrom _]]].
    apply filter_In in Hg as [Hg Hel].
    split; [exact Hty|]. split; [exact Hlv|].
    exists (map id (snd g)). split; [exact Hfrom|]. split.
    + rewrite length_map. unfold eligible in Hel.
      apply negb_true_iff, Z.ltb_ge in Hel. lia.
    + intros i Hi. apply in_map_iff in Hi as [m [<- Hm]]. apply Hms.
      destruct (group_by_members (monthKey (tz w)) ms [] g m Hg Hm)
        as [H|[g0 [[] _]]]. exact H.
  - intro Hf. destruct (Hfresh Hf) as [He Hall]. split; [lia | exact Hall].
Qed.

(** C2 (amended).  Monthly compaction deletes nothing.  Every row that
    was in the store before the stage is still there afterwards, in its
    place, with every column but the update time as it was and a compression
    level that is not lower; after these rows the stage appends, for every
    group of at least two selected records of one calendar month, in order,
    the summary of that group: a summary record of compression level 2
    whose [compressed_from] lists the ids of the group.  The count of
    records grows by [created], and [created] and [errors] together count
    the groups; an error is a refused insert and adds no row, and there is
    none when the ids drawn are fresh, so that every group then has its
    summary.  The stage throws only on a malformed duration, and then
    adds nothing. *)
Theorem monthly_compaction_retains_sources :
  forall (config : CompressionConfig) (w : World),
  exists (kept new : list Row.t) (outcomes : list (option Row.t)),
    structured_memories (db (exec (compressToMonthly config) w))
    = (kept ++ new)%list
    /\ Forall2 retained (structured_memories (db w)) kept
    /\ new = somes outcomes
    /\ Forall2 group_outcome (monthly_groups config w) outcomes
    /\ Forall (monthly_summary_of w) new
    /\ match eval (compressToMonthly config) w with
       | Ok (created, errors) =>
           created = Z.of_nat (List.length new)
           /\ created + errors
              = Z.of_nat (List.length (monthly_groups config w))
           /\ Z.of_nat (List.length
                          (structured_memories
                             (db (exec (compressToMonthly config) w))))
              = Z.of_nat (List.length (structured_memories (db w))) + created
           /\ (fresh_ids w (List.length (monthly_groups config w)) ->
               errors = 0
               /\ Forall2 summarises (monthly_groups config w) new)
       | Throw _ =>
           new = []
           /\ exists e, parseDuration (weeklyToMonthly config) = Throw e
       end.
Proof.
  intros config w.
  destruct (parseDuration (weeklyToMonthly config)) as [minAge|err] eqn:Hparse.
  - destruct (compressToMonthly_run config w minAge Hparse)
      as [c [e [w' [outs [Hrun [Hrows [Hout [Hall [Hc [Hce Hfresh]]]]]]]]]].
    exists (structured_memories (db w)), (somes outs), outs.
    unfold exec, eval. rewrite Hrun. cbn [fst snd].
    split; [exact Hrows|].
    split; [apply Forall2_refl, retained_refl|].
    split; [reflexivity|]. split; [exact Hout|]. split; [exact Hall|].
    split; [exact Hc|]. split; [exact Hce|]. split; [|exact Hfresh].
    rewrite Hrows, length_app, Nat2Z.inj_add. lia.
  - exists (structured_memories (db w)), [], [].
    assert (Hrun : compressToMonthly config w = (Throw err, w)).
    { unfold compressToMonthly. apply bind_throw.
      rewrite parseDurationM_run, Hparse. reflexivity. }
    unfold exec, eval, monthly_groups. rewrite Hrun, Hparse. cbn [fst snd].
    rewrite app_nil_r.
    split; [reflexivity|].
    split; [apply Forall2_refl, retained_refl|].
    split; [reflexivity|]. split; [constructor|]. split; [constructor|].
    split; [reflexivity|]. exists err; reflexivity.
Qed.

(** The store of the two January records: the id drawn is fresh, the one
    group is that of January with both records, and the stage keeps the two
    records and appends the summary of the group. *)
Lemma monthly_compaction_retains_sources_witness :
  fresh_ids two_weeklies 1
  /\ map (fun g => (fst g, map id (snd g))) (monthly_groups config two_weeklies)
     = [("2024-01", ["m1"; "m2"])]
  /\ exists kept new : list Row.t,
       structured_memories (db (exec (compressToMonthly config) two_weeklies))
       = (kept ++ new)%list
       /\ Forall2 retained (structured_memories (db two_weeklies)) kept
       /\ Forall2 summarises (monthly_groups config two_weeklies) new.
Proof.
  assert (Hfresh : fresh_ids two_weeklies 1).
  { split.
    - constructor; [intros [] | constructor].
    - constructor; [vm_compute; reflexivity | constructor]. }
  assert (Hgroups :
            map (fun g => (fst g, map id (snd g)))
                (monthly_groups config two_weeklies)
            = [("2024-01", ["m1"; "m2"])]).
  { vm_compute. reflexivity. }
  split; [exact Hfresh|]. split; [exact Hgroups|].
  destruct (monthly_compaction_retains_sources config two_weeklies)
    as [kept [new [outs [Hrows [Hkept [_ [_ [_ Hrun]]]]]]]].
  exists kept, new. split; [exact Hrows|]. split; [exact Hkept|].
  destruct (eval (compressToMonthly config) two_weeklies) as [[c e]|err] eqn:E.
  - destruct Hrun as [_ [_ [_ Hf]]].
    apply Hf. apply (f_equal (@List.length _)) in Hgroups.
    rewrite length_map in Hgroups. rewrite Hgroups. exact Hfresh.
  - vm_compute in E. discriminate.
Defined.

(** The group of the two January records is processed: one summary is
    created, and the store then holds three records, the two sources among
    them, where the claim expects the two sources gone and one record
    left. *)
Lemma monthly_compaction_keeps_the_two_sources :
  listing two_weeklies = [("m1", Note, 1, None); ("m2", Note, 1, None)]
  /\ eval (compressToMonthly config) two_weeklies = Ok (1, 0)
  /\ listing (exec (compressToMonthly config) two_weeklies)
     = [("m1", Note, 1, None); ("m2", Note, 1, None);
        ("m3", Summary, 2, Some ["m1"; "m2"])]
  /\ List.length (structured_memories
                    (db (exec (compressToMonthly config) two_weeklies)))
     <> (List.length (structured_memories (db two_weeklies)) - 2 + 1)%nat.
Proof. vm_compute. repeat split. discriminate. Qed.

End Monthly.

(* ================================================================== *)
(** ** Matching sections to records *)

Module Similarity.
Import Store Sync StoreFacts Terms Fixture.
Local Open Scope store_scope.

Lemma set_has_In x s : JS.set_has x s = true <-> In x s.
Proof.
  induction s as [|y s IH]; simpl; [split; [discriminate | tauto]|].
  rewrite orb_true_iff, IH, String.eqb_eq. split; intros [H|H]; auto.
Qed.

Lemma set_add_In s x y : In y (JS.set_add s x) <-> In y s \/ y = x.
Proof.
  unfold JS.set_add. destruct (JS.set_has x s) eqn:E.
  - apply set_has_In in E. split; [auto | intros [H | ->]; auto].
  - rewrite in_app_iff; simpl. split; intros [H|H]; auto.
    + destruct H as [-> | []]; auto.
Qed.

Lemma set_add_NoDup s x : NoDup s -> NoDup (JS.set_add s x).
Proof.
  intro H. unfold JS.set_add. destruct (JS.set_has x s) eqn:E; [exact H|].
  apply NoDup_app; [exact H | constructor; [tauto | constructor] |].
  intros y Hy [<-|[]].
  apply set_has_In in Hy. congruence.
Qed.

Lemma fold_set_add l : forall acc,
  (NoDup acc -> NoDup (fold_left JS.set_add l acc))
  /\ (forall y, In y (fold_left JS.set_add l acc) <-> In y acc \/ In y l).
Proof.
  induction l as [|x l IH]; intro acc; simpl.
  - split; [auto | intro y; tauto].
  - destruct (IH (JS.set_add acc x)) as [Hnd Hin]. split.
    + intro H. apply Hnd, set_add_NoDup, H.
    + intro y. rewrite Hin, set_add_In. split.
      * intros [[H|H]|H]; auto.
      * intros [H|[H|H]]; auto.
Qed.

Lemma new_Set_NoDup l : NoDup (JS.new_Set l).
Proof. apply (proj1 (fold_set_add l [])). constructor. Qed.

Lemma new_Set_In l y : In y (JS.new_Set l) <-> In y l.
Proof.
  unfold JS.new_Set. rewrite (proj2 (fold_set_add l [])). simpl; tauto.
Qed.

(** Two duplicate-free enumerations of the same set have the same size. *)
Lemma same_set_length (l1 l2 : list string) :
  NoDup l1 -> NoDup l2 -> (forall x, In x l1 <-> In x l2) ->
  List.length l1 = List.length l2.
Proof.
  intros H1 H2 H. apply Nat.le_antisymm.
  - apply NoDup_incl_length; [exact H1 | intros x Hx; apply H; exact Hx].
  - apply NoDup_incl_length; [exact H2 | intros x Hx; apply H; exact Hx].
Qed.

(** The score of the reconciler is the size of the intersection of the two
    word sets over the size of the larger one. *)
Lemma calculateSimilarity_sets a b (A B I : list string) :
  NoDup A -> NoDup B -> NoDup I ->
  (forall x, In x A <-> In x (words a)) ->
  (forall x, In x B <-> In x (words b)) ->
  (forall x, In x I <-> In x A /\ In x B) ->
  calculateSimilarity a b
  = (INR (List.length I) / INR (Nat.max (List.length A) (List.length B)))%R.
Proof.
  intros HA HB HI HinA HinB HinI. unfold calculateSimilarity.
  fold (words a) (words b).
  rewrite (same_set_length (JS.new_Set (words a)) A).
  2: apply new_Set_NoDup. 2: exact HA.
  2: intro x; rewrite new_Set_In, HinA; tauto.
  rewrite (same_set_length (JS.new_Set (words b)) B).
  2: apply new_Set_NoDup. 2: exact HB.
  2: intro x; rewrite new_Set_In, HinB; tauto.
  rewrite (same_set_length (JS.new_Set (filter _ _)) I).
  - reflexivity.
  - apply new_Set_NoDup.
  - exact HI.
  - intro x. rewrite new_Set_In, filter_In, set_has_In, !new_Set_In, HinI,
      HinA, HinB. tauto.
Qed.

(** *** What [sync_section] does with a section *)

Lemma findSectionByContent_above existing c :
  (0.7 < calculateSimilarity (content existing) c)%R ->
  findSectionByContent existing c = Some existing.
Proof.
  intro H. unfold findSectionByContent, Rltb.
  destruct (Rlt_dec 0.7 _); [reflexivity | contradiction].
Qed.

Lemma findSectionByContent_below existing c :
  (calculateSimilarity (content existing) c <= 0.7)%R ->
  findSectionByContent existing c = None.
Proof.
  intro H. unfold findSectionByContent, Rltb.
  destruct (Rlt_dec 0.7 _); [lra | reflexivity].
Qed.

Lemma has_memory_select d mid :
  has_memory d mid = true -> exists row, select_memory d mid = Some row.
Proof.
  unfold has_memory, select_memory.
  induction (structured_memories d) as [|r l IH]; simpl; [discriminate|].
  destruct (String.eqb (Row.id r) mid); [intros _; eexists; reflexivity | exact IH].
Qed.

Lemma has_memory_none d mid :
  has_memory d mid = false -> select_memory d mid = None.
Proof.
  unfold has_memory, select_memory.
  induction (structured_memories d) as [|r l IH]; simpl; [reflexivity|].
  destruct (String.eqb (Row.id r) mid); [discriminate | exact IH].
Qed.

Lemma updateMemory_section_rows mid section w :
  structured_memories (db (exec (updateMemory mid (Upd_section section)) w))
  = map (fun r => if String.eqb (Row.id r) mid
                  then section_row section (clock w) r else r)
        (structured_memories (db w)).
Proof.
  unfold exec, updateMemory.
  destruct (has_memory (db w) mid) eqn:Hhas.
  - destruct (has_memory_select _ _ Hhas) as [row Hrow].
    assert (Hget : getMemory mid w = (Ok (Some (rowToMemory (db w) row)), w)).
    { unfold getMemory, bind, get_db; simpl. rewrite Hrow; reflexivity. }
    rewrite (bind_ok _ _ _ _ _ Hget). cbn [Upd_section Upd.tags].
    rewrite (bind_ok (ret tt) _ w tt w eq_refl).
    rewrite (bind_ok Date_now _ w (clock w) w eq_refl).
    unfold Upd_section.
    cbn [Upd.content Upd.summary Upd.memoryType Upd.importanceLevel
         Upd.importanceScore push_if app List.length Nat.ltb Nat.leb].
    unfold update_memory at 1.
    unfold bind, get_db, put_db. rewrite UpdateFrame.getMemory_world. simpl.
    apply map_ext. intro r. destruct (String.eqb (Row.id r) mid); reflexivity.
  - assert (Hget : getMemory mid w = (Ok None, w)).
    { unfold getMemory, bind, get_db; simpl.
      rewrite (has_memory_none _ _ Hhas); reflexivity. }
    rewrite (bind_ok _ _ _ _ _ Hget). simpl.
    rewrite <- (map_id (structured_memories (db w))) at 1.
    apply map_ext_in. intros r Hr.
    destruct (String.eqb (Row.id r) mid) eqn:E; [|reflexivity].
    exfalso. unfold has_memory in Hhas.
    assert (existsb (fun r => String.eqb (Row.id r) mid)
                    (structured_memories (db w)) = true).
    { apply existsb_exists. exists r; split; assumption. }
    congruence.
Qed.

Lemma sync_section_above existing path section w :
  (0.7 < calculateSimilarity (content existing) (sec_content section))%R ->
  structured_memories (db (exec (sync_section existing path section) w))
  = map (fun r => if String.eqb (Row.id r) (id existing)
                  then section_row section (clock w) r else r)
        (structured_memories (db w)).
Proof.
  intro H. unfold sync_section.
  rewrite (findSectionByContent_above _ _ H).
  rewrite <- updateMemory_section_rows.
  unfold exec, bind.
  destruct (updateMemory (id existing) (Upd_section section) w) as [[o|e] w'];
    reflexivity.
Qed.

Lemma sync_section_below existing path section w :
  (calculateSimilarity (content existing) (sec_content section) <= 0.7)%R ->
  has_memory (db w) (uuid_pool w (uuid_next w)) = false ->
  structured_memories (db (exec (sync_section existing path section) w))
  = (structured_memories (db w)
     ++ [new_row (new_section path section)
           (uuid_pool w (uuid_next w)) (clock w)])%list.
Proof.
  intros H Hfresh. unfold sync_section.
  rewrite (findSectionByContent_below _ _ H).
  destruct (Stage.createMemory_cases (new_section path section) w)
    as [[Htaken _]|[_ [m [w' [Hrun Hrows]]]]]; [congruence|].
  unfold exec. rewrite (bind_ok _ _ _ _ _ Hrun). exact Hrows.
Qed.

(** C4 (amended).  The matching score of two texts is the size of the
    intersection of their lowercase, whitespace-split word sets divided by
    the size of the larger of the two sets.  A section whose score against
    the existing record is strictly above 0.7 is applied as an update of
    that record in place (content, type and update time rewritten, no row
    added, other rows untouched); a section whose score is at most 0.7 is
    inserted as a new record of the same path. *)
Theorem section_matching_by_overlap_over_larger_set :
  (forall (a b : string) (A B I : list string),
      NoDup A -> NoDup B -> NoDup I ->
      (forall x, In x A <-> In x (words a)) ->
      (forall x, In x B <-> In x (words b)) ->
      (forall x, In x I <-> In x A /\ In x B) ->
      calculateSimilarity a b
      = (INR (List.length I)
         / INR (Nat.max (List.length A) (List.length B)))%R)
  /\ (forall (existing : StructuredMemory) (path : string)
             (section : Section) (w : World),
        (0.7 < calculateSimilarity (content existing) (sec_content section))%R ->
        structured_memories (db (exec (sync_section existing path section) w))
        = map (fun r => if String.eqb (Row.id r) (id existing)
                        then section_row section (clock w) r else r)
              (structured_memories (db w)))
  /\ (forall (existing : StructuredMemory) (path : string)
             (section : Section) (w : World),
        (calculateSimilarity (content existing) (sec_content section) <= 0.7)%R ->
        has_memory (db w) (uuid_pool w (uuid_next w)) = false ->
        structured_memories (db (exec (sync_section existing path section) w))
        = (structured_memories (db w)
           ++ [new_row (new_section path section)
                 (uuid_pool w (uuid_next w)) (clock w)])%list).
Proof.
  split; [|split].
  - apply calculateSimilarity_sets.
  - apply sync_section_above.
  - apply sync_section_below.
Qed.

Lemma section_matching_by_overlap_over_larger_set_witness :
  calculateSimilarity "x y" "X  z" = (INR 1 / INR 2)%R
  /\ structured_memories
       (db (exec (sync_section existing "memory/notes.md" (section_of edited))
                 stored))
     = map (fun r => if String.eqb (Row.id r) (id existing)
                     then section_row (section_of edited) (clock stored) r
                     else r)
           (structured_memories (db stored))
  /\ structured_memories
       (db (exec (sync_section existing "memory/notes.md"
                    (section_of shortened)) stored))
     = (structured_memories (db stored)
        ++ [new_row (new_section "memory/notes.md" (section_of shortened))
              (uuid_pool stored (uuid_next stored)) (clock stored)])%list.
Proof.
  split; [|split].
  - apply (proj1 section_matching_by_overlap_over_larger_set
                 "x y" "X  z" ["x"; "y"] ["x"; "z"] ["x"]).
    + repeat constructor; simpl; intuition discriminate.
    + repeat constructor; simpl; intuition discriminate.
    + repeat constructor; simpl; intuition discriminate.
    + intro x. change (words "x y") with ["x"; "y"]. tauto.
    + intro x. change (words "X  z") with ["x"; "z"]. tauto.
    + intro x. simpl. intuition (subst; auto; discriminate).
  - apply (proj1 (proj2 section_matching_by_overlap_over_larger_set)
                 existing "memory/notes.md" (section_of edited) stored).
    change (calculateSimilarity (content existing)
                                (sec_content (section_of edited)))
      with (INR 8 / INR 10)%R.
    simpl; lra.
  - apply (proj2 (proj2 section_matching_by_overlap_over_larger_set)
                 existing "memory/notes.md" (section_of shortened) stored).
    + change (calculateSimilarity (content existing)
                                  (sec_content (section_of shortened)))
        with (INR 7 / INR 10)%R.
      simpl; lra.
    + reflexivity.
Defined.

Lemma existing_is_stored :
  eval (getMemoryBySourcePath "memory/notes.md") stored = Ok (Some existing).
Proof. reflexivity. Qed.

(** Against the claim as stated: the score is not the Jaccard similarity
    (1/2 against 1/3 for two words each with one in common); a section
    whose Jaccard similarity to the record is 8/12, below 0.7, is applied
    as an update in place; and a section whose similarity to the record is
    exactly 0.7, by either measure, is inserted as a new record. *)
Lemma matching_is_not_jaccard_with_inclusive_threshold :
  (calculateSimilarity "x y" "x z" = 1 / 2
   /\ jaccard "x y" "x z" = 1 / 3)%R
  /\ ((jaccard ten_words edited < 0.7)%R
      /\ contents (exec (sync_section existing "memory/notes.md"
                           (section_of edited)) stored)
         = [("m1", edited)])
  /\ ((jaccard ten_words shortened = 0.7)%R
      /\ (calculateSimilarity ten_words shortened = 0.7)%R
      /\ contents (exec (sync_section existing "memory/notes.md"
                           (section_of shortened)) stored)
         = [("m1", ten_words); ("m2", shortened)]).
Proof.
  assert (H1 : calculateSimilarity "x y" "x z" = (INR 1 / INR 2)%R)
    by reflexivity.
  assert (H2 : jaccard "x y" "x z" = (INR 1 / INR 3)%R) by reflexivity.
  assert (H3 : jaccard ten_words edited = (INR 8 / INR 12)%R) by reflexivity.
  assert (H4 : calculateSimilarity ten_words edited = (INR 8 / INR 10)%R)
    by reflexivity.
  assert (H5 : jaccard ten_words shortened = (INR 7 / INR 10)%R) by reflexivity.
  assert (H6 : calculateSimilarity ten_words shortened = (INR 7 / INR 10)%R)
    by reflexivity.
  split; [|split].
  - rewrite H1, H2. simpl. split; lra.
  - split; [rewrite H3; simpl; lra|].
    unfold contents. rewrite sync_section_above.
    + reflexivity.
    + change (content existing) with ten_words.
      change (sec_content (section_of edited)) with edited.
      rewrite H4. simpl. lra.
  - split; [rewrite H5; simpl; lra|].
    split; [rewrite H6; simpl; lra|].
    unfold contents. rewrite sync_section_below.
    + reflexivity.
    + change (content existing) with ten_words.
      change (sec_content (section_of shortened)) with shortened.
      rewrite H6. simpl. lra.
    + reflexivity.
Qed.

(** The same through [syncFile]: the file of the record now holds the
    seven-word text and is newer than the record; reconciling it reports the
    file as updated and leaves two records. *)
Lemma syncFile_inserts_at_the_threshold :
  let entry := {| path := "memory/notes.md"; mtimeMs := 1500%R;
                  text := shortened |} in
  parseMarkdownSections shortened "memory/notes.md" = [section_of shortened]
  /\ eval (syncFile entry) stored = Ok Updated
  /\ contents (exec (syncFile entry) stored)
     = [("m1", ten_words); ("m2", shortened)].
Proof.
  intro entry.
  assert (Hparse : parseMarkdownSections shortened "memory/notes.md"
                   = [section_of shortened]) by reflexivity.
  assert (Hsim : calculateSimilarity ten_words shortened = (INR 7 / INR 10)%R)
    by reflexivity.
  assert (Hrun : syncFile entry stored
                 = bind (for_each [section_of shortened]
                           (sync_section existing "memory/notes.md"))
                        (fun _ => ret Updated) stored).
  { unfold syncFile.
    assert (Hget : getMemoryBySourcePath (path entry) stored
                   = (Ok (Some existing), stored)) by reflexivity.
    rewrite (bind_ok _ _ _ _ _ Hget).
    unfold Rleb. destruct (Rle_dec (mtimeMs entry) (IZR (updatedAt existing)))
      as [Hle|_].
    - exfalso. simpl in Hle. lra.
    - subst entry; cbn [text path]. rewrite Hparse. reflexivity. }
  assert (Hstep : sync_section existing "memory/notes.md" (section_of shortened)
                  = (fun w => bind (createMemory
                                      (new_section "memory/notes.md"
                                         (section_of shortened)))
                                   (fun _ => ret tt) w)).
  { unfold sync_section. rewrite findSectionByContent_below; [reflexivity|].
    change (content existing) with ten_words.
    change (sec_content (section_of shortened)) with shortened.
    rewrite Hsim. simpl. lra. }
  split; [exact Hparse|].
  unfold eval, exec, contents. rewrite Hrun. cbn [for_each].
  rewrite Hstep. split; reflexivity.
Qed.

End Similarity.

(* ================================================================== *)
(** ** [parseDuration] *)

Module Durations.
Import Store Terms Fixture.

Lemma length_app (s t : string) :
  String.length (s ++ t) = (String.length s + String.length t)%nat.
Proof.
  induction s as [|c s IH]; simpl; [reflexivity | rewrite IH; reflexivity].
Qed.

Lemma substring_app (s t : string) :
  String.substring 0 (String.length s) (s ++ t) = s.
Proof.
  induction s as [|c s IH]; simpl; [destruct t; reflexivity|].
  rewrite IH. reflexivity.
Qed.

Lemma get_app (s : string) (u : ascii) (t : string) :
  String.get (String.length s) (s ++ String u t) = Some u.
Proof. induction s as [|c s IH]; simpl; [reflexivity | exact IH]. Qed.

Lemma last_char (s : string) (u : ascii) :
  String.get (String.length s - 1) s = Some u ->
  s = String.substring 0 (String.length s - 1) s ++ String u EmptyString.
Proof.
  induction s as [|c s IH]; simpl; [discriminate|].
  rewrite Nat.sub_0_r. destruct s as [|c' s'].
  - simpl. intro H; inversion H; reflexivity.
  - simpl String.length in *. simpl Nat.sub in IH. rewrite Nat.sub_0_r in IH.
    intro H. cbn [String.get] in H. cbn [String.substring].
    cbn [String.append]. f_equal. apply IH.
    destruct (String.length s'); exact H.
Qed.

(** *** Decimal numerals are read back *)

Lemma parse_digit_step (acc : Z) (c : ascii) (s : string) (k : Z) :
  is_digit c = true -> Z.of_nat (nat_of_ascii c) - 48 = k ->
  parse_digits acc (String c s) = parse_digits (10 * acc + k) s.
Proof. intros Hc Hk. cbn [parse_digits]. rewrite Hc, Hk. reflexivity. Qed.

Ltac read_digit :=
  match goal with
  | |- parse_digits _ (String ?c _) = _ =>
      let k := eval vm_compute in (Z.of_nat (nat_of_ascii c) - 48) in
      rewrite (parse_digit_step _ c _ k eq_refl eq_refl)
  end.

Lemma parse_uint_acc (d : Decimal.uint) : forall p : positive,
  parse_digits (Zpos p) (NilEmpty.string_of_uint d)
  = Some (Zpos (Pos.of_uint_acc d p)).
Proof.
  induction d; intro p; cbn [NilEmpty.string_of_uint Pos.of_uint_acc];
    try reflexivity;
    read_digit;
    match goal with
    | |- parse_digits ?a _ = Some (Zpos (Pos.of_uint_acc _ ?q)) =>
        replace a with (Zpos q) by lia
    end; apply IHd.
Qed.

Lemma parse_uint (d : Decimal.uint) :
  parse_digits 0 (NilEmpty.string_of_uint d) = Some (Z.of_N (Pos.of_uint d)).
Proof.
  induction d; cbn [NilEmpty.string_of_uint Pos.of_uint]; try reflexivity;
    read_digit; try exact IHd;
    match goal with
    | |- parse_digits ?a _ = Some (Z.of_N (Npos (Pos.of_uint_acc _ ?q))) =>
        replace a with (Zpos q) by lia
    end; rewrite parse_uint_acc; reflexivity.
Qed.

Lemma of_int_digits (n : Z) :
  0 <= n ->
  JS.of_int n <> EmptyString /\ parse_digits 0 (JS.of_int n) = Some n.
Proof.
  intro Hn. unfold JS.of_int.
  pose proof (DecimalZ.of_to n) as Hof.
  destruct (Z.to_int n) as [d|d] eqn:E.
  - cbn [NilZero.string_of_int]. unfold NilZero.string_of_uint.
    cbn [Z.of_int] in Hof. unfold Z.of_uint in Hof.
    destruct d; try (split; [discriminate | rewrite <- Hof; apply parse_uint]).
    split; [discriminate|]. rewrite <- Hof. reflexivity.
  - exfalso. destruct n; simpl in E; try discriminate. lia.
Qed.

Lemma parseDuration_digits_unit (ds : string) (u : ascii) (value mult : Z) :
  ds <> EmptyString ->
  parse_digits 0 ds = Some value ->
  multiplier u = Some mult ->
  parseDuration (ds ++ String u EmptyString) = Ok (value * mult).
Proof.
  intros Hne Hp Hm. unfold parseDuration.
  rewrite length_app. simpl String.length.
  replace (String.length ds + 1 - 1)%nat with (String.length ds) by lia.
  rewrite substring_app, get_app.
  destruct ds as [|c ds]; [congruence|].
  rewrite Hp, Hm. reflexivity.
Qed.

(** X1.  [parseDuration] reads a decimal number followed by [d], [h] or [m]
    as that many days, hours or minutes, in milliseconds, for every number
    whose count of milliseconds is an exact JavaScript integer (at most
    2^53 - 1). *)
Theorem parseDuration_reads_number_and_unit :
  forall (n : Z),
    0 <= n ->
    n * 86400000 <= 9007199254740991 ->
    parseDuration (JS.of_int n ++ "d") = Ok (n * 86400000)
    /\ parseDuration (JS.of_int n ++ "h") = Ok (n * 3600000)
    /\ parseDuration (JS.of_int n ++ "m") = Ok (n * 60000).
Proof.
  intros n Hn _. destruct (of_int_digits n Hn) as [Hne Hp].
  repeat split; apply parseDuration_digits_unit; auto.
Qed.

Lemma parseDuration_reads_number_and_unit_witness :
  parseDuration (JS.of_int 7 ++ "d") = Ok (7 * 86400000)
  /\ parseDuration (JS.of_int 7 ++ "h") = Ok (7 * 3600000)
  /\ parseDuration (JS.of_int 7 ++ "m") = Ok (7 * 60000).
Proof. apply (parseDuration_reads_number_and_unit 7); lia. Defined.

(** *** What is accepted has that shape *)

Lemma parse_digits_all (s : string) : forall acc value,
  0 <= acc ->
  parse_digits acc s = Some value ->
  forallb is_digit (list_ascii_of_string s) = true /\ 0 <= value.
Proof.
  induction s as [|c s IH];
    cbn [parse_digits forallb list_ascii_of_string]; intros acc value Hacc H.
  - inversion H; subst. split; [reflexivity | exact Hacc].
  - destruct (is_digit c) eqn:Hc; [|discriminate]. cbn [andb].
    apply IH in H; [exact H|].
    unfold is_digit in Hc. apply andb_true_iff in Hc as [H1 _].
    apply Nat.leb_le in H1. lia.
Qed.

Lemma multiplier_units (u : ascii) (mult : Z) :
  multiplier u = Some mult ->
  (u = "d"%char \/ u = "h"%char \/ u = "m"%char) /\ 0 < mult.
Proof.
  unfold multiplier.
  destruct (Ascii.eqb_spec u "d");
    [intro H; injection H as <-; split; [auto | reflexivity]|].
  destruct (Ascii.eqb_spec u "h");
    [intro H; injection H as <-; split; [auto | reflexivity]|].
  destruct (Ascii.eqb_spec u "m");
    [intro H; injection H as <-; split; [auto | reflexivity]|].
  discriminate.
Qed.

(** X2.  Whatever [parseDuration] accepts is one or more decimal digits
    followed by exactly one of the letters [d], [h], [m], and its value is
    not negative; on every other string (the empty one, a bare number, a
    bare unit, a sign, a fraction, another unit) it throws. *)
Theorem parseDuration_accepts_only_digits_and_unit :
  forall (s : string) (v : Z),
    parseDuration s = Ok v ->
    exists (ds : string) (u : ascii),
      s = ds ++ String u EmptyString
      /\ ds <> EmptyString
      /\ forallb is_digit (list_ascii_of_string ds) = true
      /\ (u = "d"%char \/ u = "h"%char \/ u = "m"%char)
      /\ 0 <= v.
Proof.
  intros s v. unfold parseDuration.
  destruct (String.substring 0 (String.length s - 1) s) as [|c ds] eqn:Hds;
    [discriminate|].
  destruct (String.get (String.length s - 1) s) as [u|] eqn:Hu; [|discriminate].
  destruct (parse_digits 0 (String c ds)) as [value|] eqn:Hp; [|discriminate].
  destruct (multiplier u) as [mult|] eqn:Hm; [|discriminate].
  intro H; inversion H; subst v.
  exists (String c ds), u.
  destruct (parse_digits_all _ _ _ (Z.le_refl 0) Hp) as [Hall Hv].
  destruct (multiplier_units _ _ Hm) as [Hunit Hpos].
  split; [rewrite <- Hds; apply last_char, Hu|].
  split; [discriminate|]. split; [exact Hall|]. split; [exact Hunit | nia].
Qed.

Lemma parseDuration_accepts_only_digits_and_unit_witness :
  exists (ds : string) (u : ascii),
    "90d" = ds ++ String u EmptyString
    /\ ds <> EmptyString
    /\ forallb is_digit (list_ascii_of_string ds) = true
    /\ (u = "d"%char \/ u = "h"%char \/ u = "m"%char)
    /\ 0 <= 7776000000.
Proof.
  apply (parseDuration_accepts_only_digits_and_unit "90d" 7776000000).
  reflexivity.
Defined.

End Durations.

(* ================================================================== *)
(** ** Sorting, limits and the order of query results *)

Module Ordering.
Import Store.

Section Sort.
Context {A : Type} (before : A -> A -> bool).
Hypothesis total : forall x y, before x y = false -> before y x = true.
Hypothesis trans : forall x y z,
  before x y = true -> before y z = true -> before x z = true.

Lemma insert_by_Permutation x (l : list A) :
  Permutation (x :: l) (insert_by before x l).
Proof.
  induction l as [|y l IH]; simpl; [reflexivity|].
  destruct (before x y); [reflexivity|].
  rewrite perm_swap. apply perm_skip, IH.
Qed.

Lemma sort_by_Permutation (l : list A) : Permutation l (sort_by before l).
Proof.
  induction l as [|x l IH]; simpl; [reflexivity|].
  rewrite <- insert_by_Permutation. apply perm_skip, IH.
Qed.

Lemma insert_by_sorted x (l : list A) :
  StronglySorted (fun a b => before a b = true) l ->
  StronglySorted (fun a b => before a b = true) (insert_by before x l).
Proof.
  induction 1 as [|y l Hs IH Hy]; simpl.
  - repeat constructor.
  - destruct (before x y) eqn:E.
    + constructor; [constructor; assumption|].
      constructor; [exact E|].
      rewrite Forall_forall in *. intros z Hz. eapply trans; eauto.
    + constructor; [exact IH|].
      rewrite Forall_forall in *. intros z Hz.
      apply (Permutation_in _ (Permutation_sym (insert_by_Permutation x l))) in Hz.
      destruct Hz as [<-|Hz]; auto.
Qed.

Lemma sort_by_sorted (l : list A) :
  StronglySorted (fun a b => before a b = true) (sort_by before l).
Proof.
  induction l as [|x l IH]; simpl; [constructor|].
  apply insert_by_sorted, IH.
Qed.
End Sort.

Lemma StronglySorted_firstn {A} (R : A -> A -> Prop) n (l : list A) :
  StronglySorted R l -> StronglySorted R (firstn n l).
Proof.
  intro H. revert n. induction H as [|x l Hs IH Hx]; intro n.
  - rewrite firstn_nil. constructor.
  - destruct n; simpl; constructor; [apply IH|].
    rewrite Forall_forall in *. intros y Hy. apply Hx.
    rewrite <- (firstn_skipn n l). apply in_or_app; left; exact Hy.
Qed.

Lemma StronglySorted_skipn {A} (R : A -> A -> Prop) n (l : list A) :
  StronglySorted R l -> StronglySorted R (skipn n l).
Proof.
  intro H. revert n. induction H as [|x l Hs IH Hx]; intro n.
  - rewrite skipn_nil. constructor.
  - destruct n; simpl; [constructor; assumption | apply IH].
Qed.

Lemma StronglySorted_map {A B} (R : A -> A -> Prop) (S : B -> B -> Prop)
      (f : A -> B) (l : list A) :
  (forall x y, R x y -> S (f x) (f y)) ->
  StronglySorted R l -> StronglySorted S (map f l).
Proof.
  intros HRS H. induction H as [|x l Hs IH Hx]; simpl; constructor; [exact IH|].
  rewrite Forall_forall in *. intros y Hy.
  apply in_map_iff in Hy as [z [<- Hz]]. auto.
Qed.

Lemma StronglySorted_limit_offset {A} (R : A -> A -> Prop) limit offset
      (l : list A) :
  StronglySorted R l -> StronglySorted R (limit_offset limit offset l).
Proof.
  intro H. unfold limit_offset.
  destruct (limit <? 0);
    [|apply StronglySorted_firstn]; apply StronglySorted_skipn, H.
Qed.

Lemma limit_offset_length {A} limit offset (l : list A) :
  0 <= limit -> Z.of_nat (List.length (limit_offset limit offset l)) <= limit.
Proof.
  intro H. unfold limit_offset.
  destruct (limit <? 0) eqn:E; [lia|].
  rewrite length_firstn. lia.
Qed.

Lemma StronglySorted_cross {A} (R : A -> A -> Prop) (l1 l2 : list A) :
  StronglySorted R (l1 ++ l2) ->
  forall a b, In a l1 -> In b l2 -> R a b.
Proof.
  induction l1 as [|x l1 IH]; simpl; intros H a b Ha Hb; [tauto|].
  inversion H as [|? ? Hs Hx]; subst.
  destruct Ha as [<-|Ha].
  - rewrite Forall_forall in Hx. apply Hx, in_or_app; right; exact Hb.
  - apply IH; assumption.
Qed.

Lemma take_nonneg {A} n (l : list A) :
  0 <= n -> JS.take n l = firstn (Z.to_nat n) l.
Proof. intro H. unfold JS.take. destruct (0 <=? n) eqn:E; [reflexivity | lia]. Qed.

End Ordering.

(* ================================================================== *)
(** ** The text filter of [searchMemories] *)

Module Like.
Import Store Terms.

Lemma like_any p s :
  like (String "%" p) s
  = (like p s
     || match s with
        | EmptyString => false
        | String _ s' => like (String "%" p) s'
        end)%bool.
Proof. destruct s; reflexivity. Qed.

Lemma like_percent s : like "%" s = true.
Proof.
  induction s as [|c s IH]; [reflexivity|].
  rewrite like_any. rewrite IH. apply orb_true_r.
Qed.

Lemma like_literal c p s :
  Ascii.eqb c "%" = false ->
  like (String c p) s
  = match s with
    | EmptyString => false
    | String d s' =>
        ((Ascii.eqb c "_" || Ascii.eqb (JS.lower c) (JS.lower d)) && like p s')%bool
    end.
Proof. intro H. simpl. rewrite H. reflexivity. Qed.

(** A wildcard-free pattern followed by [%] matches the strings that begin
    with it, letters compared without case. *)
Lemma like_prefix q : forall s,
  wildcard_free q = true ->
  like (q ++ "%") s = String.prefix (JS.toLowerCase q) (JS.toLowerCase s).
Proof.
  induction q as [|c q IH]; intros s Hq.
  - simpl append. rewrite like_percent. destruct s; reflexivity.
  - simpl in Hq. apply andb_true_iff in Hq as [Hq Hq'].
    apply andb_true_iff in Hq as [Hp Hu].
    apply negb_true_iff in Hp, Hu.
    change (String c q ++ "%") with (String c (q ++ "%")).
    rewrite (like_literal _ _ _ Hp). rewrite Hu. simpl orb.
    destruct s as [|d s]; [reflexivity|].
    rewrite (IH s Hq'). simpl.
    destruct (Ascii.eqb_spec (JS.lower c) (JS.lower d)) as [E|E].
    + rewrite E. destruct (ascii_dec (JS.lower d) (JS.lower d)); [reflexivity | tauto].
    + destruct (ascii_dec (JS.lower c) (JS.lower d)); [tauto | reflexivity].
Qed.

Lemma like_contains q s :
  wildcard_free q = true ->
  like ("%" ++ q ++ "%") s = contains_nocase s q.
Proof.
  intro Hq. unfold contains_nocase.
  change ("%" ++ q ++ "%") with (String "%" (q ++ "%")).
  induction s as [|c s IH].
  - rewrite like_any, (like_prefix q EmptyString Hq). simpl.
    rewrite orb_false_r. reflexivity.
  - rewrite like_any, IH, (like_prefix q _ Hq). reflexivity.
Qed.

End Like.

(* ================================================================== *)
(** ** What the queries of the store return *)

Module Queries.
Import Store StoreFacts Terms Fixture Ordering Like.
Local Open Scope store_scope.

Lemma order_before_total o x y :
  order_before o x y = false -> order_before o y x = true.
Proof.
  destruct o; unfold order_before, Rltb;
    repeat match goal with
           | |- context [Rlt_dec ?a ?b] => destruct (Rlt_dec a b)
           end; simpl; intro H; try discriminate; try reflexivity; try lra; lia.
Qed.

Lemma order_before_trans o x y z :
  order_before o x y = true -> order_before o y z = true ->
  order_before o x z = true.
Proof.
  destruct o; unfold order_before, Rltb;
    repeat match goal with
           | |- context [Rlt_dec ?a ?b] => destruct (Rlt_dec a b)
           end; simpl; intros H1 H2; try discriminate; try reflexivity;
    try lra; lia.
Qed.

Lemma order_before_ordered o d x y :
  order_before o x y = true ->
  ordered_by o (rowToMemory d x) (rowToMemory d y).
Proof.
  destruct o; unfold order_before, ordered_by, Rltb; simpl;
    repeat match goal with
           | |- context [Rlt_dec ?a ?b] => destruct (Rlt_dec a b)
           end; simpl; intro H; try discriminate; try lra; try lia.
  right; split; [lra | lia].
Qed.

(** X3.  Whatever the filters, [searchMemories] returns its results in the
    order asked for: by descending importance score, by descending creation
    time, or (the default, relevance) by descending score and, among equal
    scores, descending creation time. *)
Theorem searchMemories_results_are_ordered :
  forall (params : SearchParams) (w : World),
  exists ms,
    searchMemories params w = (Ok ms, w)
    /\ StronglySorted (ordered_by (default (sp_orderBy params) ByRelevance)) ms.
Proof.
  intros params w. eexists; split; [reflexivity|].
  apply (StronglySorted_map
           (fun a b => order_before (default (sp_orderBy params) ByRelevance) a b
                       = true)).
  - intros x y; apply order_before_ordered.
  - apply StronglySorted_limit_offset, sort_by_sorted.
    + apply order_before_total.
    + apply order_before_trans.
Qed.

(** X4.  Every record that [searchMemories] returns is a stored record that
    passes each filter given: it has the type and the importance level asked
    for, it carries one of the tags asked for, and, for a non-empty query
    without [LIKE] wildcards, its content or its summary contains the query,
    ASCII letters compared without case.  With a non-negative limit (10 by
    default) at most that many records are returned, and the store is
    unchanged. *)
Theorem searchMemories_returns_matching_records :
  forall (params : SearchParams) (w : World),
  exists ms,
    searchMemories params w = (Ok ms, w)
    /\ (0 <= default (sp_limit params) 10 ->
        Z.of_nat (List.length ms) <= default (sp_limit params) 10)
    /\ Forall (fun m =>
         has_memory (db w) (id m) = true
         /\ (forall mt, sp_memoryType params = Some mt -> memoryType m = mt)
         /\ (forall il, sp_importanceLevel params = Some il ->
                        importanceLevel m = il)
         /\ (forall t ts, sp_tags params = Some (t :: ts) ->
               exists n, In n (tags m) /\ In n (t :: ts))
         /\ (forall q, sp_query params = Some q -> q <> EmptyString ->
               wildcard_free q = true ->
               contains_nocase (content m) q = true
               \/ exists s, summary m = Some s /\ contains_nocase s q = true))
         ms.
Proof.
  intros params w. eexists; split; [reflexivity|].
  split.
  - intro H. rewrite length_map. apply limit_offset_length, H.
  - apply Forall_forall. intros m Hm.
    apply in_map_iff in Hm as [r [<- Hr]].
    apply Selection.In_limit_offset, Selection.In_sort_by, filter_In in Hr
      as [Hin Hf].
    apply andb_true_iff in Hf as [Hf Hq].
    apply andb_true_iff in Hf as [Hf Hl].
    apply andb_true_iff in Hf as [Ht Hty].
    simpl. repeat split.
    + unfold has_memory. apply existsb_exists. exists r; split; [exact Hin|].
      apply String.eqb_refl.
    + intros mt E. rewrite E in Hty.
      destruct (Row.memory_type r), mt; simpl in Hty; congruence.
    + intros il E. rewrite E in Hl.
      destruct (Row.importance_level r), il; simpl in Hl; congruence.
    + intros t ts E. rewrite E in Ht.
      apply existsb_exists in Ht as [n [Hn1 Hn2]].
      exists n; split; [exact Hn1|].
      apply Similarity.set_has_In in Hn2. exact Hn2.
    + intros q E Hne Hw. rewrite E in Hq.
      destruct q as [|c q]; [congruence|]. simpl truthy in Hq. cbv beta iota in Hq.
      apply orb_true_iff in Hq as [Hq|Hq].
      * left. rewrite <- (like_contains _ _ Hw). exact Hq.
      * right. destruct (Row.summary r) as [s|]; [|discriminate].
        exists s; split; [reflexivity|].
        rewrite <- (like_contains _ _ Hw). exact Hq.
Qed.

(** X5.  [getMemoriesForCompression] leaves the store as it is and returns
    records oldest first, at most [limit] of them (100 by default) for a
    non-negative limit; when more rows qualify than the limit allows, the
    ones left out are no older than any one returned. *)
Theorem getMemoriesForCompression_takes_the_oldest :
  forall (olderThan level : Z) (limit : option Z) (w : World),
  exists ms,
    getMemoriesForCompression olderThan level limit w = (Ok ms, w)
    /\ StronglySorted (fun a b => createdAt a <= createdAt b) ms
    /\ (0 <= default limit 100 ->
        Z.of_nat (List.length ms) <= default limit 100)
    /\ forall r, In r (structured_memories (db w)) ->
         compressible olderThan level r = true ->
         In (rowToMemory (db w) r) ms
         \/ forall m, In m ms -> createdAt m <= Row.created_at r.
Proof.
  intros olderThan level limit w. eexists; split; [reflexivity|].
  set (before := fun x y : Row.t => Row.created_at x <=? Row.created_at y).
  assert (Hsorted : forall l : list Row.t,
             StronglySorted (fun a b => before a b = true) (sort_by before l)).
  { intro l. apply sort_by_sorted; unfold before; intros; lia. }
  split; [|split].
  - apply (StronglySorted_map (fun a b => before a b = true)).
    + intros x y H; unfold before in H; simpl; lia.
    + apply StronglySorted_limit_offset, Hsorted.
  - intro H; rewrite length_map; apply limit_offset_length, H.
  - intros r Hr Hc.
    set (rows := rev (filter (compressible olderThan level)
                             (structured_memories (db w)))).
    assert (Hin : In r (sort_by before rows)).
    { apply (Permutation_in _ (sort_by_Permutation before rows)).
      apply in_rev. unfold rows. rewrite rev_involutive.
      apply filter_In; split; assumption. }
    change (In (rowToMemory (db w) r)
               (map (rowToMemory (db w))
                    (limit_offset (default limit 100) 0 (sort_by before rows)))
            \/ forall m,
                 In m (map (rowToMemory (db w))
                         (limit_offset (default limit 100) 0 (sort_by before rows))) ->
                 createdAt m <= Row.created_at r).
    unfold limit_offset. simpl skipn.
    destruct (default limit 100 <? 0).
    + left. apply in_map, Hin.
    + rewrite <- (firstn_skipn (Z.to_nat (default limit 100))) in Hin.
      apply in_app_or in Hin as [Hin|Hin]; [left; apply in_map, Hin|].
      right. intros m Hm. apply in_map_iff in Hm as [x [<- Hx]].
      specialize (Hsorted rows).
      rewrite <- (firstn_skipn (Z.to_nat (default limit 100))) in Hsorted.
      pose proof (StronglySorted_cross _ _ _ Hsorted x r Hx Hin) as H.
      unfold before in H; simpl; lia.
Qed.

Lemma getAllTags_run w :
  getAllTags w
  = (Ok (map rowToTag
           (sort_by (fun x y => memory_count y <=? memory_count x)
                    (tags_table (db w)))), w).
Proof. reflexivity. Qed.

(** X6.  [getAllTags] returns every tag of the table exactly once, the most
    used first. *)
Theorem getAllTags_lists_every_tag_by_use :
  forall (w : World),
  exists ts,
    getAllTags w = (Ok ts, w)
    /\ Permutation (map rowToTag (tags_table (db w))) ts
    /\ StronglySorted (fun a b => Tag.memoryCount b <= Tag.memoryCount a) ts.
Proof.
  intro w. eexists; split; [apply getAllTags_run|]. split.
  - apply Permutation_map, sort_by_Permutation.
  - apply (StronglySorted_map
             (fun a b => (memory_count b <=? memory_count a) = true)).
    + intros x y H; simpl; lia.
    + apply sort_by_sorted; intros; lia.
Qed.

(** X7.  [status] reports the number of records and of tags, and as top tags
    at most five names, those of the most used tags: a tag whose name is not
    listed is used no more than any tag listed. *)
Theorem status_lists_the_most_used_tags :
  forall (w : World),
  exists st,
    Backend.status w = (Ok st, w)
    /\ Backend.files st = Z.of_nat (List.length (structured_memories (db w)))
    /\ Backend.tagCount st = Z.of_nat (List.length (tags_table (db w)))
    /\ (List.length (Backend.topTags st) <= 5)%nat
    /\ forall t, In t (tags_table (db w)) ->
         In (name t) (Backend.topTags st)
         \/ forall n, In n (Backend.topTags st) ->
              exists t', In t' (tags_table (db w)) /\ name t' = n
                         /\ memory_count t <= memory_count t'.
Proof.
  intro w. unfold Backend.status.
  rewrite (bind_ok _ _ _ _ _ (getAllTags_run w)).
  eexists; split; [reflexivity|].
  set (before := fun x y : TagRow => memory_count y <=? memory_count x).
  cbn [Backend.files Backend.tagCount Backend.topTags].
  split; [reflexivity|]. split.
  { rewrite length_map.
    rewrite (Permutation_length (sort_by_Permutation before (tags_table (db w)))).
    reflexivity. }
  split.
  { rewrite length_map, (take_nonneg 5) by lia.
    rewrite length_firstn. lia. }
  intros t Ht.
  assert (Hsorted : StronglySorted (fun a b => before a b = true)
                      (sort_by before (tags_table (db w)))).
  { apply sort_by_sorted; unfold before; intros; lia. }
  apply (Permutation_in _ (sort_by_Permutation before _)) in Ht.
  rewrite (take_nonneg 5) by lia.
  change (Z.to_nat 5) with 5%nat. rewrite firstn_map.
  rewrite <- (firstn_skipn 5) in Ht. apply in_app_or in Ht as [Ht|Ht].
  - left. change (name t) with (Tag.name (rowToTag t)).
    rewrite map_map. apply (in_map (fun x => Tag.name (rowToTag x))), Ht.
  - right. intros n Hn. rewrite map_map in Hn.
    apply in_map_iff in Hn as [t' [<- Ht']].
    exists t'. split.
    + apply (Permutation_in _ (Permutation_sym (sort_by_Permutation before _))).
      rewrite <- (firstn_skipn 5). apply in_or_app; left; exact Ht'.
    + split; [reflexivity|].
      rewrite <- (firstn_skipn 5) in Hsorted.
      pose proof (StronglySorted_cross _ _ _ Hsorted t' t Ht' Ht) as H.
      unfold before in H; lia.
Qed.

End Queries.

(* ================================================================== *)
(** ** Reading back what the store operations wrote *)

Module StoreOps.
Import Store StoreFacts Terms Fixture.
Local Open Scope store_scope.

Lemma getMemory_hit w mid row :
  select_memory (db w) mid = Some row ->
  getMemory mid w = (Ok (Some (rowToMemory (db w) row)), w).
Proof. intro H. unfold getMemory, bind, get_db. rewrite H. reflexivity. Qed.

Lemma getMemory_miss w mid :
  has_memory (db w) mid = false -> getMemory mid w = (Ok None, w).
Proof.
  intro H. unfold getMemory, bind, get_db.
  rewrite (Similarity.has_memory_none _ _ H). reflexivity.
Qed.

Lemma getMemory_some w mid m :
  eval (getMemory mid) w = Ok (Some m) ->
  exists row, select_memory (db w) mid = Some row
              /\ m = rowToMemory (db w) row
              /\ Row.id row = mid
              /\ has_memory (db w) mid = true.
Proof.
  unfold eval, getMemory, bind, get_db. cbn [fst].
  destruct (select_memory (db w) mid) as [row|] eqn:E; cbn; [|discriminate].
  intro H; inversion H; subst m. exists row.
  split; [reflexivity|]. split; [reflexivity|].
  unfold select_memory in E. apply find_some in E as [Hin Hid].
  split; [apply String.eqb_eq, Hid|].
  unfold has_memory. apply existsb_exists. exists row; split; assumption.
Qed.

Lemma with_memories_same d : with_memories d (structured_memories d) = d.
Proof. destruct d; reflexivity. Qed.

Lemma set_db_same w : set_db w (db w) = w.
Proof. destruct w; reflexivity. Qed.

Lemma filter_none {A} (f : A -> bool) (l : list A) :
  existsb f l = false -> filter f l = [].
Proof.
  induction l as [|x l IH]; simpl; [reflexivity|].
  destruct (f x); simpl; [discriminate | exact IH].
Qed.

Lemma filter_all {A} (f : A -> bool) (l : list A) :
  existsb (fun x => negb (f x)) l = false -> filter f l = l.
Proof.
  induction l as [|x l IH]; simpl; [reflexivity|].
  destruct (f x); simpl; [intro H; rewrite IH; auto | discriminate].
Qed.

Lemma existsb_hits {A} (f : A -> bool) (l : list A) :
  (0 <? Z.of_nat (List.length (filter f l))) = existsb f l.
Proof.
  induction l as [|x l IH]; simpl; [reflexivity|].
  destruct (f x); simpl; [|exact IH].
  apply Z.ltb_lt. lia.
Qed.

(** X9.  An id that the store does not hold: reading it gives [null],
    updating it gives [null], deleting it gives [false], and none of the
    three changes the store. *)
Theorem missing_id_is_reported_and_changes_nothing :
  forall (mid : string) (w : World),
    has_memory (db w) mid = false ->
    getMemory mid w = (Ok None, w)
    /\ (forall updates, updateMemory mid updates w = (Ok None, w))
    /\ deleteMemory mid w = (Ok false, w).
Proof.
  intros mid w H. pose proof (getMemory_miss w mid H) as Hget.
  split; [exact Hget|]. split.
  - intro updates. unfold updateMemory.
    rewrite (bind_ok _ _ _ _ _ Hget). reflexivity.
  - unfold deleteMemory, delete_memory, bind, get_db, put_db, ret. cbn.
    unfold has_memory in H.
    rewrite (filter_none _ _ H). cbn.
    rewrite filter_all.
    + rewrite with_memories_same, set_db_same. reflexivity.
    + unfold neqb_str. rewrite <- H.
      clear. induction (structured_memories (db w)) as [|r l IH]; simpl;
        [reflexivity|].
      rewrite negb_involutive, IH. reflexivity.
Qed.

Lemma missing_id_is_reported_and_changes_nothing_witness :
  getMemory "m9" linked = (Ok None, linked)
  /\ (forall updates, updateMemory "m9" updates linked = (Ok None, linked))
  /\ deleteMemory "m9" linked = (Ok false, linked).
Proof.
  apply (missing_id_is_reported_and_changes_nothing "m9" linked).
  vm_compute. reflexivity.
Defined.

(** *** [deleteMemory], then reading *)

Lemma find_filter_other (mid other : string) (l : list Row.t) :
  other <> mid ->
  find (fun r => String.eqb (Row.id r) other)
       (filter (fun r => neqb_str (Row.id r) mid) l)
  = find (fun r => String.eqb (Row.id r) other) l.
Proof.
  intro Hne. induction l as [|r l IH]; simpl; [reflexivity|].
  unfold neqb_str at 1.
  destruct (String.eqb_spec (Row.id r) mid) as [E|E]; simpl.
  - destruct (String.eqb_spec (Row.id r) other) as [E'|E']; [congruence|].
    exact IH.
  - rewrite IH. reflexivity.
Qed.

Lemma find_filter_self (mid : string) (l : list Row.t) :
  find (fun r => String.eqb (Row.id r) mid)
       (filter (fun r => neqb_str (Row.id r) mid) l) = None.
Proof.
  induction l as [|r l IH]; simpl; [reflexivity|].
  unfold neqb_str at 1.
  destruct (String.eqb (Row.id r) mid) eqn:E; simpl; [exact IH|].
  rewrite E. exact IH.
Qed.

Lemma links_without_links_of (mid other : string) (links : list (string * Z)) :
  other <> mid ->
  filter (fun l => String.eqb (fst l) other)
         (filter (fun l => neqb_str (fst l) mid) links)
  = filter (fun l => String.eqb (fst l) other) links.
Proof.
  intro Hne. induction links as [|l links IH]; simpl; [reflexivity|].
  unfold neqb_str at 1.
  destruct (String.eqb_spec (fst l) mid) as [E|E]; simpl.
  - destruct (String.eqb_spec (fst l) other) as [E'|E']; [congruence|].
    exact IH.
  - rewrite IH. reflexivity.
Qed.

(** X10.  [deleteMemory] returns [true] exactly when the id was in the
    store; afterwards the id reads as [null], and every other id reads as it
    did before, tags included, whether foreign keys are enforced or not.
    Table [tags] is never written: the [memory_count] of the tags of the
    deleted record stays as it was.  Without foreign-key enforcement the tag
    links, the access log and the relation edges are left as they were. *)
Theorem deleteMemory_removes_exactly_that_record :
  forall (mid : string) (w : World),
    eval (deleteMemory mid) w = Ok (has_memory (db w) mid)
    /\ eval (getMemory mid) (exec (deleteMemory mid) w) = Ok None
    /\ (forall other, other <> mid ->
          eval (getMemory other) (exec (deleteMemory mid) w)
          = eval (getMemory other) w)
    /\ tags_table (db (exec (deleteMemory mid) w)) = tags_table (db w)
    /\ (foreign_keys (db w) = false ->
        memory_tags (db (exec (deleteMemory mid) w)) = memory_tags (db w)
        /\ memory_access_log (db (exec (deleteMemory mid) w))
           = memory_access_log (db w)
        /\ memory_relations (db (exec (deleteMemory mid) w))
           = memory_relations (db w)).
Proof.
  intros mid w.
  unfold exec, eval, deleteMemory, delete_memory, bind, get_db, put_db, ret.
  cbn [fst snd].
  split; [|split; [|split; [|split]]].
  4:{ cbn [db set_db].
      destruct (filter _ _); [|destruct (foreign_keys (db w))]; reflexivity. }
  4:{ intro Hfk. rewrite Hfk. cbn [db set_db].
      destruct (filter _ _); repeat split. }
  - f_equal. apply existsb_hits.
  - unfold getMemory, bind, get_db. cbn [fst snd db set_db].
    assert (H : select_memory
                  (match filter (fun r => String.eqb (Row.id r) mid)
                                (structured_memories (db w)) with
                   | [] => with_memories (db w)
                             (filter (fun r => neqb_str (Row.id r) mid)
                                     (structured_memories (db w)))
                   | _ :: _ =>
                       if foreign_keys (db w)
                       then cascade_delete
                              (with_memories (db w)
                                 (filter (fun r => neqb_str (Row.id r) mid)
                                         (structured_memories (db w)))) mid
                       else with_memories (db w)
                              (filter (fun r => neqb_str (Row.id r) mid)
                                      (structured_memories (db w)))
                   end) mid = None).
    { unfold select_memory.
      destruct (filter _ _); [|destruct (foreign_keys (db w))];
        apply find_filter_self. }
    rewrite H. reflexivity.
  - intros other Hne.
    unfold getMemory, bind, get_db. cbn [fst snd db set_db].
    set (d' := match filter _ _ with [] => _ | _ :: _ => _ end).
    assert (Hsel : select_memory d' other = select_memory (db w) other).
    { unfold select_memory. subst d'.
      destruct (filter _ _); [|destruct (foreign_keys (db w))];
        apply find_filter_other, Hne. }
    assert (Htags : forall i, i = other ->
               getTagsForMemory d' i = getTagsForMemory (db w) i).
    { intros i ->. unfold getTagsForMemory. subst d'.
      destruct (filter _ _); [reflexivity|].
      destruct (foreign_keys (db w)); [|reflexivity].
      rewrite <- (links_without_links_of mid other (memory_tags (db w)) Hne).
      reflexivity. }
    rewrite Hsel.
    destruct (select_memory (db w) other) as [row|] eqn:E; [|reflexivity].
    cbn. unfold rowToMemory. rewrite Htags; [reflexivity|].
    unfold select_memory in E. apply find_some in E as [_ E].
    apply String.eqb_eq, E.
Qed.

(** *** [updateMemory], then reading *)

Lemma select_some_has d mid row :
  select_memory d mid = Some row ->
  has_memory d mid = true /\ Row.id row = mid.
Proof.
  unfold select_memory, has_memory. intro E.
  apply find_some in E as [Hin Hid]. split.
  - apply existsb_exists. exists row; split; assumption.
  - apply String.eqb_eq, Hid.
Qed.

Lemma find_map_id (g : Row.t -> Row.t) (mid : string) (l : list Row.t) :
  (forall r, Row.id (g r) = Row.id r) ->
  find (fun r => String.eqb (Row.id r) mid)
       (map (fun r => if String.eqb (Row.id r) mid then g r else r) l)
  = option_map g (find (fun r => String.eqb (Row.id r) mid) l).
Proof.
  intro Hg. induction l as [|r l IH]; simpl; [reflexivity|].
  destruct (String.eqb (Row.id r) mid) eqn:E; simpl.
  - rewrite Hg, E. reflexivity.
  - rewrite E. exact IH.
Qed.

Lemma fold_assign_id sets r : Row.id (fold_left assign sets r) = Row.id r.
Proof. apply (fold_assign_frame sets r). Qed.

Lemma link_tag_clock memoryId tagName w :
  clock (exec (link_tag memoryId tagName) w) = clock w.
Proof.
  unfold exec, link_tag, bind, get_db; simpl.
  destruct (select_tag_by_name (db w) tagName) eqn:Hsel; simpl.
  - unfold insert_or_ignore_memory_tag, bind, get_db; simpl.
    split_if; simpl; [reflexivity|].
    split_if; simpl; reflexivity.
  - unfold Date_now, insert_tag, bind, get_db; simpl. rewrite Hsel; simpl.
    unfold insert_or_ignore_memory_tag, bind, get_db; simpl.
    split_if; simpl; [reflexivity|].
    split_if; simpl; reflexivity.
Qed.

Lemma setTagsForMemory_clock memoryId tagNames w :
  clock (exec (setTagsForMemory memoryId tagNames) w) = clock w.
Proof.
  unfold setTagsForMemory. unfold exec at 1, bind; simpl.
  apply (for_each_invariant (fun w' => clock w' = clock w)).
  - intros x w1 H. rewrite link_tag_clock. exact H.
  - reflexivity.
Qed.

Lemma merged_row (u : Upd.t) (now : Z) (row : Row.t) :
  fold_left assign
    ((push_if (Upd.content u) SetContent
      ++ push_if (Upd.summary u) SetSummary
      ++ push_if (Upd.memoryType u) SetMemoryType
      ++ push_if (Upd.importanceLevel u) SetImportanceLevel
      ++ push_if (Upd.importanceScore u) SetImportanceScore)
     ++ [SetUpdatedAt now])%list row
  = row_with row
      (default (Upd.content u) (Row.content row))
      (match Upd.summary u with Some s => Some s | None => Row.summary row end)
      (default (Upd.memoryType u) (Row.memory_type row))
      (default (Upd.importanceLevel u) (Row.importance_level row))
      (default (Upd.importanceScore u) (Row.importance_score row))
      now.
Proof.
  destruct (Upd.content u), (Upd.summary u), (Upd.memoryType u),
    (Upd.importanceLevel u), (Upd.importanceScore u); reflexivity.
Qed.

Lemma sets_length (u : Upd.t) (now : Z) :
  (1 <? List.length
          ((push_if (Upd.content u) SetContent
            ++ push_if (Upd.summary u) SetSummary
            ++ push_if (Upd.memoryType u) SetMemoryType
            ++ push_if (Upd.importanceLevel u) SetImportanceLevel
            ++ push_if (Upd.importanceScore u) SetImportanceScore)
           ++ [SetUpdatedAt now])%list)%nat
  = writes_row u.
Proof.
  unfold writes_row.
  destruct (Upd.content u), (Upd.summary u), (Upd.memoryType u),
    (Upd.importanceLevel u), (Upd.importanceScore u); reflexivity.
Qed.

(** The run of [updateMemory] on a stored id, step by step: the tag step
    leaves a world [w1] with the same records and clock; the row is then
    rewritten when a written field is supplied, and read back. *)
Lemma updateMemory_run mid updates w row :
  select_memory (db w) mid = Some row ->
  exists w1 w' row',
    match Upd.tags updates with
    | Some ts => setTagsForMemory mid ts
    | None => ret tt
    end w = (Ok tt, w1)
    /\ updateMemory mid updates w = (Ok (Some (rowToMemory (db w') row')), w')
    /\ select_memory (db w') mid = Some row'
    /\ tags_table (db w') = tags_table (db w1)
    /\ memory_tags (db w') = memory_tags (db w1)
    /\ tags_seq (db w') = tags_seq (db w1)
    /\ row' = (if writes_row updates
               then row_with row
                      (default (Upd.content updates) (Row.content row))
                      (match Upd.summary updates with
                       | Some s => Some s
                       | None => Row.summary row
                       end)
                      (default (Upd.memoryType updates) (Row.memory_type row))
                      (default (Upd.importanceLevel updates)
                               (Row.importance_level row))
                      (default (Upd.importanceScore updates)
                               (Row.importance_score row))
                      (clock w)
               else row).
Proof.
  intro Hsel.
  destruct (select_some_has _ _ _ Hsel) as [Hhas Hid].
  unfold updateMemory.
  rewrite (bind_ok _ _ _ _ _ (getMemory_hit _ _ _ Hsel)).
  set (tagstep := match Upd.tags updates with
                  | Some ts => setTagsForMemory mid ts
                  | None => ret tt
                  end).
  assert (Htag : exists w1, tagstep w = (Ok tt, w1) /\ same_memories w w1
                            /\ clock w1 = clock w).
  { subst tagstep. destruct (Upd.tags updates) as [ts|].
    - destruct (Stage.setTagsForMemory_ok mid ts w Hhas) as [w1 [Hrun Hs]].
      exists w1. split; [exact Hrun|]. split; [exact Hs|].
      pose proof (setTagsForMemory_clock mid ts w) as Hc.
      unfold exec in Hc. rewrite Hrun in Hc. exact Hc.
    - exists w. repeat split. }
  destruct Htag as [w1 [Hrun [Hs Hc]]].
  exists w1.
  rewrite (bind_ok _ _ _ _ _ Hrun).
  rewrite (bind_ok Date_now _ w1 (clock w1) w1 eq_refl).
  rewrite sets_length, Hc.
  unfold same_memories in Hs.
  assert (Hsel1 : select_memory (db w1) mid = Some row).
  { unfold select_memory. rewrite Hs. exact Hsel. }
  destruct (writes_row updates) eqn:Hw.
  - match goal with
    | |- context [update_memory mid ?f] => set (g := f)
    end.
    assert (Hupd : update_memory mid g w1
                   = (Ok tt, set_db w1 (with_memories (db w1)
                        (map (fun r => if String.eqb (Row.id r) mid
                                       then g r else r)
                             (structured_memories (db w1))))))
      by reflexivity.
    rewrite (bind_ok _ _ _ _ _ Hupd).
    set (w2 := set_db w1 _).
    assert (Hsel2 : select_memory (db w2) mid = Some (g row)).
    { subst w2. unfold select_memory. cbn [db set_db structured_memories with_memories].
      rewrite (find_map_id g mid).
      - unfold select_memory in Hsel1. rewrite Hsel1. reflexivity.
      - intro r. apply fold_assign_id. }
    rewrite (getMemory_hit _ _ _ Hsel2).
    exists w2, (g row). split; [exact Hrun|]. split; [reflexivity|].
    split; [exact Hsel2|]. split; [reflexivity|]. split; [reflexivity|].
    split; [reflexivity|].
    subst g. cbv beta. apply merged_row.
  - unfold bind at 1, ret at 1.
    rewrite (getMemory_hit _ _ _ Hsel1).
    exists w1, row. split; [exact Hrun|]. split; [reflexivity|].
    split; [exact Hsel1|]. repeat split.
Qed.

(** X11.  [updateMemory] on a stored id returns the record as it is stored
    afterwards: the fields content, summary, memoryType, importanceLevel and
    importanceScore take the values supplied and keep their value where none
    is supplied; [updatedAt] becomes the time of the call when one of the
    five is supplied and is kept otherwise; id, source path, creation time,
    access statistics and compression fields are kept. *)
Theorem updateMemory_returns_the_merged_record :
  forall (mid : string) (updates : Upd.t) (w : World) (m : StructuredMemory),
    eval (getMemory mid) w = Ok (Some m) ->
    exists m' w',
      updateMemory mid updates w = (Ok (Some m'), w')
      /\ eval (getMemory mid) w' = Ok (Some m')
      /\ content m' = default (Upd.content updates) (content m)
      /\ summary m' = match Upd.summary updates with
                      | Some s => Some s
                      | None => summary m
                      end
      /\ memoryType m' = default (Upd.memoryType updates) (memoryType m)
      /\ importanceLevel m'
         = default (Upd.importanceLevel updates) (importanceLevel m)
      /\ importanceScore m'
         = default (Upd.importanceScore updates) (importanceScore m)
      /\ updatedAt m' = (if writes_row updates then clock w else updatedAt m)
      /\ id m' = mid /\ sourcePath m' = sourcePath m
      /\ createdAt m' = createdAt m /\ accessedAt m' = accessedAt m
      /\ accessCount m' = accessCount m
      /\ compressionLevel m' = compressionLevel m
      /\ compressedFrom m' = compressedFrom m.
Proof.
  intros mid updates w m Hm.
  destruct (getMemory_some _ _ _ Hm) as [row [Hsel [-> [Hid Hhas]]]].
  destruct (updateMemory_run mid updates w row Hsel)
    as [w1 [w' [row' [_ [Hrun [Hsel' [_ [_ [_ Hrow]]]]]]]]].
  exists (rowToMemory (db w') row'), w'.
  split; [exact Hrun|].
  split; [unfold eval; rewrite (getMemory_hit _ _ _ Hsel'); reflexivity|].
  subst row'. destruct (writes_row updates) eqn:Hw.
  - cbn. repeat split; exact Hid.
  - unfold writes_row in Hw.
    destruct (Upd.content updates), (Upd.summary updates),
      (Upd.memoryType updates), (Upd.importanceLevel updates),
      (Upd.importanceScore updates); try discriminate.
    cbn. repeat split; exact Hid.
Qed.

Lemma updateMemory_returns_the_merged_record_witness :
  exists m' w',
    updateMemory "m1" (Sync.Upd_section (section_of "edited")) stored
    = (Ok (Some m'), w')
    /\ content m' = "edited" /\ updatedAt m' = 2000 /\ createdAt m' = 1000.
Proof.
  destruct (updateMemory_returns_the_merged_record
              "m1" (Sync.Upd_section (section_of "edited")) stored existing)
    as [m' [w' [Hrun [_ [Hc [_ [_ [_ [_ [Hu [_ [_ [Hcr _]]]]]]]]]]]]].
  - reflexivity.
  - exists m', w'. split; [exact Hrun|]. split; [exact Hc|].
    split; [exact Hu | exact Hcr].
Defined.

(** *** [recordAccess], then reading *)

Lemma bump_access_id now r : Row.id (bump_access now r) = Row.id r.
Proof. reflexivity. Qed.

Lemma map_other_id (g : Row.t -> Row.t) (mid : string) (l : list Row.t) :
  existsb (fun r => String.eqb (Row.id r) mid) l = false ->
  map (fun r => if String.eqb (Row.id r) mid then g r else r) l = l.
Proof.
  induction l as [|r l IH]; simpl; [reflexivity|].
  destruct (String.eqb (Row.id r) mid); simpl; [discriminate|].
  intro H. rewrite IH; auto.
Qed.

Lemma insert_access_log_ok mid now q a w :
  (foreign_keys (db w) && negb (has_memory (db w) mid))%bool = false ->
  insert_access_log mid now q a w
  = (Ok tt,
     set_db w (with_access_log (db w)
                 (memory_access_log (db w) ++ [log_row (db w) mid now q a])%list
                 (access_log_seq (db w) + 1))).
Proof.
  intro H. unfold insert_access_log, bind, get_db. rewrite H. reflexivity.
Qed.

Lemma insert_access_log_refused mid now q a w :
  (foreign_keys (db w) && negb (has_memory (db w) mid))%bool = true ->
  insert_access_log mid now q a w = (Throw "FOREIGN KEY constraint failed", w).
Proof.
  intro H. unfold insert_access_log, bind, get_db. rewrite H. reflexivity.
Qed.

(** X12.  [recordAccess] on a stored id appends one row to the access log,
    and the record then reads with its access count one higher and its
    access time the time of the call; content, score and update time are as
    before.  On an id that is not stored it throws and changes nothing when
    foreign keys are enforced; when they are not, it appends the log row all
    the same and changes no record. *)
Theorem recordAccess_counts_one_access :
  forall (mid : string) (a : Action) (q : option string) (w : World),
    (forall m, eval (getMemory mid) w = Ok (Some m) ->
       exists w' m',
         recordAccess mid a q w = (Ok tt, w')
         /\ eval (getMemory mid) w' = Ok (Some m')
         /\ accessCount m' = accessCount m + 1
         /\ accessedAt m' = Some (clock w)
         /\ content m' = content m
         /\ importanceScore m' = importanceScore m
         /\ updatedAt m' = updatedAt m
         /\ memory_access_log (db w')
            = (memory_access_log (db w)
               ++ [log_row (db w) mid (clock w) q a])%list)
    /\ (has_memory (db w) mid = false -> foreign_keys (db w) = true ->
        exists e, recordAccess mid a q w = (Throw e, w))
    /\ (has_memory (db w) mid = false -> foreign_keys (db w) = false ->
        exists w',
          recordAccess mid a q w = (Ok tt, w')
          /\ same_memories w w'
          /\ memory_access_log (db w')
             = (memory_access_log (db w)
                ++ [log_row (db w) mid (clock w) q a])%list).
Proof.
  intros mid a q w.
  unfold recordAccess.
  rewrite (bind_ok Date_now _ w (clock w) w eq_refl).
  split; [|split].
  - intros m Hm.
    destruct (getMemory_some _ _ _ Hm) as [row [Hsel [-> [Hid Hhas]]]].
    rewrite (bind_ok _ _ _ _ _ (insert_access_log_ok mid (clock w) q a w
               ltac:(rewrite Hhas; apply andb_false_r))).
    unfold update_memory, bind, get_db, put_db.
    cbn [fst snd db set_db structured_memories with_access_log with_memories
         memory_access_log].
    set (w2 := set_db _ _).
    assert (Hsel2 : select_memory (db w2) mid = Some (bump_access (clock w) row)).
    { subst w2. unfold select_memory.
      cbn [db set_db structured_memories with_memories].
      rewrite (find_map_id (bump_access (clock w)) mid).
      - unfold select_memory in Hsel. rewrite Hsel. reflexivity.
      - intro r; reflexivity. }
    exists w2. eexists. split; [reflexivity|].
    split; [unfold eval; rewrite (getMemory_hit _ _ _ Hsel2); reflexivity|].
    cbn. repeat split.
  - intros Hmiss Hfk.
    eexists. apply bind_throw, insert_access_log_refused.
    rewrite Hmiss, Hfk. reflexivity.
  - intros Hmiss Hfk.
    rewrite (bind_ok _ _ _ _ _ (insert_access_log_ok mid (clock w) q a w
               ltac:(rewrite Hfk; reflexivity))).
    unfold update_memory, bind, get_db, put_db.
    cbn [fst snd db set_db structured_memories with_access_log with_memories
         memory_access_log].
    eexists. split; [reflexivity|]. split.
    + unfold same_memories.
      cbn [db set_db structured_memories with_memories].
      apply map_other_id. exact Hmiss.
    + reflexivity.
Qed.

End StoreOps.

(* ================================================================== *)
(** ** Tags: what [setTagsForMemory] leaves behind *)

Module Tags.
Import Store StoreFacts Terms Fixture.
Local Open Scope store_scope.

Lemma link_tag_run mid n w :
  has_memory (db w) mid = true ->
  link_tag mid n w = (Ok tt, set_db w (link_tag_db mid n (clock w) (db w))).
Proof.
  intro Hm. unfold link_tag, link_tag_db, bind, get_db; simpl.
  destruct (select_tag_by_name (db w) n) as [t|] eqn:Hsel; simpl.
  - pose proof (Stage.select_tag_has_tag _ _ _ Hsel) as Ht.
    unfold insert_or_ignore_memory_tag, bind, get_db; simpl.
    destruct (has_link (db w) mid (tag_id t)); simpl.
    + reflexivity.
    + rewrite Hm, Ht; simpl. rewrite andb_false_r; simpl. reflexivity.
  - unfold Date_now, insert_tag, bind, get_db; simpl. rewrite Hsel; simpl.
    unfold insert_or_ignore_memory_tag, bind, get_db; simpl.
    split_if; simpl.
    + reflexivity.
    + unfold has_memory in *; simpl. rewrite Hm.
      unfold has_tag; simpl. rewrite existsb_app; simpl.
      rewrite Z.eqb_refl, orb_true_r; simpl. rewrite andb_false_r; simpl.
      reflexivity.
Qed.

Lemma link_tag_db_memories mid n now d :
  structured_memories (link_tag_db mid n now d) = structured_memories d.
Proof.
  unfold link_tag_db.
  destruct (select_tag_by_name d n); simpl;
    match goal with |- context [has_link ?a ?b ?c] => destruct (has_link a b c) end;
    reflexivity.
Qed.

Lemma for_each_link_run mid now ns : forall w,
  has_memory (db w) mid = true -> clock w = now ->
  for_each ns (link_tag mid) w
  = (Ok tt, set_db w (fold_left (fun d n => link_tag_db mid n now d) ns (db w))).
Proof.
  induction ns as [|n ns IH]; intros w Hm Hc; simpl.
  - unfold ret. rewrite StoreOps.set_db_same. reflexivity.
  - rewrite (bind_ok _ _ _ _ _ (link_tag_run mid n w Hm)).
    rewrite IH.
    + rewrite Hc. reflexivity.
    + unfold has_memory in *. cbn [db set_db].
      rewrite link_tag_db_memories. exact Hm.
    + exact Hc.
Qed.

Lemma setTagsForMemory_run mid ns w :
  has_memory (db w) mid = true ->
  setTagsForMemory mid ns w
  = (Ok tt,
     set_db w
       (fold_left (fun d n => link_tag_db mid n (clock w) d) ns
          (with_memory_tags (db w)
             (filter (fun l => neqb_str (fst l) mid) (memory_tags (db w)))))).
Proof.
  intro Hm. unfold setTagsForMemory.
  assert (Hdel : delete_memory_tags mid w
                 = (Ok tt, set_db w (with_memory_tags (db w)
                      (filter (fun l => neqb_str (fst l) mid)
                              (memory_tags (db w)))))) by reflexivity.
  rewrite (bind_ok _ _ _ _ _ Hdel).
  rewrite (for_each_link_run mid (clock w)); [reflexivity | exact Hm | reflexivity].
Qed.

(** *** One round of the loop on the tables *)

Lemma select_tag_some d n t :
  select_tag_by_name d n = Some t -> In t (tags_table d) /\ name t = n.
Proof.
  unfold select_tag_by_name. intro H. apply find_some in H as [H1 H2].
  split; [exact H1 | apply String.eqb_eq, H2].
Qed.

Lemma select_tag_none d n :
  select_tag_by_name d n = None -> ~ In n (map name (tags_table d)).
Proof.
  unfold select_tag_by_name. intros H Hin.
  apply in_map_iff in Hin as [t [Hn Ht]].
  pose proof (find_none _ _ H t Ht) as Hf. cbv beta in Hf.
  rewrite Hn, String.eqb_refl in Hf. discriminate.
Qed.

Lemma has_link_In d mid tid :
  has_link d mid tid = true <-> In (mid, tid) (memory_tags d).
Proof.
  unfold has_link. rewrite existsb_exists. split.
  - intros [[m t] [Hin H]]. simpl in H.
    apply andb_true_iff in H as [H1 H2].
    apply String.eqb_eq in H1. apply Z.eqb_eq in H2. subst. exact Hin.
  - intro Hin. exists (mid, tid). split; [exact Hin|]. simpl.
    rewrite String.eqb_refl, Z.eqb_refl. reflexivity.
Qed.

Lemma recount_id d tid t : tag_id (recount d tid t) = tag_id t.
Proof. unfold recount. destruct (tag_id t =? tid); reflexivity. Qed.

Lemma recount_name d tid t : name (recount d tid t) = name t.
Proof. unfold recount. destruct (tag_id t =? tid); reflexivity. Qed.

Lemma recount_ids d tid ts : map tag_id (map (recount d tid) ts) = map tag_id ts.
Proof. rewrite map_map. apply map_ext. intro; apply recount_id. Qed.

Lemma recount_names d tid ts : map name (map (recount d tid) ts) = map name ts.
Proof. rewrite map_map. apply map_ext. intro; apply recount_name. Qed.

Lemma recount_count d tid t :
  memory_count (recount d tid t)
  = if tag_id t =? tid then count_links d tid else memory_count t.
Proof. unfold recount. destruct (tag_id t =? tid); reflexivity. Qed.

Lemma count_links_app d mid tid tid' :
  tid' <> tid ->
  count_links (with_memory_tags d (memory_tags d ++ [(mid, tid)])%list) tid'
  = count_links d tid'.
Proof.
  intro H. unfold count_links. cbn [memory_tags with_memory_tags].
  rewrite filter_app. simpl.
  destruct (Z.eqb_spec tid tid'); [congruence|].
  rewrite app_nil_r. reflexivity.
Qed.

Lemma tag_of_id d t t' :
  NoDup (map tag_id (tags_table d)) ->
  In t (tags_table d) -> In t' (tags_table d) -> tag_id t = tag_id t' -> t = t'.
Proof.
  intros Hnd. induction (tags_table d) as [|x l IH]; simpl; [tauto|].
  inversion Hnd as [|? ? Hx Hl]; subst.
  intros [->|Ht] [->|Ht'] E; auto.
  - exfalso. apply Hx. rewrite E. apply in_map, Ht'.
  - exfalso. apply Hx. rewrite <- E. apply in_map, Ht.
Qed.

(** The round for a tag [t0] that table [tags] holds. *)
Lemma link_known mid n done tid d1 t0 :
  tags_linked mid done d1 ->
  In t0 (tags_table d1) -> name t0 = n -> tag_id t0 = tid ->
  let d2 := if has_link d1 mid tid then d1
            else with_memory_tags d1 (memory_tags d1 ++ [(mid, tid)])%list in
  tags_linked mid (n :: done)
    (with_tags d2 (map (recount d2 tid) (tags_table d2)) (tags_seq d2)).
Proof.
  intros [[Hids [Hnames Hseq]] [HS [HC HD]]] Ht0 Hname Hid d2.
  assert (Htags : tags_table d2 = tags_table d1)
    by (subst d2; destruct (has_link d1 mid tid); reflexivity).
  assert (Hsq : tags_seq d2 = tags_seq d1)
    by (subst d2; destruct (has_link d1 mid tid); reflexivity).
  assert (Hsub : forall l, In l (memory_tags d1) -> In l (memory_tags d2)).
  { subst d2; destruct (has_link d1 mid tid); simpl; intros l Hl;
      [exact Hl | apply in_or_app; left; exact Hl]. }
  assert (Hnew : In (mid, tid) (memory_tags d2)).
  { subst d2; destruct (has_link d1 mid tid) eqn:E; simpl.
    - apply has_link_In, E.
    - apply in_or_app; right; left; reflexivity. }
  assert (Hold : forall l, In l (memory_tags d2) ->
                           In l (memory_tags d1) \/ l = (mid, tid)).
  { subst d2; destruct (has_link d1 mid tid); simpl; intros l Hl; [auto|].
    apply in_app_or in Hl as [Hl|[<-|[]]]; auto. }
  assert (Hcnt : forall tid', tid' <> tid ->
                              count_links d2 tid' = count_links d1 tid').
  { subst d2; destruct (has_link d1 mid tid); intros tid' Hne;
      [reflexivity | apply count_links_app, Hne]. }
  assert (HD2 : NoDup (filter (fun l => String.eqb (fst l) mid) (memory_tags d2))).
  { subst d2; destruct (has_link d1 mid tid) eqn:E; simpl; [exact HD|].
    rewrite filter_app. simpl. rewrite String.eqb_refl.
    apply NoDup_app; [exact HD | constructor; [tauto | constructor] |].
    intros l Hl [<-|[]]. apply filter_In in Hl as [Hl _].
    apply has_link_In in Hl. congruence. }
  unfold tags_linked, tags_wf.
  cbn [tags_table tags_seq memory_tags with_tags].
  rewrite recount_ids, recount_names, Htags, Hsq.
  split; [split; [exact Hids | split; [exact Hnames|]]|].
  { intros t Ht. apply in_map_iff in Ht as [t1 [<- Ht1]].
    rewrite recount_id. apply Hseq, Ht1. }
  split; [|split; [|exact HD2]].
  - intros tid' Hl. apply Hold in Hl as [Hl|Hl].
    + destruct (HS tid' Hl) as [t [Ht [Hi Hn]]].
      exists (recount d2 tid t). split; [apply in_map, Ht|].
      rewrite recount_id, recount_name. split; [exact Hi | right; exact Hn].
    + inversion Hl; subst tid'.
      exists (recount d2 tid t0). split; [apply in_map, Ht0|].
      rewrite recount_id, recount_name.
      split; [exact Hid | left; symmetry; exact Hname].
  - intros n' [<-|Hn'].
    + exists (recount d2 tid t0). split; [apply in_map, Ht0|].
      rewrite recount_id, recount_name, recount_count, Hid.
      split; [exact Hname|]. split; [exact Hnew|].
      rewrite Z.eqb_refl. reflexivity.
    + destruct (HC n' Hn') as [t [Ht [Hn [Hl Hc]]]].
      exists (recount d2 tid t). split; [apply in_map, Ht|].
      rewrite recount_id, recount_name, recount_count.
      split; [exact Hn|]. split; [apply Hsub, Hl|].
      destruct (Z.eqb_spec (tag_id t) tid) as [E|E].
      * rewrite E. reflexivity.
      * rewrite Hc. symmetry. apply (Hcnt (tag_id t) E).
Qed.

Lemma link_tag_db_linked mid n now done d :
  tags_linked mid done d ->
  tags_linked mid (n :: done) (link_tag_db mid n now d).
Proof.
  intro H. unfold link_tag_db.
  destruct (select_tag_by_name d n) as [t|] eqn:Hsel.
  - destruct (select_tag_some _ _ _ Hsel) as [Ht Hn].
    apply (link_known mid n done (tag_id t) d t); auto.
  - pose proof (select_tag_none _ _ Hsel) as Hfresh.
    set (t0 := {| tag_id := tags_seq d + 1; name := n; color := None;
                  description := None; tag_created_at := now;
                  memory_count := 0 |}).
    apply (link_known mid n done (tags_seq d + 1) _ t0);
      [|cbn [tags_table with_tags]; apply in_or_app; right; left; reflexivity
       |reflexivity|reflexivity].
    destruct H as [[Hids [Hnames Hseq]] [HS [HC HD]]].
    unfold tags_linked, tags_wf.
    cbn [tags_table tags_seq memory_tags with_tags].
    rewrite !map_app. cbn [map tag_id name t0].
    split; [split; [|split]|split; [|split; [|exact HD]]].
    + apply NoDup_app; [exact Hids | constructor; [tauto | constructor] |].
      intros i Hi [<-|[]]. apply in_map_iff in Hi as [t [Hi Ht]].
      specialize (Hseq t Ht). lia.
    + apply NoDup_app; [exact Hnames | constructor; [tauto | constructor] |].
      intros x Hx [<-|[]]. contradiction.
    + intros t Ht. apply in_app_or in Ht as [Ht|[<-|[]]].
      * specialize (Hseq t Ht). lia.
      * cbn. lia.
    + intros tid Hl. destruct (HS tid Hl) as [t [Ht Hrest]].
      exists t. split; [apply in_or_app; left; exact Ht | exact Hrest].
    + intros n' Hn'. destruct (HC n' Hn') as [t [Ht Hrest]].
      exists t. split; [apply in_or_app; left; exact Ht | exact Hrest].
Qed.

Lemma fold_link_tag_db_linked mid now ns : forall done d,
  tags_linked mid done d ->
  tags_linked mid (rev ns ++ done)
              (fold_left (fun d n => link_tag_db mid n now d) ns d).
Proof.
  induction ns as [|n ns IH]; intros done d H; simpl; [exact H|].
  rewrite <- app_assoc. simpl.
  apply IH, link_tag_db_linked, H.
Qed.

Lemma unlinked_is_linked mid d :
  tags_wf d ->
  tags_linked mid []
    (with_memory_tags d (filter (fun l => neqb_str (fst l) mid) (memory_tags d))).
Proof.
  intro H. unfold tags_linked. split; [exact H|].
  cbn [memory_tags with_memory_tags tags_table].
  split; [|split].
  - intros tid Hl. apply filter_In in Hl as [_ Hl]. simpl in Hl.
    unfold neqb_str in Hl. rewrite String.eqb_refl in Hl. discriminate.
  - intros n [].
  - rewrite (StoreOps.filter_none
               (fun l => String.eqb (fst l) mid)); [constructor|].
    induction (memory_tags d) as [|l ls IH]; simpl; [reflexivity|].
    unfold neqb_str at 1.
    destruct (String.eqb (fst l) mid) eqn:E; simpl; [exact IH|].
    rewrite E. exact IH.
Qed.

(** *** Reading the tags back *)

Lemma filter_tag_unique (ts : list TagRow) t :
  NoDup (map tag_id ts) -> In t ts ->
  filter (fun x => tag_id x =? tag_id t) ts = [t].
Proof.
  induction ts as [|x ts IH]; simpl; [tauto|].
  intros Hnd Hin. inversion Hnd as [|? ? Hx Hts]; subst.
  destruct Hin as [->|Hin].
  - rewrite Z.eqb_refl. f_equal.
    apply StoreOps.filter_none. apply not_true_is_false. intro H.
    apply existsb_exists in H as [y [Hy E]]. apply Z.eqb_eq in E.
    apply Hx. rewrite <- E. apply in_map, Hy.
  - destruct (Z.eqb_spec (tag_id x) (tag_id t)) as [E|E].
    + exfalso. apply Hx. rewrite E. apply in_map, Hin.
    + apply IH; assumption.
Qed.

Lemma In_links_of (d : Database) mid l :
  In l (sort_by (fun x y => snd x <=? snd y)
          (filter (fun l => String.eqb (fst l) mid) (memory_tags d)))
  <-> In l (memory_tags d) /\ fst l = mid.
Proof.
  split.
  - intro H. apply Selection.In_sort_by, filter_In in H as [H E].
    split; [exact H | apply String.eqb_eq, E].
  - intros [H E].
    apply (Permutation_in _ (Ordering.sort_by_Permutation _ _)).
    apply filter_In. split; [exact H | apply String.eqb_eq, E].
Qed.

Lemma tags_as_map (d : Database) mid (g : string * Z -> string) :
  NoDup (map tag_id (tags_table d)) ->
  (forall l, In l (memory_tags d) -> fst l = mid ->
     exists t, In t (tags_table d) /\ tag_id t = snd l /\ g l = name t) ->
  getTagsForMemory d mid
  = map g (sort_by (fun x y => snd x <=? snd y)
             (filter (fun l => String.eqb (fst l) mid) (memory_tags d))).
Proof.
  intros Hids Hall. unfold getTagsForMemory.
  pose proof (fun l => proj1 (In_links_of d mid l)) as Hin.
  induction (sort_by _ _) as [|l ls IH]; simpl; [reflexivity|].
  rewrite IH by (intros; apply Hin; right; assumption).
  destruct (Hin l (or_introl eq_refl)) as [Hl E].
  destruct (Hall l Hl E) as [t [Ht [Hi Hg]]].
  rewrite <- Hi, (filter_tag_unique _ _ Hids Ht). simpl. f_equal.
  symmetry. exact Hg.
Qed.

Lemma In_getTagsForMemory d mid n :
  In n (getTagsForMemory d mid)
  <-> exists t, In t (tags_table d) /\ name t = n
                /\ In (mid, tag_id t) (memory_tags d).
Proof.
  unfold getTagsForMemory. rewrite in_flat_map. split.
  - intros [[m tid] [Hl Hn]]. apply In_links_of in Hl as [Hl E].
    simpl in Hn, E. subst m.
    apply in_map_iff in Hn as [t [Hn Ht]].
    apply filter_In in Ht as [Ht E]. apply Z.eqb_eq in E. subst tid.
    exists t. repeat split; assumption.
  - intros [t [Ht [Hn Hl]]]. exists (mid, tag_id t).
    split; [apply In_links_of; split; [exact Hl | reflexivity]|].
    simpl. apply in_map_iff. exists t.
    split; [exact Hn|]. apply filter_In. split; [exact Ht | apply Z.eqb_refl].
Qed.

Lemma tags_of_linked mid done d :
  tags_linked mid done d ->
  NoDup (getTagsForMemory d mid)
  /\ forall n, In n (getTagsForMemory d mid) <-> In n done.
Proof.
  intros [[Hids [Hnames Hseq]] [HS [HC HD]]]. split.
  - set (g := fun l : string * Z =>
                match find (fun t => tag_id t =? snd l) (tags_table d) with
                | Some t => name t
                | None => EmptyString
                end).
    assert (Hg : forall t, In t (tags_table d) -> forall m,
                   g (m, tag_id t) = name t).
    { intros t Ht m. unfold g. simpl.
      destruct (find _ _) as [t'|] eqn:E.
      - apply find_some in E as [Ht' E]. apply Z.eqb_eq in E.
        f_equal. apply (tag_of_id d); assumption.
      - pose proof (find_none _ _ E t Ht) as H. cbv beta in H.
        rewrite Z.eqb_refl in H. discriminate. }
    assert (Hflat : getTagsForMemory d mid
                    = map g (sort_by (fun x y => snd x <=? snd y)
                               (filter (fun l => String.eqb (fst l) mid)
                                       (memory_tags d)))).
    { apply tags_as_map; [exact Hids|].
      intros [m tid] Hl E. simpl in E. subst m.
      destruct (HS tid Hl) as [t [Ht [Hi _]]]. exists t.
      split; [exact Ht|]. split; [exact Hi|].
      subst tid. apply Hg, Ht. }
    rewrite Hflat. apply NoDup_map_NoDup_ForallPairs;
      [|exact (Permutation_NoDup (Ordering.sort_by_Permutation _ _) HD)].
    intros [m1 t1] [m2 t2] H1 H2 E.
    apply In_links_of in H1 as [H1 E1]. apply In_links_of in H2 as [H2 E2].
    simpl in E1, E2. subst m1 m2.
    destruct (HS t1 H1) as [x1 [Hx1 [Hi1 _]]].
    destruct (HS t2 H2) as [x2 [Hx2 [Hi2 _]]].
    subst t1 t2. rewrite (Hg x1 Hx1 mid), (Hg x2 Hx2 mid) in E.
    f_equal.
    assert (x1 = x2); [|congruence].
    clear - Hnames Hx1 Hx2 E.
    induction (tags_table d) as [|x l IH]; simpl in *; [tauto|].
    inversion Hnames as [|? ? Hx Hl]; subst.
    destruct Hx1 as [->|Hx1], Hx2 as [->|Hx2]; auto.
    + exfalso. apply Hx. rewrite E. apply in_map, Hx2.
    + exfalso. apply Hx. rewrite <- E. apply in_map, Hx1.
  - intro n. rewrite In_getTagsForMemory. split.
    + intros [t [Ht [Hn Hl]]].
      destruct (HS _ Hl) as [t' [Ht' [Hi Hd]]].
      assert (t' = t) by (apply (tag_of_id d); assumption).
      subst t'. rewrite <- Hn. exact Hd.
    + intro Hn. destruct (HC n Hn) as [t [Ht [Hname [Hl _]]]].
      exists t. repeat split; assumption.
Qed.

Lemma setTagsForMemory_linked mid ns w :
  tags_wf (db w) -> has_memory (db w) mid = true ->
  exists w',
    setTagsForMemory mid ns w = (Ok tt, w')
    /\ tags_linked mid (rev ns) (db w').
Proof.
  intros Hwf Hm. eexists. split; [apply setTagsForMemory_run, Hm|].
  cbn [db set_db]. rewrite <- (app_nil_r (rev ns)).
  apply fold_link_tag_db_linked, unlinked_is_linked, Hwf.
Qed.

Lemma tags_linked_ext mid done d d' :
  tags_table d' = tags_table d -> tags_seq d' = tags_seq d ->
  memory_tags d' = memory_tags d ->
  tags_linked mid done d -> tags_linked mid done d'.
Proof.
  unfold tags_linked, tags_wf, count_links. intros -> -> ->. tauto.
Qed.

Lemma count_links_linked d mid tid :
  In (mid, tid) (memory_tags d) -> 1 <= count_links d tid.
Proof.
  intro H. unfold count_links.
  assert (Hin : In (mid, tid) (filter (fun l => snd l =? tid) (memory_tags d))).
  { apply filter_In. split; [exact H | apply Z.eqb_refl]. }
  destruct (filter _ _); [contradiction | simpl List.length; lia].
Qed.

(** X13.  [updateMemory] with a [tags] field on a stored id replaces the tag
    set of the record: read back, the record carries exactly the names
    given, each once; every tag so linked has a [memory_count] equal to the
    number of links that carry it, at least 1; and the constraints of table
    [tags] still hold. *)
Theorem updateMemory_replaces_the_tags :
  forall (mid : string) (updates : Upd.t) (names : list string) (w : World)
         (m : StructuredMemory),
    tags_wf (db w) ->
    eval (getMemory mid) w = Ok (Some m) ->
    Upd.tags updates = Some names ->
    exists m' w',
      updateMemory mid updates w = (Ok (Some m'), w')
      /\ NoDup (tags m')
      /\ (forall n, In n (tags m') <-> In n names)
      /\ (forall n, In n names ->
            exists t, In t (tags_table (db w')) /\ name t = n
                      /\ memory_count t = count_links (db w') (tag_id t)
                      /\ 1 <= memory_count t)
      /\ tags_wf (db w').
Proof.
  intros mid updates names w m Hwf Hm Htags.
  destruct (StoreOps.getMemory_some _ _ _ Hm) as [row [Hsel [-> [Hid Hhas]]]].
  destruct (StoreOps.updateMemory_run mid updates w row Hsel)
    as [w1 [w' [row' [Hstep [Hrun [Hsel' [Ht [Hl [Hs _]]]]]]]]].
  rewrite Htags in Hstep.
  destruct (setTagsForMemory_linked mid names w Hwf Hhas) as [w1' [Hrun1 Hlinked]].
  rewrite Hrun1 in Hstep. inversion Hstep; subst w1'; clear Hstep.
  apply (tags_linked_ext mid (rev names) (db w1) (db w') Ht Hs Hl) in Hlinked.
  destruct (tags_of_linked _ _ _ Hlinked) as [Hnd Hin].
  destruct (StoreOps.select_some_has _ _ _ Hsel') as [_ Hid'].
  exists (rowToMemory (db w') row'), w'. split; [exact Hrun|].
  cbn [tags rowToMemory]. rewrite Hid'.
  split; [exact Hnd|]. split.
  - intro n. rewrite Hin. symmetry. apply in_rev.
  - split; [|apply Hlinked].
    intros n Hn. destruct Hlinked as [_ [_ [HC _]]].
    destruct (HC n (proj1 (in_rev _ _) Hn)) as [t [Hin_t [Hname [Hlink Hc]]]].
    exists t. split; [exact Hin_t|]. split; [exact Hname|].
    split; [exact Hc|]. rewrite Hc. apply (count_links_linked _ mid), Hlink.
Qed.

Lemma tagged_tags_wf : tags_wf (db tagged).
Proof.
  unfold tags_wf. change (tags_table (db tagged))
    with [{| tag_id := 1; name := "a"; color := None; description := None;
             tag_created_at := 1000; memory_count := 1 |}].
  change (tags_seq (db tagged)) with 1.
  split; [|split].
  - constructor; [intros [] | constructor].
  - constructor; [intros [] | constructor].
  - intros t [<-|[]]. cbn. lia.
Qed.

Lemma updateMemory_replaces_the_tags_witness :
  exists m' w',
    updateMemory "m1" (retag ["b"; "c"; "b"]) tagged = (Ok (Some m'), w')
    /\ NoDup (tags m')
    /\ (forall n, In n (tags m') <-> In n ["b"; "c"; "b"])
    /\ (forall n, In n ["b"; "c"; "b"] ->
          exists t, In t (tags_table (db w')) /\ name t = n
                    /\ memory_count t = count_links (db w') (tag_id t)
                    /\ 1 <= memory_count t)
    /\ tags_wf (db w').
Proof.
  eapply (updateMemory_replaces_the_tags
            "m1" (retag ["b"; "c"; "b"]) ["b"; "c"; "b"] tagged).
  - exact tagged_tags_wf.
  - reflexivity.
  - reflexivity.
Defined.

(** *** [createMemory], then reading *)

Lemma find_app_new (mid : string) (l : list Row.t) (r : Row.t) :
  existsb (fun x => String.eqb (Row.id x) mid) l = false ->
  Row.id r = mid ->
  find (fun x => String.eqb (Row.id x) mid) (l ++ [r])%list = Some r.
Proof.
  intros Hl Hr. induction l as [|x l IH]; simpl in *.
  - rewrite Hr, String.eqb_refl. reflexivity.
  - destruct (String.eqb (Row.id x) mid); [discriminate | apply IH, Hl].
Qed.

Lemma no_links_no_tags d mid :
  links_wf d -> has_memory d mid = false -> getTagsForMemory d mid = [].
Proof.
  intros Hl Hm. unfold getTagsForMemory.
  rewrite flat_map_concat_map. apply concat_nil_Forall, Forall_forall.
  intros x Hx. apply in_map_iff in Hx as [l [<- Hin]].
  apply In_links_of in Hin as [Hin E].
  specialize (Hl l Hin). rewrite E in Hl. congruence.
Qed.

(** X14.  [createMemory], when the generated id is not taken, returns the
    record with that id and the fields given, and the record then reads back
    with the same content, summary, source path, type, importance level and
    score, compression source list, both timestamps at the time of the call
    and an access count of 0.  Three fields are stored otherwise than given:
    the access time is not stored at all, a missing compression level is
    stored as 0, and the tags are stored as a set (each name once). *)
Theorem createMemory_then_getMemory :
  forall (n : New.t) (w : World),
    has_memory (db w) (uuid_pool w (uuid_next w)) = false ->
    tags_wf (db w) ->
    links_wf (db w) ->
    exists m w' m',
      createMemory n w = (Ok m, w')
      /\ id m = uuid_pool w (uuid_next w)
      /\ accessedAt m = New.accessedAt n
      /\ compressionLevel m = New.compressionLevel n
      /\ tags m = New.tags n
      /\ eval (getMemory (id m)) w' = Ok (Some m')
      /\ id m' = id m
      /\ content m' = New.content n
      /\ summary m' = New.summary n
      /\ sourcePath m' = New.sourcePath n
      /\ memoryType m' = New.memoryType n
      /\ importanceLevel m' = New.importanceLevel n
      /\ importanceScore m' = New.importanceScore n
      /\ compressedFrom m' = New.compressedFrom n
      /\ createdAt m' = clock w /\ updatedAt m' = clock w
      /\ accessCount m' = 0
      /\ accessedAt m' = None
      /\ compressionLevel m' = Some (default (New.compressionLevel n) 0)
      /\ NoDup (tags m')
      /\ (forall t, In t (tags m') <-> In t (New.tags n)).
Proof.
  intros n w Hfresh Hwf Hlinks.
  set (new_id := uuid_pool w (uuid_next w)) in *.
  assert (Hrun : createMemory n w
    = bind (insert_memory (new_row n new_id (clock w)))
           (fun _ =>
              bind (match New.tags n with
                    | [] => ret tt
                    | _ :: _ => setTagsForMemory new_id (New.tags n)
                    end)
                   (fun _ =>
                      ret {| id := new_id;
                             content := New.content n;
                             summary := New.summary n;
                             sourcePath := New.sourcePath n;
                             memoryType := New.memoryType n;
                             importanceLevel := New.importanceLevel n;
                             importanceScore := New.importanceScore n;
                             tags := New.tags n;
                             createdAt := clock w;
                             updatedAt := clock w;
                             accessedAt := New.accessedAt n;
                             accessCount := 0;
                             compressedFrom := New.compressedFrom n;
                             compressionLevel := New.compressionLevel n;
                             relatedMemories := New.relatedMemories n;
                             sourceSessionId := New.sourceSessionId n;
                             sourceChannel := New.sourceChannel n |}))
           {| db := db w; clock := clock w; uuid_pool := uuid_pool w;
              uuid_next := S (uuid_next w); tz := tz w |}) by reflexivity.
  rewrite Hrun; clear Hrun.
  set (w0 := {| db := db w; clock := clock w; uuid_pool := uuid_pool w;
                uuid_next := S (uuid_next w); tz := tz w |}).
  rewrite (bind_ok _ _ _ _ _
             (insert_memory_fresh (new_row n new_id (clock w)) w0 Hfresh)).
  set (w1 := set_db w0 _).
  assert (Hm1 : has_memory (db w1) new_id = true).
  { subst w1; unfold has_memory; simpl. rewrite existsb_app; simpl.
    rewrite String.eqb_refl. apply orb_true_r. }
  assert (Hsel1 : select_memory (db w1) new_id
                  = Some (new_row n new_id (clock w))).
  { subst w1. unfold select_memory.
    cbn [db set_db structured_memories with_memories w0].
    apply find_app_new; [exact Hfresh | reflexivity]. }
  assert (Hstep : exists w2,
            match New.tags n with
            | [] => ret tt
            | _ :: _ => setTagsForMemory new_id (New.tags n)
            end w1 = (Ok tt, w2)
            /\ same_memories w1 w2
            /\ NoDup (getTagsForMemory (db w2) new_id)
            /\ forall t, In t (getTagsForMemory (db w2) new_id)
                         <-> In t (New.tags n)).
  { destruct (New.tags n) as [|t ts] eqn:Htags.
    - exists w1. split; [reflexivity|]. split; [reflexivity|].
      assert (E : getTagsForMemory (db w1) new_id = []).
      { change (getTagsForMemory (db w1) new_id)
          with (getTagsForMemory (db w) new_id).
        apply no_links_no_tags; assumption. }
      rewrite E. split; [constructor | tauto].
    - destruct (setTagsForMemory_linked new_id (t :: ts) w1 Hwf Hm1)
        as [w2 [Hrun2 Hlinked]].
      exists w2. split; [exact Hrun2|]. split.
      + pose proof (setTagsForMemory_memories new_id (t :: ts) w1) as Hs.
        unfold exec in Hs. rewrite Hrun2 in Hs. exact Hs.
      + destruct (tags_of_linked _ _ _ Hlinked) as [Hnd Hin].
        split; [exact Hnd|]. intro x. rewrite Hin. symmetry. apply in_rev. }
  destruct Hstep as [w2 [Hrun2 [Hs [Hnd Hin]]]].
  rewrite (bind_ok _ _ _ _ _ Hrun2).
  assert (Hsel2 : select_memory (db w2) new_id
                  = Some (new_row n new_id (clock w))).
  { unfold select_memory. unfold same_memories in Hs. rewrite Hs. exact Hsel1. }
  eexists; exists w2; eexists.
  split; [reflexivity|].
  cbn [id accessedAt compressionLevel tags].
  split; [reflexivity|]. split; [reflexivity|]. split; [reflexivity|].
  split; [reflexivity|].
  split; [unfold eval; rewrite (StoreOps.getMemory_hit _ _ _ Hsel2); reflexivity|].
  cbn. repeat split; try assumption; apply Hin.
Qed.

Lemma fresh_links_wf : links_wf (db (fresh true)).
Proof. intros l []. Qed.

Lemma fresh_tags_wf : tags_wf (db (fresh true)).
Proof.
  split; [constructor | split; [constructor | intros t []]].
Qed.

Lemma createMemory_then_getMemory_witness :
  exists m w' m',
    createMemory (note "first" ["a"; "a"] None) (fresh true) = (Ok m, w')
    /\ id m = "m1" /\ tags m = ["a"; "a"]
    /\ eval (getMemory "m1") w' = Ok (Some m')
    /\ content m' = "first"
    /\ compressionLevel m' = Some 0
    /\ NoDup (tags m')
    /\ (forall t, In t (tags m') <-> In t ["a"; "a"]).
Proof.
  destruct (createMemory_then_getMemory (note "first" ["a"; "a"] None)
              (fresh true) eq_refl fresh_tags_wf fresh_links_wf)
    as [m [w' [m' H]]].
  exists m, w', m'.
  destruct H as [H1 [H2 [_ [_ [H5 [H6 [_ [H8 [_ [_ [_ [_ [_ [_ [_ [_ [_ [_
                [H19 [H20 H21]]]]]]]]]]]]]]]]]]]].
  rewrite H2 in H6.
  repeat split; try assumption; apply H21.
Defined.

End Tags.

(* ================================================================== *)
(** ** Grouping by week and by month; the shape of a summary *)

Module Grouping.
Import Store Engine StoreFacts Terms Fixture.
Local Open Scope store_scope.

Section Groups.
Variable key : StructuredMemory -> string.

Lemma group_push_keys gs k m k' :
  In k' (map fst (group_push gs k m)) -> k' = k \/ In k' (map fst gs).
Proof.
  induction gs as [|[k0 ms] gs IH]; simpl.
  - intros [<-|[]]; auto.
  - destruct (String.eqb k0 k); simpl; [tauto|].
    intros [<-|H]; auto. destruct (IH H); auto.
Qed.

Lemma group_push_NoDup gs k m :
  NoDup (map fst gs) -> NoDup (map fst (group_push gs k m)).
Proof.
  induction gs as [|[k0 ms] gs IH]; simpl; intro H.
  - constructor; [tauto | constructor].
  - inversion H as [|? ? Hk Hgs]; subst.
    destruct (String.eqb_spec k0 k) as [E|E]; simpl; [exact H|].
    constructor; [|apply IH, Hgs].
    intro Hin. apply group_push_keys in Hin as [Hin|Hin]; [congruence | tauto].
Qed.

Lemma group_push_Permutation gs k m :
  Permutation (List.concat (map snd (group_push gs k m)))
              (m :: List.concat (map snd gs)).
Proof.
  induction gs as [|[k0 ms] gs IH]; simpl; [reflexivity|].
  destruct (String.eqb k0 k); simpl.
  - rewrite <- app_assoc. simpl.
    symmetry. apply Permutation_middle.
  - rewrite IH. symmetry. apply Permutation_middle.
Qed.

Lemma group_push_keyed gs m :
  Forall (fun g => snd g <> [] /\ Forall (fun x => key x = fst g) (snd g)) gs ->
  Forall (fun g => snd g <> [] /\ Forall (fun x => key x = fst g) (snd g))
         (group_push gs (key m) m).
Proof.
  induction gs as [|[k0 ms] gs IH]; simpl; intro H.
  - constructor; [|constructor]. simpl. split; [discriminate|].
    constructor; [reflexivity | constructor].
  - inversion H as [|? ? [Hne Hk] Hgs]; subst. simpl in *.
    destruct (String.eqb_spec k0 (key m)) as [E|E]; constructor; simpl; auto.
    split.
    + destruct ms; discriminate.
    + apply Forall_app. split; [exact Hk|]. constructor; [congruence | constructor].
Qed.

Lemma group_by_partition ms : forall gs,
  NoDup (map fst gs) ->
  Forall (fun g => snd g <> [] /\ Forall (fun x => key x = fst g) (snd g)) gs ->
  let gs' := fold_left (fun groups m => group_push groups (key m) m) ms gs in
  NoDup (map fst gs')
  /\ Permutation (List.concat (map snd gs')) (List.concat (map snd gs) ++ ms)
  /\ Forall (fun g => snd g <> [] /\ Forall (fun x => key x = fst g) (snd g)) gs'.
Proof.
  induction ms as [|m ms IH]; intros gs Hnd Hk; simpl.
  - rewrite app_nil_r. auto.
  - destruct (IH (group_push gs (key m) m)) as [H1 [H2 H3]].
    + apply group_push_NoDup, Hnd.
    + apply group_push_keyed, Hk.
    + split; [exact H1|]. split; [|exact H3].
      rewrite H2, group_push_Permutation. simpl.
      apply Permutation_middle.
Qed.
End Groups.

(** X15.  [groupByWeek] and [groupByMonth] partition the records by their
    key: the keys of the groups are distinct, no group is empty, every
    member of a group has the key of the group, and the groups together hold
    every record exactly once. *)
Theorem grouping_partitions_the_records :
  forall (tz : Z -> Z) (memories : list StructuredMemory),
    (NoDup (map fst (groupByWeek tz memories))
     /\ Permutation (List.concat (map snd (groupByWeek tz memories))) memories
     /\ Forall (fun g => snd g <> []
                         /\ Forall (fun m => weekKey tz m = fst g) (snd g))
               (groupByWeek tz memories))
    /\ (NoDup (map fst (groupByMonth tz memories))
        /\ Permutation (List.concat (map snd (groupByMonth tz memories))) memories
        /\ Forall (fun g => snd g <> []
                            /\ Forall (fun m => monthKey tz m = fst g) (snd g))
                  (groupByMonth tz memories)).
Proof.
  intros tz memories. split.
  - apply (group_by_partition (weekKey tz) memories []); constructor.
  - apply (group_by_partition (monthKey tz) memories []); constructor.
Qed.

(** *** The score and the text of a summary *)

Lemma fold_Rmax_upper xs : forall x0 y,
  y = x0 \/ In y xs -> (y <= fold_left Rmax xs x0)%R.
Proof.
  induction xs as [|x xs IH]; simpl; intros x0 y H.
  - destruct H as [->|[]]. lra.
  - destruct H as [->|[->|H]].
    + eapply Rle_trans; [apply (Rmax_l x0 x) | apply IH; left; reflexivity].
    + eapply Rle_trans; [apply (Rmax_r x0 y) | apply IH; left; reflexivity].
    + apply IH. right; exact H.
Qed.

Lemma fold_Rmax_in xs : forall x0,
  fold_left Rmax xs x0 = x0 \/ In (fold_left Rmax xs x0) xs.
Proof.
  induction xs as [|x xs IH]; simpl; intro x0; [left; reflexivity|].
  destruct (IH (Rmax x0 x)) as [H|H]; [|right; right; exact H].
  rewrite H. unfold Rmax. destruct (Rle_dec x0 x); auto.
Qed.

(** X16.  The importance score that a compaction stage gives to the summary
    of a non-empty group is the highest score in the group: no member has a
    higher score, and some member has that score. *)
Theorem summary_score_is_the_highest_of_the_group :
  forall (text path : string) (level : ImportanceLevel) (tag : string)
         (group : list StructuredMemory) (clevel : Z),
    group <> [] ->
    let s := New.importanceScore
               (summary_record text path level tag group clevel) in
    Forall (fun m => (importanceScore m <= s)%R) group
    /\ Exists (fun m => importanceScore m = s) group.
Proof.
  intros text path level tag group clevel Hne s. subst s.
  cbn [New.importanceScore summary_record].
  destruct group as [|m0 group]; [congruence|]. simpl map. unfold Math_max.
  split.
  - apply Forall_forall. intros m Hm. apply fold_Rmax_upper.
    destruct Hm as [<-|Hm]; [left; reflexivity|].
    right. apply in_map, Hm.
  - apply Exists_exists.
    destruct (fold_Rmax_in (map importanceScore group) (importanceScore m0))
      as [H|H].
    + exists m0. split; [left; reflexivity | symmetry; exact H].
    + apply in_map_iff in H as [m [Hm Hin]].
      exists m. split; [right; exact Hin | exact Hm].
Qed.

Lemma summary_score_is_the_highest_of_the_group_witness :
  let s := New.importanceScore
             (summary_record "text" "path" High "weekly-summary"
                             [existing; existing] 1) in
  Forall (fun m => (importanceScore m <= s)%R) [existing; existing]
  /\ Exists (fun m => importanceScore m = s) [existing; existing].
Proof.
  apply (summary_score_is_the_highest_of_the_group
           "text" "path" High "weekly-summary" [existing; existing] 1).
  discriminate.
Defined.

Lemma prefix_refl_app (p s : string) : String.prefix p (p ++ s) = true.
Proof.
  induction p as [|c p IH]; simpl; [destruct s; reflexivity|].
  destruct (ascii_dec c c); [exact IH | congruence].
Qed.

Lemma prefix_refl (p : string) : String.prefix p p = true.
Proof.
  induction p as [|c p IH]; simpl; [reflexivity|].
  destruct (ascii_dec c c); [exact IH | congruence].
Qed.

Lemma prefix_app (p s t : string) :
  String.prefix p s = true -> String.prefix p (s ++ t) = true.
Proof.
  revert s. induction p as [|c p IH]; intros s H;
    [destruct s; destruct t; reflexivity|].
  destruct s as [|d s]; simpl in *; [discriminate|].
  destruct (ascii_dec c d); [apply IH, H | discriminate].
Qed.

Lemma fold_app_prefix {A} (p : string) (f : A -> string) (l : list A) :
  forall init,
    String.prefix p init = true ->
    String.prefix p (fold_left (fun acc x => acc ++ f x) l init) = true.
Proof.
  induction l as [|x l IH]; intros init H; simpl; [exact H|].
  apply IH, prefix_app, H.
Qed.

(** X17.  [generateSummary] always returns a text (never [null]), and the
    text begins with the heading of its kind and the line that states the
    number of memories summarized. *)
Theorem generateSummary_begins_with_its_heading :
  forall (memories : list StructuredMemory) (weekly : bool),
  exists text,
    generateSummary memories weekly = Some text
    /\ JS.startsWith text
         ("# " ++ (if weekly then "Weekly" else "Monthly") ++ " Summary"
          ++ JS.nl ++ JS.nl ++ "Generated from "
          ++ JS.of_int (Z.of_nat (List.length memories)) ++ " memories."
          ++ JS.nl ++ JS.nl)
       = true.
Proof.
  intros memories weekly. eexists. split; [reflexivity|].
  unfold JS.startsWith.
  set (head := "# " ++ (if weekly then "Weekly" else "Monthly") ++ " Summary"
               ++ JS.nl ++ JS.nl ++ "Generated from "
               ++ JS.of_int (Z.of_nat (List.length memories)) ++ " memories."
               ++ JS.nl ++ JS.nl).
  assert (Hhead : (("# " ++ (if weekly then "Weekly" else "Monthly")
                    ++ " Summary" ++ JS.nl ++ JS.nl)
                   ++ "Generated from "
                   ++ JS.of_int (Z.of_nat (List.length memories))
                   ++ " memories." ++ JS.nl ++ JS.nl) = head).
  { subst head. destruct weekly; reflexivity. }
  rewrite Hhead.
  assert (H0 : String.prefix head head = true).
  { apply prefix_refl. }
  repeat match goal with
         | |- context [match ?l with [] => _ | _ :: _ => _ end] =>
             destruct l
         end;
    repeat first [ exact H0
                 | apply fold_app_prefix
                 | apply prefix_app ].
Qed.

End Grouping.

(* ================================================================== *)
(** ** Archival, and the run of the three stages *)

Module Archival.
Import Store Engine StoreFacts Terms Fixture.
Local Open Scope store_scope.

Lemma updateMemory_archive mid w :
  exists o,
    updateMemory mid (Upd_memoryType Archive) w
    = (Ok o,
       set_db w (with_memories (db w)
                   (map (fun r => if String.eqb (Row.id r) mid
                                  then archive_row (clock w) r else r)
                        (structured_memories (db w))))).
Proof.
  unfold updateMemory.
  destruct (has_memory (db w) mid) eqn:Hhas.
  - destruct (Similarity.has_memory_select _ _ Hhas) as [row Hrow].
    rewrite (bind_ok _ _ _ _ _ (StoreOps.getMemory_hit _ _ _ Hrow)).
    cbn [Upd_memoryType Upd.tags].
    rewrite (bind_ok (ret tt) _ w tt w eq_refl).
    rewrite (bind_ok Date_now _ w (clock w) w eq_refl).
    unfold Upd_memoryType.
    cbn [Upd.content Upd.summary Upd.memoryType Upd.importanceLevel
         Upd.importanceScore push_if app List.length Nat.ltb Nat.leb].
    match goal with
    | |- context [update_memory mid ?f] => set (g := f)
    end.
    assert (Hupd : update_memory mid g w
                   = (Ok tt, set_db w (with_memories (db w)
                        (map (fun r => if String.eqb (Row.id r) mid
                                       then g r else r)
                             (structured_memories (db w))))))
      by reflexivity.
    rewrite (bind_ok _ _ _ _ _ Hupd).
    destruct (UpdateFrame.getMemory_run mid
                (set_db w (with_memories (db w)
                   (map (fun r => if String.eqb (Row.id r) mid then g r else r)
                        (structured_memories (db w)))))) as [o Ho].
    exists o. rewrite Ho. reflexivity.
  - rewrite (bind_ok _ _ _ _ _ (StoreOps.getMemory_miss _ _ Hhas)).
    exists None. unfold ret.
    rewrite StoreOps.map_other_id by exact Hhas.
    rewrite StoreOps.with_memories_same, StoreOps.set_db_same. reflexivity.
Qed.

Lemma Forall2_map_r_in {A} (R : A -> A -> Prop) (g : A -> A) (l l1 : list A) :
  (forall x y, In x l -> R x y -> R x (g y)) ->
  Forall2 R l l1 -> Forall2 R l (map g l1).
Proof.
  intros Hg H. induction H as [|x y l l1 Hxy H IH]; simpl; constructor.
  - apply Hg; [left; reflexivity | exact Hxy].
  - apply IH. intros a b Ha. apply Hg. right; exact Ha.
Qed.

Lemma same_id_same_row (l : list Row.t) r r0 :
  NoDup (map Row.id l) -> In r l -> In r0 l -> Row.id r = Row.id r0 -> r = r0.
Proof.
  induction l as [|x l IH]; simpl; [tauto|].
  intro Hnd. inversion Hnd as [|? ? Hx Hl]; subst.
  intros [->|Hr] [->|Hr0] E; auto.
  - exfalso. apply Hx. rewrite E. apply in_map, Hr0.
  - exfalso. apply Hx. rewrite <- E. apply in_map, Hr.
Qed.

(** The loop of [archiveOldMemories] over records read from the store [w0]. *)
Lemma archive_loop w0 cutoff ms : forall a w1,
  NoDup (map Row.id (structured_memories (db w0))) ->
  (forall m, In m ms ->
     exists r, In r (structured_memories (db w0))
               /\ m = rowToMemory (db w0) r
               /\ compressible cutoff 2 r = true) ->
  clock w1 = clock w0 ->
  Forall2 (fun r r' => r' = r
                       \/ (r' = archive_row (clock w0) r
                           /\ archivable cutoff r = true))
          (structured_memories (db w0)) (structured_memories (db w1)) ->
  exists a' w2,
    for_groups ms (archive_one cutoff) (a, 0) w1 = (Ok (a', 0), w2)
    /\ clock w2 = clock w0
    /\ Forall2 (fun r r' => r' = r
                            \/ (r' = archive_row (clock w0) r
                                /\ archivable cutoff r = true))
               (structured_memories (db w0)) (structured_memories (db w2)).
Proof.
  induction ms as [|m ms IH]; intros a w1 Hnd Hms Hc HR; simpl.
  - exists a, w1. split; [reflexivity|]. split; assumption.
  - destruct (Hms m (or_introl eq_refl)) as [r0 [Hr0 [Hm Hcomp]]].
    assert (Hms' : forall m', In m' ms ->
              exists r, In r (structured_memories (db w0))
                        /\ m' = rowToMemory (db w0) r
                        /\ compressible cutoff 2 r = true).
    { intros m' Hm'. apply Hms. right; exact Hm'. }
    unfold archive_one at 1.
    destruct (recently_accessed cutoff m) eqn:Hrec.
    + rewrite (bind_ok (ret (a, 0)) _ w1 (a, 0) w1 eq_refl).
      apply IH; assumption.
    + destruct (updateMemory_archive (id m) w1) as [o Ho].
      assert (Hstep :
        try_catch
          (_ <- updateMemory (id m) (Upd_memoryType Archive) ;;
           ret (a + 1, 0))
          (fun _ => ret (a, 0 + 1)) w1
        = (Ok (a + 1, 0),
           set_db w1 (with_memories (db w1)
             (map (fun r => if String.eqb (Row.id r) (id m)
                            then archive_row (clock w1) r else r)
                  (structured_memories (db w1)))))).
      { unfold try_catch. rewrite (bind_ok _ _ _ _ _ Ho). reflexivity. }
      rewrite (bind_ok _ _ _ _ _ Hstep).
      apply IH; [exact Hnd | exact Hms' | exact Hc |].
      cbn [db set_db structured_memories with_memories].
      apply Forall2_map_r_in; [|exact HR].
      intros r r1 Hr Hrel. rewrite Hc.
      destruct (String.eqb_spec (Row.id r1) (id m)) as [E|E]; [|exact Hrel].
      right.
      assert (Hid : Row.id r = Row.id r0).
      { subst m. cbn [id rowToMemory] in E. rewrite <- E.
        destruct Hrel as [->|[-> _]]; reflexivity. }
      pose proof (same_id_same_row _ _ _ Hnd Hr Hr0 Hid) as ->.
      split.
      * destruct Hrel as [->|[-> _]]; reflexivity.
      * unfold archivable. rewrite Hcomp. subst m.
        unfold recently_accessed in Hrec. cbn [accessedAt rowToMemory] in Hrec.
        rewrite Hrec. reflexivity.
Qed.

(** X18.  With a well-formed [archiveAfter] and distinct ids in the table,
    [archiveOldMemories] returns with no error counted, adds and deletes no
    row, and leaves every row either as it was or retyped to [archive] with
    the update time of the run and all other columns kept; a row is retyped
    only if it was created before the cut-off, is no summary, and was not
    accessed after the cut-off. *)
Theorem archival_retypes_only_old_unread_records :
  forall (config : CompressionConfig) (w : World) (minAge : Z),
    parseDuration (archiveAfter config) = Ok minAge ->
    NoDup (map Row.id (structured_memories (db w))) ->
    exists archived w',
      archiveOldMemories config w = (Ok (archived, 0), w')
      /\ Forall2 (fun r r' =>
                    r' = r
                    \/ (r' = archive_row (clock w) r
                        /\ archivable (clock w - minAge) r = true))
                 (structured_memories (db w)) (structured_memories (db w')).
Proof.
  intros config w minAge Hparse Hnd.
  unfold archiveOldMemories.
  assert (Hp : parseDurationM (archiveAfter config) w = (Ok minAge, w)).
  { rewrite Stage.parseDurationM_run, Hparse. reflexivity. }
  rewrite (bind_ok _ _ _ _ _ Hp).
  rewrite (bind_ok Date_now _ w (clock w) w eq_refl).
  destruct (Selection.getMemoriesForCompression_selects
              (clock w - minAge) 2 (Some 1000) w) as [ms [Hrun _]].
  rewrite (bind_ok _ _ _ _ _ Hrun).
  assert (Hms : forall m, In m ms ->
            exists r, In r (structured_memories (db w))
                      /\ m = rowToMemory (db w) r
                      /\ compressible (clock w - minAge) 2 r = true).
  { intros m Hm.
    assert (E : ms = map (rowToMemory (db w))
                       (limit_offset 1000 0
                          (sort_by (fun x y => Row.created_at x <=? Row.created_at y)
                             (rev (filter (compressible (clock w - minAge) 2)
                                          (structured_memories (db w))))))).
    { unfold getMemoriesForCompression, bind, get_db, ret in Hrun.
      inversion Hrun. reflexivity. }
    rewrite E in Hm. apply in_map_iff in Hm as [r [<- Hr]].
    apply Selection.In_limit_offset, Selection.In_sort_by, in_rev, filter_In
      in Hr as [Hin Hc].
    exists r. repeat split; assumption. }
  destruct (archive_loop w (clock w - minAge) ms 0 w Hnd Hms eq_refl)
    as [a' [w2 [Hloop [_ HR]]]].
  - apply UpdateFrame.Forall2_self. intro r; left; reflexivity.
  - exists a', w2. split; assumption.
Qed.

Lemma stale_note_NoDup :
  NoDup (map Row.id (structured_memories (db stale_note))).
Proof.
  change (map Row.id (structured_memories (db stale_note))) with ["m1"].
  constructor; [intros [] | constructor].
Qed.

Lemma archival_retypes_only_old_unread_records_witness :
  exists archived w',
    archiveOldMemories config stale_note = (Ok (archived, 0), w')
    /\ Forall2 (fun r r' =>
                  r' = r
                  \/ (r' = archive_row (clock stale_note) r
                      /\ archivable (clock stale_note - 90 * dayInMs) r = true))
               (structured_memories (db stale_note))
               (structured_memories (db w')).
Proof.
  apply (archival_retypes_only_old_unread_records config stale_note
           (90 * dayInMs)).
  - reflexivity.
  - exact stale_note_NoDup.
Defined.

(** *** [compress] *)

Lemma try_catch_bind_total {A B} (m : M A) (k : A -> M B) (h : string -> M B) :
  (forall a w, exists r w', k a w = (Ok r, w')) ->
  (forall e w, exists r w', h e w = (Ok r, w')) ->
  forall w, exists r w', try_catch (bind m k) h w = (Ok r, w').
Proof.
  intros Hk Hh w. unfold try_catch, bind.
  destruct (m w) as [[a|e] w1].
  - destruct (Hk a w1) as [r [w' E]]. rewrite E. eauto.
  - apply Hh.
Qed.

Lemma compress_total config w : exists r w', compress config w = (Ok r, w').
Proof.
  unfold compress.
  destruct (negb (compression_enabled config)); [eexists; eexists; reflexivity|].
  apply try_catch_bind_total; [|intros; eexists; eexists; reflexivity].
  intros wk w1.
  apply try_catch_bind_total; [|intros; eexists; eexists; reflexivity].
  intros mo w2.
  apply try_catch_bind_total; intros; eexists; eexists; reflexivity.
Qed.

(** X19.  [compress] never throws: whatever a stage throws is counted as one
    error of the result.  With compaction disabled it returns zero counts
    and changes nothing; with a malformed [dailyToWeekly] duration it
    returns one error, creates and archives nothing, and changes nothing,
    the later stages not being run. *)
Theorem compress_counts_failures_instead_of_throwing :
  forall (config : CompressionConfig) (w : World),
    (exists r w', compress config w = (Ok r, w'))
    /\ (compression_enabled config = false ->
        compress config w
        = (Ok {| created := 0; archived := 0; errors := 0 |}, w))
    /\ (compression_enabled config = true ->
        forall e, parseDuration (dailyToWeekly config) = Throw e ->
          compress config w
          = (Ok {| created := 0; archived := 0; errors := 1 |}, w)).
Proof.
  intros config w. split; [apply compress_total|].
  unfold compress. split.
  - intros ->. reflexivity.
  - intros -> e He. cbn [negb].
    unfold try_catch.
    assert (Hw : compressToWeekly config w = (Throw e, w)).
    { unfold compressToWeekly. apply bind_throw.
      rewrite Stage.parseDurationM_run, He. reflexivity. }
    rewrite (bind_throw _ _ _ _ _ Hw). reflexivity.
Qed.

End Archival.

(* ================================================================== *)
(** ** The reconciler's text functions *)

Module Parsing.
Import Store Sync StoreFacts Terms Fixture.
Local Open Scope store_scope.

(** *** [calculateSimilarity] *)

Lemma split_ws_from_nonempty s : forall b, JS.split_ws_from b s <> [].
Proof.
  induction s as [|c s IH]; intro b; simpl; [discriminate|].
  destruct (JS.is_space c).
  - destruct b; [apply IH | discriminate].
  - destruct (JS.split_ws_from false s); discriminate.
Qed.

Lemma new_Set_nonempty l : l <> [] -> JS.new_Set l <> [].
Proof.
  destruct l as [|x l]; [congruence|]. intros _ E.
  assert (H : In x (JS.new_Set (x :: l)))
    by (apply Similarity.new_Set_In; left; reflexivity).
  rewrite E in H. contradiction.
Qed.

Lemma word_set_size s : (1 <= List.length (JS.new_Set (words s)))%nat.
Proof.
  pose proof (new_Set_nonempty (words s) (split_ws_from_nonempty _ false)) as H.
  destruct (JS.new_Set (words s)); [congruence | simpl; lia].
Qed.

Lemma common_words_size (A B : list string) :
  NoDup A ->
  (List.length (JS.new_Set (filter (fun x => JS.set_has x B) A))
   <= List.length A)%nat.
Proof.
  intro HA. apply NoDup_incl_length; [apply Similarity.new_Set_NoDup|].
  intros x Hx. apply Similarity.new_Set_In, filter_In in Hx. tauto.
Qed.

Lemma common_words_sym (A B : list string) :
  List.length (JS.new_Set (filter (fun x => JS.set_has x B) A))
  = List.length (JS.new_Set (filter (fun x => JS.set_has x A) B)).
Proof.
  apply Similarity.same_set_length; try apply Similarity.new_Set_NoDup.
  intro x. rewrite !Similarity.new_Set_In, !filter_In, !Similarity.set_has_In.
  tauto.
Qed.

Lemma common_words_self (A : list string) :
  NoDup A ->
  List.length (JS.new_Set (filter (fun x => JS.set_has x A) A)) = List.length A.
Proof.
  intro HA. apply Similarity.same_set_length;
    [apply Similarity.new_Set_NoDup | exact HA |].
  intro x. rewrite Similarity.new_Set_In, filter_In, Similarity.set_has_In.
  tauto.
Qed.

(** X20.  The matching score of two texts lies between 0 and 1, does not
    depend on the order of the two texts, and is 1 for a text against
    itself. *)
Theorem calculateSimilarity_is_bounded_and_symmetric :
  forall (a b : string),
    (0 <= calculateSimilarity a b <= 1)%R
    /\ calculateSimilarity a b = calculateSimilarity b a
    /\ calculateSimilarity a a = 1%R.
Proof.
  intros a b. unfold calculateSimilarity. fold (words a) (words b).
  set (A := JS.new_Set (words a)). set (B := JS.new_Set (words b)).
  pose proof (word_set_size a) as HA1. pose proof (word_set_size b) as HB1.
  fold A in HA1. fold B in HB1.
  pose proof (common_words_size A B (Similarity.new_Set_NoDup _)) as HIA.
  assert (Hmax : (0 < INR (Nat.max (List.length A) (List.length B)))%R).
  { apply lt_0_INR. lia. }
  split; [|split].
  - split.
    + apply Rmult_le_pos; [apply pos_INR|].
      left. apply Rinv_0_lt_compat, Hmax.
    + apply (Rmult_le_reg_r (INR (Nat.max (List.length A) (List.length B))));
        [exact Hmax|].
      unfold Rdiv. rewrite Rmult_assoc, Rinv_l, Rmult_1_r, Rmult_1_l by lra.
      apply le_INR. lia.
  - rewrite (common_words_sym A B), Nat.max_comm. reflexivity.
  - rewrite (common_words_self A (Similarity.new_Set_NoDup _)), Nat.max_id.
    unfold Rdiv. apply Rinv_r.
    apply not_0_INR. lia.
Qed.

(** *** [extractTagsFromHeader] *)

Lemma all_word_snoc w c :
  forallb JS.is_word (list_ascii_of_string w) = true ->
  JS.is_word c = true ->
  forallb JS.is_word (list_ascii_of_string (w ++ String c EmptyString)) = true.
Proof.
  intros Hw Hc. induction w as [|d w IH]; simpl in *.
  - rewrite Hc. reflexivity.
  - apply andb_true_iff in Hw as [Hd Hw]. rewrite Hd. simpl. apply IH, Hw.
Qed.

Lemma scan_tags_words s : forall cur,
  (forall w, cur = Some w -> forallb JS.is_word (list_ascii_of_string w) = true) ->
  Forall (fun t => t <> EmptyString
                   /\ forallb JS.is_word (list_ascii_of_string t) = true)
         (scan_tags cur s).
Proof.
  assert (Hemit : forall cur,
            (forall w, cur = Some w ->
                       forallb JS.is_word (list_ascii_of_string w) = true) ->
            Forall (fun t => t <> EmptyString
                             /\ forallb JS.is_word (list_ascii_of_string t) = true)
                   match cur with
                   | Some (String c w') => [String c w']
                   | _ => []
                   end).
  { intros [[|c w']|] H; constructor; [|constructor].
    split; [discriminate | apply H; reflexivity]. }
  assert (Hstart : forall c w,
            (if Ascii.eqb c "#" then Some EmptyString else None) = Some w ->
            forallb JS.is_word (list_ascii_of_string w) = true).
  { intros c w. destruct (Ascii.eqb c "#"); [|discriminate].
    intro H; inversion H; reflexivity. }
  induction s as [|c s IH]; intros cur Hcur; cbn [scan_tags].
  - apply Hemit, Hcur.
  - destruct cur as [w|].
    + destruct (JS.is_word c) eqn:Hc.
      * apply IH. intros w' E. inversion E; subst.
        apply all_word_snoc; [apply Hcur; reflexivity | exact Hc].
      * apply Forall_app. split; [apply (Hemit (Some w)), Hcur|].
        apply IH, Hstart.
    + apply IH, Hstart.
Qed.

(** X21.  Every tag that [extractTagsFromHeader] finds in a header is a
    non-empty word of letters, digits and underscores. *)
Theorem extracted_tags_are_words :
  forall (header : string),
    Forall (fun t => t <> EmptyString
                     /\ forallb JS.is_word (list_ascii_of_string t) = true)
           (extractTagsFromHeader header).
Proof.
  intro header. apply scan_tags_words. discriminate.
Qed.

(** *** [parseMarkdownSections] *)

Lemma flushSection_long st :
  Forall (fun sec => 50 < JS.len (sec_content sec)) (sections st) ->
  Forall (fun sec => 50 < JS.len (sec_content sec)) (sections (flushSection st)).
Proof.
  intro H. unfold flushSection. cbn [sections].
  destruct (currentSection st); [exact H|].
  destruct (50 <? JS.len _) eqn:E; [|exact H].
  apply Forall_app. split; [exact H|].
  constructor; [|constructor]. cbn [sec_content]. apply Z.ltb_lt, E.
Qed.

Lemma parse_line_long sourcePath st line :
  Forall (fun sec => 50 < JS.len (sec_content sec)) (sections st) ->
  Forall (fun sec => 50 < JS.len (sec_content sec))
         (sections (parse_line sourcePath st line)).
Proof.
  intro H. unfold parse_line. cbn [sections].
  destruct (JS.startsWith line "## " || JS.startsWith line "### ")%bool;
    [apply flushSection_long, H | exact H].
Qed.

(** X22.  Every section that [parseMarkdownSections] returns has more than
    50 characters of content: shorter chunks of a file are dropped. *)
Theorem parsed_sections_are_longer_than_50 :
  forall (content sourcePath : string),
    Forall (fun sec => 50 < JS.len (sec_content sec))
           (parseMarkdownSections content sourcePath).
Proof.
  intros content sourcePath. unfold parseMarkdownSections.
  set (st := fold_left _ _ _).
  assert (H : Forall (fun sec => 50 < JS.len (sec_content sec))
                     (sections (flushSection st))).
  { apply flushSection_long. subst st.
    generalize (JS.split_char JS.LF content).
    intro lines.
    assert (Hgen : forall st0,
              Forall (fun sec => 50 < JS.len (sec_content sec)) (sections st0) ->
              Forall (fun sec => 50 < JS.len (sec_content sec))
                     (sections (fold_left (parse_line sourcePath) lines st0))).
    { induction lines as [|l lines IH]; intros st0 H0; simpl; [exact H0|].
      apply IH, parse_line_long, H0. }
    apply Hgen. constructor. }
  destruct (sections (flushSection st)) as [|s ss]; [|exact H].
  destruct (50 <? JS.len (JS.trim content)) eqn:E; constructor; [|constructor].
  apply Z.ltb_lt, E.
Qed.

End Parsing.

(* ================================================================== *)
(** ** Reconciling files with the store *)

Module Reconcile.
Import Store Sync StoreFacts Terms Fixture.
Local Open Scope store_scope.

Lemma exec_discard {A} (m : M A) w : exec (_ <- m ;; ret tt) w = exec m w.
Proof. unfold exec, bind. destruct (m w) as [[a|e] w1]; reflexivity. Qed.

Lemma exec_seq_ret {A} (m : M unit) (a : A) w : exec (m ;;; ret a) w = exec m w.
Proof. unfold exec, bind. destruct (m w) as [[[]|e] w1]; reflexivity. Qed.

Lemma exec_bind_ok {A B} (m : M A) (k : A -> M B) w a w1 :
  m w = (Ok a, w1) -> exec (bind m k) w = exec (k a) w1.
Proof. intro H. unfold exec. rewrite (bind_ok _ _ _ _ _ H). reflexivity. Qed.

Lemma row_step_trans mid r1 r2 r3 :
  row_step mid r1 r2 -> row_step mid r2 r3 -> row_step mid r1 r3.
Proof.
  intros [F1 H1] [F2 H2]. split; [eapply same_frame_trans; eassumption|].
  intro Hne. rewrite <- (H1 Hne). apply H2.
  destruct F1 as [E _]. rewrite (H1 Hne). exact Hne.
Qed.

Lemma Forall2_trans {A} (R : A -> A -> Prop) (l1 l2 l3 : list A) :
  (forall x y z, R x y -> R y z -> R x z) ->
  Forall2 R l1 l2 -> Forall2 R l2 l3 -> Forall2 R l1 l3.
Proof.
  intros HR H12. revert l3. induction H12 as [|x y l1 l2 Hxy H12 IH]; intros l3 H23.
  - inversion H23; constructor.
  - inversion H23 as [|? z ? l3' Hyz H23']; subst.
    constructor; [eapply HR; eassumption | apply IH, H23'].
Qed.

(** The table [rows'] keeps the rows of [rows] in place, rewriting at most
    written columns of rows of id [mid], and appends rows of [path]. *)
Lemma grows_refl mid (path : string) (rows : list Row.t) :
  exists rows1 new,
    rows = (rows1 ++ new)%list
    /\ Forall (fun r => Row.source_path r = path) new
    /\ Forall2 (row_step mid) rows rows1.
Proof.
  exists rows, []. rewrite app_nil_r. split; [reflexivity|].
  split; [constructor|]. apply UpdateFrame.Forall2_self, UpdateFrame.row_step_refl.
Qed.

Lemma grows_trans mid (path : string) (rows rows' rows'' : list Row.t) :
  (exists rows1 new,
      rows' = (rows1 ++ new)%list
      /\ Forall (fun r => Row.source_path r = path) new
      /\ Forall2 (row_step mid) rows rows1) ->
  (exists rows2 new',
      rows'' = (rows2 ++ new')%list
      /\ Forall (fun r => Row.source_path r = path) new'
      /\ Forall2 (row_step mid) rows' rows2) ->
  exists rows1 new,
    rows'' = (rows1 ++ new)%list
    /\ Forall (fun r => Row.source_path r = path) new
    /\ Forall2 (row_step mid) rows rows1.
Proof.
  intros [rows1 [new [E1 [Hn1 H1]]]] [rows2 [new' [E2 [Hn2 H2]]]].
  subst rows' rows''.
  apply Forall2_app_inv_l in H2 as [ra [rb [Ha [Hb ->]]]].
  exists ra, (rb ++ new')%list. split; [rewrite app_assoc; reflexivity|].
  split.
  - apply Forall_app. split; [|exact Hn2].
    clear - Hn1 Hb. induction Hb as [|x y l l' [F _] Hb IH]; constructor.
    + inversion Hn1; subst. destruct F as [_ [E _]]. congruence.
    + apply IH. inversion Hn1; assumption.
  - eapply Forall2_trans; [apply row_step_trans | exact H1 | exact Ha].
Qed.

Lemma updateMemory_grows mid (path : string) updates w :
  exists rows1 new,
    structured_memories (db (exec (updateMemory mid updates) w))
    = (rows1 ++ new)%list
    /\ Forall (fun r => Row.source_path r = path) new
    /\ Forall2 (row_step mid) (structured_memories (db w)) rows1.
Proof.
  exists (structured_memories (db (exec (updateMemory mid updates) w))), [].
  rewrite app_nil_r. split; [reflexivity|]. split; [constructor|].
  apply UpdateFrame.updateMemory_rows.
Qed.

Lemma createMemory_appends n w :
  exists new,
    structured_memories (db (exec (createMemory n) w))
    = (structured_memories (db w) ++ new)%list
    /\ Forall (fun r => Row.source_path r = New.sourcePath n) new.
Proof.
  unfold exec.
  destruct (Stage.createMemory_cases n w)
    as [[_ [e [w' [Hrun Hs]]]]|[_ [m [w' [Hrun Hrows]]]]]; rewrite Hrun; cbn [snd].
  - exists []. rewrite app_nil_r. split; [exact Hs | constructor].
  - eexists. split; [exact Hrows|]. constructor; [reflexivity | constructor].
Qed.

Lemma createMemory_grows mid n w :
  exists rows1 new,
    structured_memories (db (exec (createMemory n) w)) = (rows1 ++ new)%list
    /\ Forall (fun r => Row.source_path r = New.sourcePath n) new
    /\ Forall2 (row_step mid) (structured_memories (db w)) rows1.
Proof.
  destruct (createMemory_appends n w) as [new [E Hn]].
  exists (structured_memories (db w)), new. split; [exact E|].
  split; [exact Hn|].
  apply UpdateFrame.Forall2_self, UpdateFrame.row_step_refl.
Qed.

Lemma sync_section_grows existing path section w :
  exists rows1 new,
    structured_memories (db (exec (sync_section existing path section) w))
    = (rows1 ++ new)%list
    /\ Forall (fun r => Row.source_path r = path) new
    /\ Forall2 (row_step (id existing)) (structured_memories (db w)) rows1.
Proof.
  unfold sync_section.
  destruct (findSectionByContent existing (sec_content section)) as [e|] eqn:E.
  - assert (e = existing) as ->.
    { unfold findSectionByContent in E.
      destruct (Rltb 0.7 _); inversion E; reflexivity. }
    rewrite exec_discard. apply updateMemory_grows.
  - rewrite exec_discard.
    apply (createMemory_grows (id existing) (new_section path section) w).
Qed.

Lemma getMemoryBySourcePath_run p w :
  getMemoryBySourcePath p w
  = (Ok match find (fun r => String.eqb (Row.source_path r) p)
                   (structured_memories (db w)) with
        | Some first =>
            option_map (rowToMemory (db w)) (select_memory (db w) (Row.id first))
        | None => None
        end, w).
Proof.
  unfold getMemoryBySourcePath, bind, get_db.
  destruct (find _ _) as [first|]; [|reflexivity].
  unfold getMemory, bind, get_db.
  destruct (select_memory (db w) (Row.id first)); reflexivity.
Qed.

Lemma first_is_selected (p : string) w first :
  find (fun r => String.eqb (Row.source_path r) p) (structured_memories (db w))
  = Some first ->
  exists row, select_memory (db w) (Row.id first) = Some row
              /\ Row.id row = Row.id first.
Proof.
  intro H. apply find_some in H as [Hin _].
  assert (Hhas : has_memory (db w) (Row.id first) = true).
  { unfold has_memory. apply existsb_exists. exists first.
    split; [exact Hin | apply String.eqb_refl]. }
  destruct (Similarity.has_memory_select _ _ Hhas) as [row Hrow].
  exists row. split; [exact Hrow|].
  apply (StoreOps.select_some_has _ _ _ Hrow).
Qed.

Lemma syncFile_table :
  forall (entry : MemoryFileEntry) (w : World),
  exists rows1 new,
    structured_memories (db (exec (syncFile entry) w)) = (rows1 ++ new)%list
    /\ Forall (fun r => Row.source_path r = path entry) new
    /\ match find (fun r => String.eqb (Row.source_path r) (path entry))
                  (structured_memories (db w)) with
       | Some first =>
           Forall2 (fun r r' =>
                      same_frame r r' /\ (Row.id r <> Row.id first -> r' = r))
                   (structured_memories (db w)) rows1
       | None => rows1 = structured_memories (db w)
       end.
Proof.
  intros entry w. unfold syncFile, exec.
  rewrite (bind_ok _ _ _ _ _ (getMemoryBySourcePath_run (path entry) w)).
  destruct (find _ _) as [first|] eqn:Hfind.
  - destruct (first_is_selected _ _ _ Hfind) as [row [Hsel Hid]].
    rewrite Hsel. cbn [option_map].
    destruct (Rleb (mtimeMs entry) _).
    + cbn [snd ret]. apply grows_refl.
    + set (e := rowToMemory (db w) row).
      assert (He : id e = Row.id first) by exact Hid.
      rewrite <- He.
      assert (H : exists rows1 new,
                structured_memories
                  (db (exec (for_each (parseMarkdownSections (text entry) (path entry))
                                      (sync_section e (path entry))) w))
                = (rows1 ++ new)%list
                /\ Forall (fun r => Row.source_path r = path entry) new
                /\ Forall2 (row_step (id e)) (structured_memories (db w)) rows1).
      { apply (for_each_invariant
                 (fun w' => exists rows1 new,
                    structured_memories (db w') = (rows1 ++ new)%list
                    /\ Forall (fun r => Row.source_path r = path entry) new
                    /\ Forall2 (row_step (id e)) (structured_memories (db w)) rows1)).
        - intros section w1 H1.
          eapply grows_trans; [exact H1 | apply sync_section_grows].
        - apply grows_refl. }
      unfold exec in H. unfold bind.
      destruct (for_each _ _ w) as [[[]|err] w1]; exact H.
  - assert (H : exists new,
              structured_memories
                (db (exec (for_each (parseMarkdownSections (text entry) (path entry))
                             (fun section =>
                                _ <- createMemory (new_section (path entry) section) ;;
                                ret tt)) w))
              = (structured_memories (db w) ++ new)%list
              /\ Forall (fun r => Row.source_path r = path entry) new).
    { apply (for_each_invariant
               (fun w' => exists new,
                  structured_memories (db w')
                  = (structured_memories (db w) ++ new)%list
                  /\ Forall (fun r => Row.source_path r = path entry) new)).
      - intros section w1 [new [E Hn]]. rewrite exec_discard.
        destruct (createMemory_appends (new_section (path entry) section) w1)
          as [new' [E' Hn']].
        exists (new ++ new')%list. rewrite E', E, app_assoc.
        split; [reflexivity|]. apply Forall_app. split; assumption.
      - exists []. rewrite app_nil_r. split; [reflexivity | constructor]. }
    unfold exec in H. unfold bind.
    destruct (for_each _ _ w) as [[[]|err] w1];
      destruct H as [new [E Hn]]; exists (structured_memories (db w)), new;
      repeat split; assumption.
Qed.

(** X23.  [syncFile] deletes no row and moves none.  When the store has
    records of the file, the only row it may rewrite is the first of them
    (its id: every section is compared with that one record), and only in
    the columns that an update writes; all other rows, the file's other
    records among them, stay as they are.  The rows it appends carry the
    path of the file. *)
Theorem syncFile_rewrites_only_the_first_record_of_the_file :
  forall (entry : MemoryFileEntry) (w : World),
  exists rows1 new,
    structured_memories (db (exec (syncFile entry) w)) = (rows1 ++ new)%list
    /\ Forall (fun r => Row.source_path r = path entry) new
    /\ match find (fun r => String.eqb (Row.source_path r) (path entry))
                  (structured_memories (db w)) with
       | Some first =>
           Forall2 (fun r r' =>
                      same_frame r r' /\ (Row.id r <> Row.id first -> r' = r))
                   (structured_memories (db w)) rows1
       | None => rows1 = structured_memories (db w)
       end.
Proof. exact syncFile_table. Qed.

(** *** Reconciling the same file again *)

Lemma find_app_none {A} (f : A -> bool) (l l' : list A) :
  find f l = None -> find f (l ++ l')%list = find f l'.
Proof.
  induction l as [|x l IH]; simpl; [reflexivity|].
  destruct (f x); [discriminate | exact IH].
Qed.

Lemma creations_append (p : string) sections : forall w,
  exists extra,
    structured_memories
      (db (exec (for_each sections
                   (fun section =>
                      _ <- createMemory (new_section p section) ;; ret tt)) w))
    = (structured_memories (db w) ++ extra)%list.
Proof.
  intro w.
  apply (for_each_invariant
           (fun w' => exists extra,
              structured_memories (db w')
              = (structured_memories (db w) ++ extra)%list)).
  - intros section w1 [extra E]. rewrite exec_discard.
    destruct (createMemory_appends (new_section p section) w1) as [new' [E' _]].
    exists (extra ++ new')%list. rewrite E', E, app_assoc. reflexivity.
  - exists []. rewrite app_nil_r. reflexivity.
Qed.

(** X24.  A file that the store does not know, reconciled when the generated
    id is free and the file has at least one section: reconciling the same
    file again, at any later time, with a modification time not after the
    first reconciliation, reports [unchanged] and changes nothing. *)
Theorem syncFile_again_is_unchanged :
  forall (entry : MemoryFileEntry) (w : World) (t : Z),
    find (fun r => String.eqb (Row.source_path r) (path entry))
         (structured_memories (db w)) = None ->
    has_memory (db w) (uuid_pool w (uuid_next w)) = false ->
    parseMarkdownSections (text entry) (path entry) <> [] ->
    (mtimeMs entry <= IZR (clock w))%R ->
    syncFile entry (set_clock t (exec (syncFile entry) w))
    = (Ok Unchanged, set_clock t (exec (syncFile entry) w)).
Proof.
  intros entry w t Hfind Hfresh Hsec Hmtime.
  set (nr := new_row
               (new_section (path entry)
                  (hd {| sec_content := EmptyString; sec_memoryType := Note;
                         sec_tags := [] |}
                      (parseMarkdownSections (text entry) (path entry))))
               (uuid_pool w (uuid_next w)) (clock w)).
  assert (Hrows : exists extra,
            structured_memories (db (exec (syncFile entry) w))
            = (structured_memories (db w) ++ nr :: extra)%list).
  { unfold syncFile, exec.
    rewrite (bind_ok _ _ _ _ _ (getMemoryBySourcePath_run (path entry) w)).
    rewrite Hfind.
    destruct (parseMarkdownSections (text entry) (path entry)) as [|s rest];
      [congruence|].
    cbn [hd] in nr. cbn [for_each].
    destruct (Stage.createMemory_cases (new_section (path entry) s) w)
      as [[Htaken _]|[_ [m [w1 [Hrun Hr1]]]]]; [congruence|].
    assert (Hbody : (_ <- createMemory (new_section (path entry) s) ;; ret tt) w
                    = (Ok tt, w1)).
    { rewrite (bind_ok _ _ _ _ _ Hrun). reflexivity. }
    destruct (creations_append (path entry) rest w1) as [extra Hextra].
    exists extra.
    change (structured_memories
              (db (exec (for_each (s :: rest)
                           (fun section =>
                              _ <- createMemory (new_section (path entry) section) ;;
                              ret tt) ;;; ret Added) w))
            = (structured_memories (db w) ++ nr :: extra)%list).
    rewrite exec_seq_ret. cbn [for_each].
    rewrite (exec_bind_ok _ _ _ _ _ Hbody).
    rewrite Hextra, Hr1, <- app_assoc. reflexivity. }
  destruct Hrows as [extra Hrows].
  set (w1 := set_clock t (exec (syncFile entry) w)).
  assert (Hrows1 : structured_memories (db w1)
                   = (structured_memories (db w) ++ nr :: extra)%list)
    by exact Hrows.
  unfold syncFile.
  rewrite (bind_ok _ _ _ _ _ (getMemoryBySourcePath_run (path entry) w1)).
  rewrite Hrows1, (find_app_none _ _ _ Hfind).
  cbn [find nr new_row Row.source_path new_section New.sourcePath].
  rewrite String.eqb_refl.
  assert (Hsel : select_memory (db w1) (uuid_pool w (uuid_next w)) = Some nr).
  { unfold select_memory. rewrite Hrows1.
    rewrite find_app_none.
    - cbn [find nr new_row Row.id]. rewrite String.eqb_refl. reflexivity.
    - apply (Similarity.has_memory_none _ _ Hfresh). }
  change (Row.id nr) with (uuid_pool w (uuid_next w)).
  rewrite Hsel. cbn [option_map].
  change (updatedAt (rowToMemory (db w1) nr)) with (clock w).
  unfold Rleb. destruct (Rle_dec (mtimeMs entry) (IZR (clock w))); [|contradiction].
  reflexivity.
Qed.

Lemma syncFile_again_is_unchanged_witness :
  syncFile plan_file
    (set_clock 2000 (exec (syncFile plan_file) (set_clock 1000 (fresh true))))
  = (Ok Unchanged,
     set_clock 2000 (exec (syncFile plan_file) (set_clock 1000 (fresh true)))).
Proof.
  apply (syncFile_again_is_unchanged plan_file (set_clock 1000 (fresh true)) 2000).
  - reflexivity.
  - reflexivity.
  - vm_compute. discriminate.
  - cbn. lra.
Defined.

(** *** [syncFromMarkdown] *)

Lemma Forall2_in_r {A} (R : A -> A -> Prop) (l l' : list A) y :
  Forall2 R l l' -> In y l' -> exists x, In x l /\ R x y.
Proof.
  induction 1 as [|a b l l' Hab H IH]; simpl; [tauto|].
  intros [<-|Hy].
  - exists a. auto.
  - destruct (IH Hy) as [x [Hx Hxy]]. exists x. auto.
Qed.

Lemma syncFile_paths entry w r' :
  In r' (structured_memories (db (exec (syncFile entry) w))) ->
  Row.source_path r' = path entry
  \/ exists r, In r (structured_memories (db w))
               /\ Row.source_path r = Row.source_path r'.
Proof.
  destruct (syncFile_table entry w) as [rows1 [new [E [Hn H]]]].
  rewrite E. intro Hin. apply in_app_or in Hin as [Hin|Hin].
  - right. destruct (find _ _) as [first|].
    + destruct (Forall2_in_r _ _ _ _ H Hin) as [r [Hr [[_ [Hp _]] _]]].
      exists r. split; [exact Hr | symmetry; exact Hp].
    + subst rows1. exists r'. split; [exact Hin | reflexivity].
  - left. rewrite Forall_forall in Hn. apply Hn, Hin.
Qed.

Lemma sync_files_run entries : forall cur res w cur' res' w',
  sync_files entries cur res w = (Ok (cur', res'), w') ->
  cur' = fold_left JS.set_add (map path entries) cur
  /\ added res' + updated res' + unchanged res'
     = added res + updated res + unchanged res + Z.of_nat (List.length entries)
  /\ removed res' = removed res
  /\ forall r', In r' (structured_memories (db w')) ->
       In (Row.source_path r') (map path entries)
       \/ exists r, In r (structured_memories (db w))
                    /\ Row.source_path r = Row.source_path r'.
Proof.
  induction entries as [|e rest IH]; intros cur res w cur' res' w' H.
  - cbn [sync_files] in H. inversion H; subst.
    split; [reflexivity|]. split; [cbn; lia|]. split; [reflexivity|].
    intros r' Hr'. right. exists r'. split; [exact Hr' | reflexivity].
  - cbn [sync_files] in H. unfold bind in H.
    pose proof (syncFile_paths e w) as Hpaths. unfold exec in Hpaths.
    destruct (syncFile e w) as [[s|err] w1]; [|discriminate].
    cbn [snd] in Hpaths.
    destruct (IH _ _ _ _ _ _ H) as [Hcur [Hsum [Hrem Hrows]]].
    split; [exact Hcur|]. split.
    { rewrite Hsum. cbn [List.length]. destruct s; cbn; lia. }
    split; [rewrite Hrem; destruct s; reflexivity|].
    intros r' Hr'. destruct (Hrows r' Hr') as [Hin|[r1 [Hr1 Hp]]].
    + left. right. exact Hin.
    + destruct (Hpaths r1 Hr1) as [Hp1|[r [Hr Hp1]]].
      * left. left. congruence.
      * right. exists r. split; [exact Hr | congruence].
Qed.

Lemma fold_cascade_memories ids : forall d,
  structured_memories (fold_left cascade_delete ids d) = structured_memories d.
Proof.
  induction ids as [|i ids IH]; intro d; simpl; [reflexivity|].
  rewrite IH. reflexivity.
Qed.

Lemma removeMemoriesForPath_run p w :
  exists w',
    removeMemoriesForPath p w = (Ok tt, w')
    /\ structured_memories (db w')
       = filter (fun r => neqb_str (Row.source_path r) p)
                (structured_memories (db w)).
Proof.
  unfold removeMemoriesForPath, bind, get_db, put_db.
  eexists. split; [reflexivity|]. cbn [db set_db].
  destruct (foreign_keys (db w)); [rewrite fold_cascade_memories|]; reflexivity.
Qed.

Lemma remove_deleted_run existing cur : forall res w,
  exists res' w',
    remove_deleted existing cur res w = (Ok res', w')
    /\ (forall r, In r (structured_memories (db w')) ->
          In r (structured_memories (db w))
          /\ ~ (In (Row.source_path r) existing
                /\ JS.set_has (Row.source_path r) cur = false))
    /\ added res' = added res /\ updated res' = updated res
    /\ unchanged res' = unchanged res
    /\ removed res'
       = removed res
         + Z.of_nat (List.length
                       (filter (fun p => negb (JS.set_has p cur)) existing)).
Proof.
  induction existing as [|p rest IH]; intros res w; cbn [remove_deleted].
  - exists res, w. split; [reflexivity|]. split.
    + intros r Hr. split; [exact Hr|]. intros [[] _].
    + cbn. repeat split; lia.
  - destruct (JS.set_has p cur) eqn:Hp; cbn [negb filter].
    + destruct (IH res w) as [res' [w' [Hrun [Hrows Hcounts]]]].
      exists res', w'. split; [exact Hrun|]. split; [|rewrite Hp; exact Hcounts].
      intros r Hr. destruct (Hrows r Hr) as [Hin Hno].
      split; [exact Hin|]. intros [[<-|Hin'] Hc]; [congruence|].
      apply Hno. split; assumption.
    + destruct (removeMemoriesForPath_run p w) as [w1 [Hrun1 Hrows1]].
      rewrite (bind_ok _ _ _ _ _ Hrun1).
      destruct (IH {| added := added res; updated := updated res;
                      removed := removed res + 1;
                      unchanged := unchanged res |} w1)
        as [res' [w' [Hrun [Hrows Hcounts]]]].
      exists res', w'. split; [exact Hrun|]. split.
      * intros r Hr. destruct (Hrows r Hr) as [Hin Hno].
        rewrite Hrows1 in Hin. apply filter_In in Hin as [Hin Hne].
        split; [exact Hin|]. intros [[E|Hin'] Hc].
        { cbv beta in Hne. unfold neqb_str in Hne. rewrite <- E in Hne.
          rewrite String.eqb_refl in Hne. discriminate. }
        apply Hno. split; assumption.
      * rewrite Hp. cbn [negb List.length].
        destruct Hcounts as [Ha [Hu [Hun Hr]]]. cbn in Ha, Hu, Hun, Hr.
        repeat split; try assumption. rewrite Hr. lia.
Qed.

Lemma set_has_new_Set x l : JS.set_has x (JS.new_Set l) = JS.set_has x l.
Proof.
  destruct (JS.set_has x l) eqn:E.
  - apply Similarity.set_has_In, Similarity.new_Set_In.
    apply (proj1 (Similarity.set_has_In x l)), E.
  - apply not_true_is_false. intro H.
    apply (proj1 (Similarity.set_has_In _ _)) in H.
    apply (proj1 (Similarity.new_Set_In _ _)) in H.
    apply (proj2 (Similarity.set_has_In _ _)) in H.
    congruence.
Qed.

(** X25.  A reconciliation that returns leaves in the store only records
    whose source path is the path of a listed file: the records of every
    path that the store knew and that is no longer listed are deleted,
    whatever created them.  Every listed file is counted once, as added,
    updated or unchanged, and [removed] counts the distinct paths that were
    dropped. *)
Theorem syncFromMarkdown_keeps_only_listed_files :
  forall (fileEntries : list MemoryFileEntry) (w : World)
         (result : SyncResult) (w' : World),
    syncFromMarkdown true fileEntries w = (Ok result, w') ->
    Forall (fun r => In (Row.source_path r) (map path fileEntries))
           (structured_memories (db w'))
    /\ added result + updated result + unchanged result
       = Z.of_nat (List.length fileEntries)
    /\ removed result
       = Z.of_nat
           (List.length
              (filter (fun p => negb (JS.set_has p (map path fileEntries)))
                      (JS.new_Set (map Row.source_path
                                       (structured_memories (db w)))))).
Proof.
  intros entries w result w' H.
  unfold syncFromMarkdown in H. cbn [negb] in H.
  assert (Hex : getExistingSourcePaths w
                = (Ok (JS.new_Set (map Row.source_path
                                       (structured_memories (db w)))), w))
    by reflexivity.
  rewrite (bind_ok _ _ _ _ _ Hex) in H.
  set (existing := JS.new_Set _) in *.
  set (zero := {| added := 0; updated := 0; removed := 0; unchanged := 0 |}) in *.
  unfold bind in H.
  destruct (sync_files entries [] zero w) as [[[cur res]|err] w1] eqn:Hfiles;
    [|discriminate].
  cbn [fst snd] in H.
  destruct (sync_files_run _ _ _ _ _ _ _ Hfiles) as [Hcur [Hsum [Hrem Hrows]]].
  destruct (remove_deleted_run existing cur res w1)
    as [res' [w2 [Hrun [Hkept [Ha [Hu [Hun Hremoved]]]]]]].
  rewrite Hrun in H. inversion H; subst res' w2; clear H.
  assert (Hhas : forall p, JS.set_has p cur = JS.set_has p (map path entries)).
  { intro p. rewrite Hcur. apply set_has_new_Set. }
  split; [|split].
  - apply Forall_forall. intros r Hr.
    destruct (Hkept r Hr) as [Hin Hno].
    destruct (Hrows r Hin) as [Hl|[r0 [Hr0 Hp]]]; [exact Hl|].
    destruct (JS.set_has (Row.source_path r) cur) eqn:E.
    + rewrite Hhas in E. apply Similarity.set_has_In, E.
    + exfalso. apply Hno. split; [|reflexivity].
      subst existing. apply Similarity.new_Set_In.
      rewrite <- Hp. apply in_map, Hr0.
  - rewrite Ha, Hu, Hun, Hsum. subst zero. cbn. lia.
  - rewrite Hremoved, Hrem. subst zero. cbn [removed]. rewrite Z.add_0_l.
    do 2 f_equal. apply filter_ext. intro p. rewrite Hhas. reflexivity.
Qed.

Lemma syncFromMarkdown_keeps_only_listed_files_witness :
  match syncFromMarkdown true [plan_file] stored with
  | (Ok result, w') =>
      Forall (fun r => In (Row.source_path r) (map path [plan_file]))
             (structured_memories (db w'))
      /\ added result + updated result + unchanged result = 1
      /\ removed result = 1
  | (Throw _, _) => False
  end.
Proof.
  destruct (syncFromMarkdown true [plan_file] stored) as [[result|e] w'] eqn:H.
  - apply (syncFromMarkdown_keeps_only_listed_files [plan_file] stored result w').
    exact H.
  - vm_compute in H. discriminate.
Defined.

End Reconcile.

(* ================================================================== *)
(** ** The backend: snippets, reading a file, a full sync *)

Module Facade.
Import Store StoreFacts Terms Fixture.
Local Open Scope store_scope.

(** *** [extractSnippet] *)

Lemma substring_length (n m : nat) (s : string) :
  (String.length (String.substring n m s) <= m)%nat.
Proof.
  revert n m. induction s as [|c s IH]; intros n m.
  - destruct n, m; simpl; lia.
  - destruct n as [|n].
    + destruct m as [|m]; simpl; [lia|]. specialize (IH 0%nat m). lia.
    + simpl. apply IH.
Qed.

Lemma slice_len (s : string) (a b : Z) :
  JS.len (JS.slice s a b) <= Z.max 0 (b - a).
Proof.
  unfold JS.len, JS.slice.
  pose proof (substring_length (Z.to_nat a) (Z.to_nat (b - a)) s). lia.
Qed.

Lemma len_app (s t : string) : JS.len (s ++ t) = JS.len s + JS.len t.
Proof. unfold JS.len. rewrite Durations.length_app. lia. Qed.

(** X26.  [extractSnippet] returns a text of at most 700 characters as it
    is, and never returns more than 706 characters plus the length of the
    query: a window of at most 700 characters around the match and the query
    itself, with an ellipsis of three characters at either cut. *)
Theorem extractSnippet_is_bounded :
  forall (content q : string),
    (JS.len content <= 700 -> Backend.extractSnippet content q = content)
    /\ (700 < JS.len content ->
        JS.len (Backend.extractSnippet content q) <= 706 + JS.len q).
Proof.
  intros content q. unfold Backend.extractSnippet. split.
  - intro H. destruct (JS.len content <=? 700) eqn:E; [reflexivity | lia].
  - intro H. destruct (JS.len content <=? 700) eqn:E; [lia|].
    assert (Hq : 0 <= JS.len q) by (unfold JS.len; lia).
    destruct (JS.indexOf _ _ =? -1).
    + rewrite len_app. pose proof (slice_len content 0 700).
      change (JS.len "...") with 3. lia.
    + set (mi := JS.indexOf _ _).
      set (start := Z.max 0 (mi - 200)).
      set (stop := Z.min (JS.len content) (mi + JS.len q + (700 - 200))).
      pose proof (slice_len content start stop) as Hs.
      assert (Hw : Z.max 0 (stop - start) <= 700 + JS.len q) by lia.
      destruct (0 <? start), (stop <? JS.len content);
        rewrite ?len_app; change (JS.len "...") with 3; lia.
Qed.

(** *** [readFile] *)

Lemma recordAccess_run mid a q w :
  has_memory (db w) mid = true ->
  exists w',
    recordAccess mid a q w = (Ok tt, w')
    /\ clock w' = clock w
    /\ map Row.id (structured_memories (db w'))
       = map Row.id (structured_memories (db w))
    /\ memory_access_log (db w')
       = (memory_access_log (db w) ++ [log_row (db w) mid (clock w) q a])%list.
Proof.
  intro Hhas. unfold recordAccess.
  rewrite (bind_ok Date_now _ w (clock w) w eq_refl).
  rewrite (bind_ok _ _ _ _ _ (StoreOps.insert_access_log_ok mid (clock w) q a w
             ltac:(rewrite Hhas; apply andb_false_r))).
  unfold update_memory, bind, get_db, put_db.
  eexists. split; [reflexivity|].
  cbn [db set_db clock structured_memories with_memories with_access_log
       memory_access_log].
  split; [reflexivity|]. split; [|reflexivity].
  rewrite map_map. apply map_ext. intro r.
  destruct (String.eqb (Row.id r) mid); reflexivity.
Qed.

Lemma has_memory_ids d d' mid :
  map Row.id (structured_memories d') = map Row.id (structured_memories d) ->
  has_memory d' mid = has_memory d mid.
Proof.
  unfold has_memory. intro H.
  rewrite <- (map_id (structured_memories d')), <- (map_id (structured_memories d)).
  assert (E : forall l : list Row.t,
             existsb (fun r => String.eqb (Row.id r) mid) l
             = existsb (fun i => String.eqb i mid) (map Row.id l)).
  { induction l as [|r l IH]; simpl; [reflexivity | rewrite IH; reflexivity]. }
  rewrite !map_id, !E, H. reflexivity.
Qed.

Lemma reads_are_logged (now : Z) (ms : list StructuredMemory) : forall w,
  clock w = now ->
  (forall m, In m ms -> has_memory (db w) (id m) = true) ->
  exists w',
    for_each ms (fun memory => recordAccess (id memory) ActRead None) w
    = (Ok tt, w')
    /\ map (fun e => (memory_id e, action e, query e, accessed_at e))
           (memory_access_log (db w'))
       = (map (fun e => (memory_id e, action e, query e, accessed_at e))
              (memory_access_log (db w))
          ++ map (fun m => (id m, ActRead, None, now)) ms)%list.
Proof.
  induction ms as [|m ms IH]; intros w Hc Hms; cbn [for_each].
  - exists w. split; [reflexivity|]. rewrite app_nil_r. reflexivity.
  - destruct (recordAccess_run (id m) ActRead None w (Hms m (or_introl eq_refl)))
      as [w1 [Hrun [Hc1 [Hids Hlog]]]].
    rewrite (bind_ok _ _ _ _ _ Hrun).
    destruct (IH w1) as [w' [Hrun' Hlog']].
    + congruence.
    + intros m' Hm'. rewrite (has_memory_ids _ _ _ Hids). apply Hms. right; exact Hm'.
    + exists w'. split; [exact Hrun'|].
      rewrite Hlog', Hlog, map_app, <- app_assoc. cbn [map app log_row memory_id
        action query accessed_at]. rewrite Hc. reflexivity.
Qed.

(** X27.  On an open backend [readFile] never throws.  It looks among the
    100 records that [searchMemories] ranks first; when none of them has the
    path asked for, it returns what the file system gives and changes
    nothing; otherwise it appends to the access log one [read] row per
    record of the path, in order, and (no line range given) returns their
    contents joined by a rule. *)
Theorem readFile_logs_each_record_read :
  forall (relPath : string) (from lines : option Z) (fallback : string)
         (w : World),
  exists ms text w',
    eval (searchMemories
            {| sp_query := None; sp_tags := None; sp_memoryType := None;
               sp_importanceLevel := None; sp_limit := Some 100;
               sp_offset := None; sp_orderBy := None |}) w = Ok ms
    /\ Backend.readFile false relPath from lines fallback w = (Ok text, w')
    /\ map (fun e => (memory_id e, action e, query e, accessed_at e))
           (memory_access_log (db w'))
       = (map (fun e => (memory_id e, action e, query e, accessed_at e))
              (memory_access_log (db w))
          ++ map (fun m => (id m, ActRead, None, clock w))
                 (filter (fun m => String.eqb (sourcePath m) relPath) ms))%list
    /\ (filter (fun m => String.eqb (sourcePath m) relPath) ms = [] ->
        text = fallback /\ w' = w)
    /\ (filter (fun m => String.eqb (sourcePath m) relPath) ms <> [] ->
        from = None -> lines = None ->
        text = JS.join (JS.nl ++ JS.nl ++ "---" ++ JS.nl ++ JS.nl)
                       (map content
                            (filter (fun m => String.eqb (sourcePath m) relPath)
                                    ms))).
Proof.
  intros relPath from lines fallback w.
  set (params := {| sp_query := None; sp_tags := None; sp_memoryType := None;
                    sp_importanceLevel := None; sp_limit := Some 100;
                    sp_offset := None; sp_orderBy := None |}).
  assert (Hsearch : exists ms, searchMemories params w = (Ok ms, w)
                     /\ forall m, In m ms -> has_memory (db w) (id m) = true).
  { eexists. split; [reflexivity|]. intros m Hm.
    apply in_map_iff in Hm as [r [<- Hr]].
    apply Selection.In_limit_offset, Selection.In_sort_by, filter_In in Hr
      as [Hin _].
    unfold has_memory. apply existsb_exists. exists r.
    split; [exact Hin | apply String.eqb_refl]. }
  destruct Hsearch as [ms [Hrun Hms]].
  exists ms. unfold Backend.readFile. fold params.
  rewrite (bind_ok _ _ _ _ _ Hrun).
  set (matching := filter (fun m => String.eqb (sourcePath m) relPath) ms).
  assert (Hmatching : forall m, In m matching -> has_memory (db w) (id m) = true).
  { intros m Hm. apply Hms. apply filter_In in Hm. tauto. }
  destruct matching as [|m0 rest] eqn:Hmat.
  - exists fallback, w. split; [unfold eval; rewrite Hrun; reflexivity|].
    split; [reflexivity|]. split; [rewrite app_nil_r; reflexivity|].
    split; [auto | congruence].
  - destruct (reads_are_logged (clock w) (m0 :: rest) w eq_refl Hmatching)
      as [w' [Hloop Hlog]].
    rewrite (bind_ok _ _ _ _ _ Hloop).
    destruct from as [f|], lines as [n|]; eexists; exists w';
      (split; [unfold eval; rewrite Hrun; reflexivity|]);
      (split; [reflexivity|]); (split; [exact Hlog|]);
      (split; [discriminate|]); intros _ Hf Hl; try discriminate; reflexivity.
Qed.

(** *** [recalculateImportance] and [sync] *)

Lemma recalc_rows_frame cfg now l : forall t,
  Forall2 (fun r r' => r' = r \/ exists s, r' = assign r (SetImportanceScore s))
          t (recalc_rows cfg now l t).
Proof.
  induction l as [|mem l IH]; intro t; cbn [recalc_rows fold_left].
  - apply UpdateFrame.Forall2_self. auto.
  - eapply Reconcile.Forall2_trans; [| |apply (IH (map (rescore_by cfg now mem) t))].
    + intros x y z [->|[s1 ->]] [->|[s2 ->]].
      * left; reflexivity.
      * right; exists s2; reflexivity.
      * right; exists s1; reflexivity.
      * right; exists s2; reflexivity.
    + apply UpdateFrame.Forall2_map_self. intro r. unfold rescore_by.
      destruct (String.eqb (Row.id r) (Row.id mem));
        [right; eexists; reflexivity | left; reflexivity].
Qed.

Lemma recalculateImportance_total cfg w :
  exists w',
    recalculateImportance cfg w = (Ok tt, w')
    /\ Forall2 (fun r r' => r' = r
                            \/ exists s, r' = assign r (SetImportanceScore s))
               (structured_memories (db w)) (structured_memories (db w'))
    /\ (importance_enabled (importance cfg) = true ->
        Forall (fun r => (0 <= Row.importance_score r <= 1)%R)
               (structured_memories (db w')))
    /\ tags_table (db w') = tags_table (db w)
    /\ memory_tags (db w') = memory_tags (db w)
    /\ memory_access_log (db w') = memory_access_log (db w)
    /\ (importance_enabled (importance cfg) = false -> w' = w).
Proof.
  destruct (importance_enabled (importance cfg)) eqn:E.
  - rewrite (Scoring.recalculateImportance_run cfg w E).
    eexists. split; [reflexivity|].
    cbn [db set_db structured_memories with_memories tags_table memory_tags
         memory_access_log].
    split; [apply recalc_rows_frame|].
    split; [|repeat split; discriminate].
    intros _. apply Forall_forall. intros r Hr.
    destruct (Scoring.recalc_rows_clamped _ _ _ _ _ Hr) as [H|[Hin Hnot]];
      [exact H|].
    exfalso. apply Hnot, in_map, Hin.
  - unfold recalculateImportance. rewrite E. cbn [negb]. exists w.
    split; [reflexivity|]. split; [apply UpdateFrame.Forall2_self; auto|].
    repeat split. discriminate.
Qed.

(** X28.  [recalculateImportance] never throws and writes nothing but the
    column [importance_score]: every row keeps its place and all its other
    columns, the importance level and the update time among them, and the
    tags and the access log are as before.  When scoring is disabled the
    store is unchanged. *)
Theorem recalculateImportance_writes_only_the_score :
  forall (cfg : StructuredMemoryConfig) (w : World),
  exists w',
    recalculateImportance cfg w = (Ok tt, w')
    /\ Forall2 (fun r r' => r' = r
                            \/ exists s, r' = assign r (SetImportanceScore s))
               (structured_memories (db w)) (structured_memories (db w'))
    /\ tags_table (db w') = tags_table (db w)
    /\ memory_tags (db w') = memory_tags (db w)
    /\ memory_access_log (db w') = memory_access_log (db w)
    /\ (importance_enabled (importance cfg) = false -> w' = w).
Proof.
  intros cfg w.
  destruct (recalculateImportance_total cfg w) as [w' [H1 [H2 [_ H3]]]].
  exists w'. split; [exact H1|]. split; [exact H2 | exact H3].
Qed.


End Facade.
